(** * University of Memphis term calendar importer: the extraction core

    A shallow embedding of [uofm_calendar_import.py].  Python values are
    modelled as follows.

    - [str] is a list of Unicode code points ([Z]); a literal of the source
      is written [s "..."] when it is ASCII and as an explicit code point
      otherwise (the en dash is [8211], U+2013).
    - [int] is [Z].
    - [datetime.date] is represented by its proleptic Gregorian ordinal
      ([date.toordinal()]): comparison, [+ timedelta], [weekday()] and
      [max]/[min] of the standard library all go through it.  The
      year/month/day view is recovered by [ord2ymd], the standard
      library's conversion.
    - an exception is a value of [exn]; a function that may raise returns
      [result].
    - the collaborators that are not part of the repository (the page
      fetcher, the markup-to-text reduction, the natural-language date
      converter and the Unicode character tables used by [re], [str.lower]
      and [int]) are parameters. *)

From Stdlib Require Import String Ascii ZArith List Bool Lia Sorted.
Import ListNotations.

Local Open Scope Z_scope.

(** ** Text *)

Definition str := list Z.

Definition ch (a : ascii) : Z := Z.of_N (N_of_ascii a).

(** An ASCII literal of the source. *)
Definition s (x : string) : str := map ch (list_ascii_of_string x).

Definition en_dash : Z := 8211.

Fixpoint str_eqb (a b : str) : bool :=
  match a, b with
  | [], [] => true
  | x :: a', y :: b' => (x =? y) && str_eqb a' b'
  | _, _ => false
  end.

Fixpoint startswith (p t : str) : bool :=
  match p, t with
  | [], _ => true
  | x :: p', y :: t' => (x =? y) && startswith p' t'
  | _ :: _, [] => false
  end.

(** [needle in hay] *)
Fixpoint contains (needle hay : str) : bool :=
  startswith needle hay ||
  match hay with
  | [] => false
  | _ :: hay' => contains needle hay'
  end.

Definition endswith (t suffix : str) : bool :=
  startswith (rev suffix) (rev t).

(** [t.replace(old, new)] for a one-character [old]. *)
Definition replace_char (old : Z) (new : str) (t : str) : str :=
  flat_map (fun c => if c =? old then new else [c]) t.

(** [sep.join(parts)] *)
Fixpoint join (sep : str) (parts : list str) : str :=
  match parts with
  | [] => []
  | [p] => p
  | p :: rest => p ++ sep ++ join sep rest
  end.

(** Unicode whitespace, as [str.isspace], [str.strip] and the [\s] class of
    [re] on [str] patterns see it. *)
Definition is_space (c : Z) : bool :=
  ((9 <=? c) && (c <=? 13)) || ((28 <=? c) && (c <=? 32)) ||
  (c =? 133) || (c =? 160) || (c =? 5760) ||
  ((8192 <=? c) && (c <=? 8202)) || (c =? 8232) || (c =? 8233) ||
  (c =? 8239) || (c =? 8287) || (c =? 12288).

Fixpoint lstrip (t : str) : str :=
  match t with
  | c :: t' => if is_space c then lstrip t' else t
  | [] => []
  end.

Definition rstrip (t : str) : str := rev (lstrip (rev t)).

(** [t.strip()] *)
Definition strip (t : str) : str := rstrip (lstrip t).

(** Line boundaries of [str.splitlines]. *)
Definition is_linebreak (c : Z) : bool :=
  ((10 <=? c) && (c <=? 13)) || ((28 <=? c) && (c <=? 30)) ||
  (c =? 133) || (c =? 8232) || (c =? 8233).

(** [splitlines_aux cur t]: [cur] is the current line, reversed. *)
Fixpoint splitlines_aux (cur : str) (t : str) : list str :=
  match t with
  | [] => match cur with [] => [] | _ => [rev cur] end
  | c :: t' =>
      if is_linebreak c then
        match c, t' with
        | 13, 10 :: t'' => rev cur :: splitlines_aux [] t''
        | _, _ => rev cur :: splitlines_aux [] t'
        end
      else splitlines_aux (c :: cur) t'
  end.

Definition splitlines (t : str) : list str := splitlines_aux [] t.

(** Decimal digits of a non-negative integer, most significant first. *)
Fixpoint digits_of (fuel : nat) (n : Z) (acc : str) : str :=
  let acc' := (48 + n mod 10) :: acc in
  match fuel with
  | O => acc'
  | S fuel' => if n <? 10 then acc' else digits_of fuel' (n / 10) acc'
  end.

(** [str(n)] for an [int]. *)
Definition str_of_int (n : Z) : str :=
  if n <? 0 then 45 :: digits_of (Z.to_nat (Z.log2 (- n))) (- n) []
  else digits_of (Z.to_nat (Z.log2 n)) n [].

(** [f"{n:02d}"] for a non-negative [n]. *)
Definition fmt_02d (n : Z) : str :=
  let t := str_of_int n in
  if (Z.of_nat (length t) <? 2) then 48 :: t else t.

(** ** Exceptions *)

Inductive exn : Type :=
| ValueError (msg : str)
| RuntimeError (msg : str)
| OverflowError
| FetchError
| ParserError
| OutOfFuel.

Inductive result (A : Type) : Type :=
| Ok (a : A)
| Raise (e : exn).
Arguments Ok {A} a.
Arguments Raise {A} e.

Definition bind {A B : Type} (m : result A) (k : A -> result B) : result B :=
  match m with
  | Ok a => k a
  | Raise e => Raise e
  end.

Notation "x <- m ;; k" := (bind m (fun x => k))
  (at level 61, m at next level, right associativity).

(** ** Dates *)

Definition date := Z.

(** [date.max.toordinal()], the ordinal of 9999-12-31. *)
Definition MAXORDINAL : Z := 3652059.

Definition valid_date (d : date) : Prop := 1 <= d <= MAXORDINAL.

(** [d + timedelta(days=n)]: [OverflowError] outside [date.min..date.max]. *)
Definition add_days (d : date) (n : Z) : result date :=
  let o := d + n in
  if (0 <? o) && (o <=? MAXORDINAL) then Ok o else Raise OverflowError.

(** [d.weekday()], Monday = 0. *)
Definition weekday (d : date) : Z := (d + 6) mod 7.

Definition is_leap (y : Z) : bool :=
  (y mod 4 =? 0) && (negb (y mod 100 =? 0) || (y mod 400 =? 0)).

Definition days_before_year (y : Z) : Z :=
  let y1 := y - 1 in y1 * 365 + y1 / 4 - y1 / 100 + y1 / 400.

Definition month_length (leap : bool) (m : Z) : Z :=
  if m =? 2 then (if leap then 29 else 28)
  else if (m =? 4) || (m =? 6) || (m =? 9) || (m =? 11) then 30
  else 31.

Definition days_in_month (y m : Z) : Z := month_length (is_leap y) m.

Definition days_before_month_tbl (m : Z) : Z :=
  nth (Z.to_nat m) [-1; 0; 31; 59; 90; 120; 151; 181; 212; 243; 273; 304; 334] 0.

Definition month_offset (leap : bool) (m : Z) : Z :=
  days_before_month_tbl m + (if (2 <? m) && leap then 1 else 0).

Definition days_before_month (y m : Z) : Z := month_offset (is_leap y) m.

(** [date(y, m, d).toordinal()] *)
Definition ymd2ord (y m d : Z) : Z :=
  days_before_year y + days_before_month y m + d.

Definition valid_ymd (y m d : Z) : bool :=
  (1 <=? y) && (y <=? 9999) && (1 <=? m) && (m <=? 12) &&
  (1 <=? d) && (d <=? days_in_month y m).

(** [date(y, m, d)]: [None] where the constructor raises [ValueError]. *)
Definition mkdate (y m d : Z) : option date :=
  if valid_ymd y m d then Some (ymd2ord y m d) else None.

(** The month and day of the [n]-th day (from 0) of a year. *)
Definition ord2md (leapyear : bool) (n : Z) : Z * Z :=
  let month := Z.shiftr (n + 50) 5 in
  let preceding :=
    days_before_month_tbl month + (if (2 <? month) && leapyear then 1 else 0) in
  if n <? preceding then
    let month := month - 1 in
    let dim :=
      nth (Z.to_nat month) [-1; 31; 28; 31; 30; 31; 30; 31; 31; 30; 31; 30; 31] 0 in
    let preceding :=
      preceding - (dim + (if (month =? 2) && leapyear then 1 else 0)) in
    (month, n - preceding + 1)
  else (month, n - preceding + 1).

(** [date.fromordinal(n)] as (year, month, day). *)
Definition ord2ymd (n : Z) : Z * Z * Z :=
  let n := n - 1 in
  let n400 := n / 146097 in
  let n := n mod 146097 in
  let year := n400 * 400 + 1 in
  let n100 := n / 36524 in
  let n := n mod 36524 in
  let n4 := n / 1461 in
  let n := n mod 1461 in
  let n1 := n / 365 in
  let n := n mod 365 in
  let year := year + n100 * 100 + n4 * 4 + n1 in
  if (n1 =? 4) || (n100 =? 4) then (year - 1, 12, 31)
  else
    let leapyear := (n1 =? 3) && (negb (n4 =? 24) || (n100 =? 3)) in
    (year, fst (ord2md leapyear n), snd (ord2md leapyear n)).

Definition year (d : date) : Z := fst (fst (ord2ymd d)).
Definition month (d : date) : Z := snd (fst (ord2ymd d)).
Definition day (d : date) : Z := snd (ord2ymd d).

(** ** Range primitive *)

Record DateRange : Type := mkDateRange { start : date; end_ : date }.

Definition contains_day (r : DateRange) (d : date) : bool :=
  (start r <=? d) && (d <=? end_ r).

Definition intersects (r other : DateRange) : bool :=
  negb ((end_ r <? start other) || (end_ other <? start r)).

Definition clamp (r : DateRange) (lo hi : date) : DateRange :=
  mkDateRange (Z.max (start r) lo) (Z.min (end_ r) hi).

(** The generator [daterange_inclusive], run to exhaustion. *)
Fixpoint daterange_loop (fuel : nat) (cur stop : date) (acc : list date)
  : result (list date) :=
  if cur <=? stop then
    match fuel with
    | O => Raise OutOfFuel
    | S fuel' =>
        cur' <- add_days cur 1 ;;
        daterange_loop fuel' cur' stop (acc ++ [cur])
    end
  else Ok acc.

Definition daterange_inclusive (a b : date) : result (list date) :=
  daterange_loop (Z.to_nat (b - a + 1)) a b [].

(** ** Week labelling *)

Definition monday_of_week (d : date) : result date :=
  add_days d (- weekday d).

Definition event : Type := str * date * date.

Definition title (e : event) : str := fst (fst e).
Definition event_start (e : event) : date := snd (fst e).
Definition event_end (e : event) : date := snd e.

Definition is_blackout (blackout_ranges : list DateRange) (d : date) : bool :=
  existsb (fun r => contains_day r d) blackout_ranges.

(** The days the inner [for] loop appends to [instructional_days]. *)
Definition instructional (blackout_ranges : list DateRange) (d : date) : bool :=
  negb (5 <=? weekday d) && negb (is_blackout blackout_ranges d).

Definition week_title (week_num : Z) (short : bool) : str :=
  s "Week " ++ str_of_int week_num ++ (if short then s " (short)" else []).

Section WeekLoop.
Variables first_class last_class : date.
Variable blackout_ranges : list DateRange.
Variable wk_end_boundary : date.

Fixpoint week_loop (fuel : nat) (cur : date) (week_num : Z)
         (events : list event) : result (list event) :=
  if cur <=? wk_end_boundary then
    match fuel with
    | O => Raise OutOfFuel
    | S fuel' =>
        fri <- add_days cur 4 ;;
        let week_range := clamp (mkDateRange cur fri) first_class last_class in
        days <- daterange_inclusive (start week_range) (end_ week_range) ;;
        let instructional_days := filter (instructional blackout_ranges) days in
        match instructional_days with
        | [] =>
            cur' <- add_days cur 7 ;;
            week_loop fuel' cur' week_num events
        | start_d :: _ =>
            let end_d := last instructional_days start_d in
            let short := Z.of_nat (length instructional_days) <? 5 in
            let events' := events ++ [(week_title week_num short, start_d, end_d)] in
            cur' <- add_days cur 7 ;;
            week_loop fuel' cur' (week_num + 1) events'
        end
    end
  else Ok events.
End WeekLoop.

Definition instructional_week_events (first_class last_class : date)
           (blackout_ranges : list DateRange) : result (list event) :=
  wk_start <- monday_of_week first_class ;;
  wk_end_boundary <- monday_of_week last_class ;;
  week_loop first_class last_class blackout_ranges wk_end_boundary
            (Z.to_nat ((wk_end_boundary - wk_start) / 7 + 1))
            wk_start 1 [].


(** ** Regular expressions

    The fragment of [re] the source uses: literals, character sets,
    greedy quantifiers over one-character items, sequence, alternation,
    capturing groups that are not nested, [^], [$] and [\b].  The matcher is
    a backtracking one in continuation-passing style, which tries the
    alternatives in the order [re] does: a quantifier the longest run
    first, an alternation left to right. *)

(** The rows of the Unicode character database the source reaches through
    [\d] and [int] ([decimal]), [\b] ([alnum]), [re.IGNORECASE] ([ci_eq]:
    whether a pattern literal and a character are equal up to case) and
    [str.lower] ([lower]). *)
Record unicode_db : Type := {
  decimal : Z -> option Z;
  alnum : Z -> bool;
  ci_eq : Z -> Z -> bool;
  lower : str -> str
}.

Inductive charset : Type :=
| CSpace                       (* \s *)
| CDigit                       (* \d *)
| CChar (c : Z)
| CRange (a b : Z)
| CUnion (p q : charset)
| CDot.                        (* . *)

Inductive re : Type :=
| Lit (c : Z)
| Cls (p : charset)
| Rep (p : charset) (lo : nat) (hi : option nat)   (* p{lo,hi}, greedy *)
| Seq (a b : re)
| Alt (a b : re)
| Grp (a : re)
| Bol                          (* ^ *)
| Eol                          (* $ *)
| Wb                           (* \b *)
| Eps.

Definition plus (p : charset) : re := Rep p 1 None.
Definition star (p : charset) : re := Rep p 0 None.
(** [p{lo,hi}] *)
Definition between (p : charset) (lo hi : nat) : re := Rep p lo (Some hi).

Fixpoint cat (rs : list re) : re :=
  match rs with
  | [] => Eps
  | [r] => r
  | r :: rs' => Seq r (cat rs')
  end.

(** The literal text [t], as [re.escape(t)] or a pattern without
    metacharacters denotes it. *)
Definition lits (t : str) : re := cat (map Lit t).

(** [[A-Za-z]] *)
Definition alpha : charset := CUnion (CRange 65 90) (CRange 97 122).

Section Regex.
Variable db : unicode_db.

Definition is_digit (c : Z) : bool :=
  match decimal db c with Some _ => true | None => false end.

(** [\w] *)
Definition is_word (c : Z) : bool := alnum db c || (c =? 95).

Fixpoint in_cls (p : charset) (c : Z) : bool :=
  match p with
  | CSpace => is_space c
  | CDigit => is_digit c
  | CChar x => c =? x
  | CRange a b => (a <=? c) && (c <=? b)
  | CUnion p q => in_cls p c || in_cls q c
  | CDot => negb (c =? 10)
  end.

Definition word_before (pv : option Z) : bool :=
  match pv with Some c => is_word c | None => false end.

Definition word_after (t : str) : bool :=
  match t with c :: _ => is_word c | [] => false end.

Section Matcher.
Variable A : Type.
(** [re.IGNORECASE] *)
Variable icase : bool.

Definition more (hi : option nat) : bool :=
  match hi with Some O => false | _ => true end.

(** [pv] is the character before the current position ([None] at the
    start of the text), [t] the text from the current position on. *)
Fixpoint rep (p : charset) (lo : nat) (hi : option nat) (pv : option Z)
         (t : str) (k : option Z -> str -> option A) {struct t} : option A :=
  let stop := match lo with O => k pv t | S _ => None end in
  match t with
  | c :: t' =>
      if in_cls p c && more hi then
        match rep p (pred lo) (option_map pred hi) (Some c) t' k with
        | Some r => Some r
        | None => stop
        end
      else stop
  | [] => stop
  end.

Fixpoint m (r : re) (pv : option Z) (t : str) (caps : list str)
         (k : option Z -> str -> list str -> option A) {struct r} : option A :=
  match r with
  | Eps => k pv t caps
  | Lit x =>
      match t with
      | c :: t' =>
          if (if icase then ci_eq db x c else c =? x)
          then k (Some c) t' caps else None
      | [] => None
      end
  | Cls p =>
      match t with
      | c :: t' => if in_cls p c then k (Some c) t' caps else None
      | [] => None
      end
  | Rep p lo hi => rep p lo hi pv t (fun pv' t' => k pv' t' caps)
  | Seq a b => m a pv t caps (fun pv' t' caps' => m b pv' t' caps' k)
  | Alt a b =>
      match m a pv t caps k with
      | Some r => Some r
      | None => m b pv t caps k
      end
  | Grp a =>
      m a pv t caps
        (fun pv' t' caps' =>
           k pv' t' (caps' ++ [firstn (length t - length t') t]))
  | Bol => match pv with None => k pv t caps | Some _ => None end
  | Eol =>
      match t with
      | [] => k pv t caps
      | [10] => k pv t caps
      | _ => None
      end
  | Wb => if xorb (word_before pv) (word_after t) then k pv t caps else None
  end.
End Matcher.

(** A match object: the text before the match, the matched text
    ([group(0)]), the groups 1, 2, ..., the text after the match and the
    character that precedes it. *)
Record match_obj : Type := {
  m_before : str;
  m_text : str;
  m_groups : list str;
  m_after : str;
  m_prev : option Z
}.

Definition group (mo : match_obj) (i : nat) : str :=
  match i with
  | O => m_text mo
  | S j => nth j (m_groups mo) []
  end.

Definition match_at (icase : bool) (r : re) (before : str) (pv : option Z)
           (t : str) : option match_obj :=
  m match_obj icase r pv t []
    (fun pv' t' caps =>
       Some {| m_before := before;
               m_text := firstn (length t - length t') t;
               m_groups := caps; m_after := t'; m_prev := pv' |}).

(** [re.match(r, t)] *)
Definition re_match (icase : bool) (r : re) (t : str) : option match_obj :=
  match_at icase r [] None t.

(** [re.fullmatch(r, t)] *)
Definition re_fullmatch (r : re) (t : str) : option match_obj :=
  m match_obj false r None t []
    (fun pv' t' caps =>
       match t' with
       | [] => Some {| m_before := []; m_text := t; m_groups := caps;
                       m_after := []; m_prev := pv' |}
       | _ :: _ => None
       end).

Fixpoint search_from (icase : bool) (r : re) (before_rev : str)
         (pv : option Z) (t : str) : option match_obj :=
  match match_at icase r (rev before_rev) pv t with
  | Some mo => Some mo
  | None =>
      match t with
      | [] => None
      | c :: t' => search_from icase r (c :: before_rev) (Some c) t'
      end
  end.

(** [re.search(r, t)] *)
Definition re_search (icase : bool) (r : re) (t : str) : option match_obj :=
  search_from icase r [] None t.

(** [re.sub(r, repl, t)] and [re.findall(r, t)], for a pattern without
    groups in [repl] or [r].  After an empty match the scan moves on by
    one character, and stops at the end of the text; none of the patterns
    of the source matches the empty text. *)
Fixpoint sub_from (fuel : nat) (r : re) (repl : str) (pv : option Z)
         (t : str) : str :=
  match fuel with
  | O => t
  | S fuel' =>
      match search_from false r [] pv t with
      | None => t
      | Some mo =>
          m_before mo ++ repl ++
          match m_text mo, m_after mo with
          | [], c :: t' => c :: sub_from fuel' r repl (Some c) t'
          | [], [] => []
          | _ :: _, after => sub_from fuel' r repl (m_prev mo) after
          end
      end
  end.

Definition re_sub (r : re) (repl : str) (t : str) : str :=
  sub_from (S (length t)) r repl None t.

Fixpoint findall_from (fuel : nat) (r : re) (pv : option Z) (t : str)
  : list str :=
  match fuel with
  | O => []
  | S fuel' =>
      match search_from false r [] pv t with
      | None => []
      | Some mo =>
          m_text mo ::
          match m_text mo, m_after mo with
          | [], c :: t' => findall_from fuel' r (Some c) t'
          | [], [] => []
          | _ :: _, after => findall_from fuel' r (m_prev mo) after
          end
      end
  end.

Definition re_findall (r : re) (t : str) : list str :=
  findall_from (S (length t)) r None t.

(** [int(t)] for the text of a group matched by [\d{...}]: decimal
    digits only.  [ValueError] on anything else. *)
Fixpoint int_loop (acc : Z) (t : str) : result Z :=
  match t with
  | [] => Ok acc
  | c :: t' =>
      match decimal db c with
      | Some v => int_loop (acc * 10 + v) t'
      | None => Raise (ValueError (s "invalid literal for int()"))
      end
  end.

Definition py_int (t : str) : result Z :=
  match t with
  | [] => Raise (ValueError (s "invalid literal for int()"))
  | _ => int_loop 0 t
  end.
End Regex.



(** ** Page fetches

    A computation that fetches pages threads the list of the URLs requested
    so far; an exception leaves that list as it is. *)

Definition io (A : Type) : Type := list str -> result A * list str.

Definition io_ret {A : Type} (a : A) : io A := fun log => (Ok a, log).

Definition io_bind {A B : Type} (c : io A) (k : A -> io B) : io B :=
  fun log =>
    match c log with
    | (Ok a, log') => k a log'
    | (Raise e, log') => (Raise e, log')
    end.

(** A computation without fetches. *)
Definition io_lift {A : Type} (r : result A) : io A := fun log => (r, log).

(** [try: c  except Exception: ...] *)
Definition io_try {A : Type} (c : io A) : io (option A) :=
  fun log =>
    match c log with
    | (Ok a, log') => (Ok (Some a), log')
    | (Raise _, log') => (Ok None, log')
    end.

Notation "x <~ c ;; k" := (io_bind c (fun x => k))
  (at level 61, c at next level, right associativity).

(** ** The source *)

Definition ACADEMIC_BASE : str :=
  s "https://preview.memphis.edu/registrar/calendars/academic".
Definition DATES_BASE : str :=
  s "https://preview.memphis.edu/registrar/calendars/dates".

Definition newline : str := [10].

Fixpoint find_index {A : Type} (p : A -> bool) (l : list A) : option nat :=
  match l with
  | [] => None
  | x :: l' => if p x then Some O else option_map S (find_index p l')
  end.

(** [l[a:b]] for [a <= b <= len(l)] *)
Definition slice {A : Type} (a b : nat) (l : list A) : list A :=
  firstn (b - a) (skipn a l).

Definition nonempty (t : str) : bool :=
  match t with [] => false | _ :: _ => true end.

(** The truth value of an [Optional[str]]. *)
Definition truthy (o : option str) : bool :=
  match o with Some t => nonempty t | None => false end.

(** [Month D-D, YYYY], the body of the two patterns of [parse_range] and of
    case C of the deadline extractor. *)
Definition single_month_items : list re :=
  [Grp (plus alpha); plus CSpace; Grp (between CDigit 1 2); star CSpace;
   Lit (ch "-"); star CSpace; Grp (between CDigit 1 2); Lit (ch ",");
   star CSpace; Grp (between CDigit 4 4)].

(** [^([A-Za-z]+)\s+(\d{1,2})\s*-\s*(\d{1,2}),\s*(\d{4})$] *)
Definition pat_range_exact : re := cat (Bol :: single_month_items ++ [Eol]).

(** [^([A-Za-z]+)\s+(\d{1,2})\s*-\s*(\d{1,2}),\s*(\d{4}).*$] *)
Definition pat_range_suffix : re :=
  cat (Bol :: single_month_items ++ [star CDot; Eol]).

(** [\b(Summer|Fall|Spring)\s+\d{4}\b] *)
Definition pat_term_heading : re :=
  cat [Wb; Grp (Alt (lits (s "Summer")) (Alt (lits (s "Fall")) (lits (s "Spring"))));
       plus CSpace; between CDigit 4 4; Wb].

(** [\bSpring\s+\d{4}\b] *)
Definition pat_spring_heading : re :=
  cat [Wb; lits (s "Spring"); plus CSpace; between CDigit 4 4; Wb].

(** [{re.escape(label)}\s*:\s*([A-Za-z]+\s+\d{1,2},\s+\d{4})] *)
Definition pat_bullet_date (label : str) : re :=
  cat [lits label; star CSpace; Lit (ch ":"); star CSpace;
       Grp (cat [plus alpha; plus CSpace; between CDigit 1 2; Lit (ch ",");
                 plus CSpace; between CDigit 4 4])].

(** [{re.escape(label)}\s*:\s*([A-Za-z]+\s+\d{1,2}\s*[-–]\s*\d{1,2},\s*\d{4})] *)
Definition pat_bullet_range (label : str) : re :=
  cat [lits label; star CSpace; Lit (ch ":"); star CSpace;
       Grp (cat [plus alpha; plus CSpace; between CDigit 1 2; star CSpace;
                 Cls (CUnion (CChar (ch "-")) (CChar en_dash)); star CSpace;
                 between CDigit 1 2; Lit (ch ","); star CSpace;
                 between CDigit 4 4])].

(** [^[\s\-\*•·]+] *)
Definition pat_bullets : re :=
  cat [Bol; plus (CUnion CSpace (CUnion (CChar (ch "-")) (CUnion (CChar (ch "*"))
                 (CUnion (CChar 8226) (CChar 183)))))].

Definition pat_drop_period : re := lits (s "Drop Period").
Definition pat_withdrawal_period : re := lits (s "Withdrawal Period").

(** [^FULL\b] *)
Definition pat_full : re := cat [Bol; lits (s "FULL"); Wb].

(** [^[\s\-–:]+] *)
Definition pat_separators : re :=
  cat [Bol; plus (CUnion CSpace (CUnion (CChar (ch "-"))
                 (CUnion (CChar en_dash) (CChar (ch ":")))))].

(** [[A-Za-z]+\s+\d{1,2},\s*\d{4}] *)
Definition pat_month_day_year : re :=
  cat [plus alpha; plus CSpace; between CDigit 1 2; Lit (ch ","); star CSpace;
       between CDigit 4 4].

(** [([A-Za-z]+)\s+(\d{1,2})\s*-\s*([A-Za-z]+)\s+(\d{1,2}),\s*(\d{4})] *)
Definition pat_two_months : re :=
  cat [Grp (plus alpha); plus CSpace; Grp (between CDigit 1 2); star CSpace;
       Lit (ch "-"); star CSpace; Grp (plus alpha); plus CSpace;
       Grp (between CDigit 1 2); Lit (ch ","); star CSpace;
       Grp (between CDigit 4 4)].

(** [([A-Za-z]+)\s+(\d{1,2})\s*-\s*(\d{1,2}),\s*(\d{4})] *)
Definition pat_one_month : re := cat single_month_items.

Definition subsection_headers : list str :=
  [s "All Parts of Term"; s "Winter Intersession"; s "Full Part of Term";
   s "1st Half Part of Term"; s "2nd Half Part of Term";
   s "Pre Summer Part of Term"; s "Extended Summer Part of Term"].

(** [f"{mon} {d}, {yyyy}"] *)
Definition fmt_mdy (mon : str) (d yyyy : Z) : str :=
  mon ++ s " " ++ str_of_int d ++ s ", " ++ str_of_int yyyy.

(** The state of the loop of [parse_deadlines_drop_withdraw]. *)
Record scan_state : Type := {
  in_drop : bool;
  in_withdraw : bool;
  full_drop_line : option str;
  full_withdraw_line : option str
}.

Definition scan_init : scan_state :=
  {| in_drop := false; in_withdraw := false;
     full_drop_line := None; full_withdraw_line := None |}.

Definition is_none {A : Type} (o : option A) : bool :=
  match o with None => true | Some _ => false end.

(** The dictionary [build_term_events] returns. *)
Record payload : Type := {
  ay_url : str;
  dd_url : str;
  first_day : date;
  last_day : date;
  study_day : option date;
  exams_rng : option DateRange;
  breaks_in_term : list (str * DateRange);
  holidays_in_term : list (str * DateRange);
  last_drop_no_grade : option date;
  last_withdraw_w : option date;
  week_events : list event
}.

Section Core.
Variable db : unicode_db.

(** [dateutil.parser.parse(text, fuzzy=fuzzy).date()].  The first argument
    is the date of the run: the converter is called without a [default]
    and reads the clock for the fields a text leaves out. *)
Variable dateutil_parse : date -> bool -> str -> result date.
Variable today : date.

(** [BeautifulSoup(html, "html.parser").get_text("\n")] *)
Variable html_get_text : str -> str.

(** The page a URL serves; [None] where [requests] raises. *)
Variable pages : str -> option str.

Definition fetch_html (url : str) : io str :=
  fun log =>
    (match pages url with Some html => Ok html | None => Raise FetchError end,
     log ++ [url]).

Definition normalize_whitespace (t : str) : str :=
  strip (re_sub db (plus CSpace) (s " ") t).

Definition parse_month_day_year (text : str) : result date :=
  dateutil_parse today true text.

(** The body shared by the two matching branches of [parse_range]. *)
Definition range_of_groups (mo : match_obj) : result DateRange :=
  let mon := group mo 1 in
  d1 <- py_int db (group mo 2) ;;
  d2 <- py_int db (group mo 3) ;;
  yyyy <- py_int db (group mo 4) ;;
  start <- dateutil_parse today false (fmt_mdy mon d1 yyyy) ;;
  end_ <- dateutil_parse today false (fmt_mdy mon d2 yyyy) ;;
  Ok (mkDateRange start end_).

(** The text [parse_range] matches its patterns against. *)
Definition range_text (text : str) : str :=
  let t := replace_char en_dash (s "-") text in
  normalize_whitespace t.

Definition parse_range (text : str) : result DateRange :=
  let t := range_text text in
  match re_match db false pat_range_exact t with
  | Some mo => range_of_groups mo
  | None =>
      match re_match db false pat_range_suffix t with
      | Some mo => range_of_groups mo
      | None =>
          d <- parse_month_day_year t ;;
          Ok (mkDateRange d d)
      end
  end.

Definition semester_known (semester : str) : bool :=
  str_eqb semester (s "fall") || str_eqb semester (s "spring").

Definition academic_year_slug_for_term (year : Z) (semester : str)
  : result str :=
  let semester := lower db semester in
  if negb (semester_known semester) then
    Raise (ValueError (s "semester must be 'fall' or 'spring'"))
  else
    let fall_year := if str_eqb semester (s "fall") then year else year - 1 in
    let yy := fall_year mod 100 in
    let yy2 := (fall_year + 1) mod 100 in
    Ok (s "ay" ++ fmt_02d yy ++ fmt_02d yy2 ++ s ".php").

Definition candidate_dates_deadlines_urls (year : Z) (semester : str)
  : list str :=
  let semester := lower db semester in
  let yy := year mod 100 in
  let code := if str_eqb semester (s "fall") then s "f" else s "s" in
  [DATES_BASE ++ s "/" ++ semester ++ fmt_02d yy ++ s "-dates.php";
   DATES_BASE ++ s "/" ++ fmt_02d yy ++ code ++ s "-dates.php"].

(** The lines both page readers work on: normalized, empty ones dropped. *)
Definition text_lines (html : str) : list str :=
  filter nonempty (map normalize_whitespace (splitlines (html_get_text html))).

Definition searches (icase : bool) (r : re) (t : str) : bool :=
  match re_search db icase r t with Some _ => true | None => false end.

Definition extract_term_block_text (academic_html : str) (year : Z)
           (semester : str) : result str :=
  let lines := text_lines academic_html in
  let semester := lower db semester in
  if str_eqb semester (s "spring") then
    let key := s "Spring " ++ str_of_int year in
    match find_index (contains key) lines with
    | None =>
        Raise (RuntimeError (s "Could not find '" ++ key ++
                             s "' section on academic-year page."))
    | Some start_idx =>
        let end_idx :=
          match find_index
                  (fun l => searches false pat_term_heading l &&
                            negb (contains key l))
                  (skipn (S start_idx) lines) with
          | Some j => (S start_idx + j)%nat
          | None => length lines
          end in
        Ok (join newline (slice start_idx end_idx lines))
    end
  else
    let key_next_spring := s "Spring " ++ str_of_int (year + 1) in
    let boundary :=
      match find_index (contains key_next_spring) lines with
      | Some i => i
      | None =>
          match find_index (searches false pat_spring_heading) lines with
          | Some i => i
          | None => length lines
          end
      end in
    Ok (join newline (slice 0 boundary lines)).

Definition find_bullet_date (term_text label : str) : result (option date) :=
  match re_search db false (pat_bullet_date label) term_text with
  | None => Ok None
  | Some mo => d <- parse_month_day_year (group mo 1) ;; Ok (Some d)
  end.

Definition find_bullet_range (term_text label : str)
  : result (option DateRange) :=
  match re_search db false (pat_bullet_range label) term_text with
  | None => Ok None
  | Some mo => r <- parse_range (group mo 1) ;; Ok (Some r)
  end.

Fixpoint find_any_labeled_ranges (term_text : str) (labels : list str)
  : result (list (str * DateRange)) :=
  match labels with
  | [] => Ok []
  | lab :: labels' =>
      rng <- find_bullet_range term_text lab ;;
      found <- find_any_labeled_ranges term_text labels' ;;
      Ok (match rng with Some r => (lab, r) :: found | None => found end)
  end.

Definition strip_bullets (t : str) : str :=
  strip (re_sub db pat_bullets [] t).

Definition is_full_line (l : str) : bool :=
  match re_match db false pat_full l with Some _ => true | None => false end.

(** The [for] loop over the lines of the deadlines page; returning the
    state is the [break]. *)
Fixpoint scan (st : scan_state) (lines : list str) : scan_state :=
  match lines with
  | [] => st
  | l :: lines' =>
      if searches true pat_drop_period l then
        scan {| in_drop := true; in_withdraw := false;
                full_drop_line := full_drop_line st;
                full_withdraw_line := full_withdraw_line st |} lines'
      else if searches true pat_withdrawal_period l then
        scan {| in_drop := false; in_withdraw := true;
                full_drop_line := full_drop_line st;
                full_withdraw_line := full_withdraw_line st |} lines'
      else if in_drop st && is_none (full_drop_line st) && is_full_line l then
        scan {| in_drop := in_drop st; in_withdraw := in_withdraw st;
                full_drop_line := Some l;
                full_withdraw_line := full_withdraw_line st |} lines'
      else if in_withdraw st && is_none (full_withdraw_line st)
              && is_full_line l then
        scan {| in_drop := in_drop st; in_withdraw := in_withdraw st;
                full_drop_line := full_drop_line st;
                full_withdraw_line := Some l |} lines'
      else if truthy (full_drop_line st) && truthy (full_withdraw_line st)
      then st
      else scan st lines'
  end.

(** The captured line without its leading [FULL] and separators. *)
Definition full_line_rest (line : str) : str :=
  let rest := strip (re_sub db pat_full [] line) in
  let rest := strip (re_sub db pat_separators [] rest) in
  let rest := replace_char en_dash (s "-") rest in
  normalize_whitespace rest.

Definition extract_end_date_from_full_line (line : option str)
  : result (option date) :=
  if negb (truthy line) then Ok None
  else
    let rest := full_line_rest (match line with Some l => l | None => [] end) in
    match re_fullmatch db pat_month_day_year rest with
    | Some _ => d <- parse_month_day_year rest ;; Ok (Some d)
    | None =>
        match re_fullmatch db pat_two_months rest with
        | Some mo =>
            let end_mon := group mo 3 in
            end_day <- py_int db (group mo 4) ;;
            end_year <- py_int db (group mo 5) ;;
            d <- dateutil_parse today false (fmt_mdy end_mon end_day end_year) ;;
            Ok (Some d)
        | None =>
            match re_fullmatch db pat_one_month rest with
            | Some mo =>
                let mon := group mo 1 in
                end_day <- py_int db (group mo 3) ;;
                end_year <- py_int db (group mo 4) ;;
                d <- dateutil_parse today false (fmt_mdy mon end_day end_year) ;;
                Ok (Some d)
            | None =>
                match re_findall db pat_month_day_year rest with
                | [] => Ok None
                | c :: cs => d <- parse_month_day_year (last (c :: cs) []) ;;
                             Ok (Some d)
                end
            end
        end
    end.

(** The lines the scanner runs over. *)
Definition deadline_lines (dates_html : str) : list str :=
  map strip_bullets (text_lines dates_html).

Definition parse_deadlines_drop_withdraw (dates_html : str)
  : result (option date * option date) :=
  let st := scan scan_init (deadline_lines dates_html) in
  last_drop <- extract_end_date_from_full_line (full_drop_line st) ;;
  last_withdraw <- extract_end_date_from_full_line (full_withdraw_line st) ;;
  Ok (last_drop, last_withdraw).

Definition extract_subsection (block_text header : str) : str :=
  let lines := map strip (filter (fun l => nonempty (strip l))
                                 (splitlines block_text)) in
  match find_index (str_eqb header) lines with
  | None => block_text
  | Some start_idx =>
      let end_idx :=
        match find_index (fun l => existsb (str_eqb l) subsection_headers)
                         (skipn (S start_idx) lines) with
        | Some j => (S start_idx + j)%nat
        | None => length lines
        end in
      join newline (slice start_idx end_idx lines)
  end.

(** The single-day holidays [build_term_events] looks up. *)
Fixpoint find_single_holidays (term_text : str) (labels : list str)
  : result (list (str * date)) :=
  match labels with
  | [] => Ok []
  | lab :: labels' =>
      d <- find_bullet_date term_text lab ;;
      found <- find_single_holidays term_text labels' ;;
      Ok (match d with Some d => (lab, d) :: found | None => found end)
  end.

(** The loop over [candidate_dates_deadlines_urls]: the first URL that
    can be fetched wins. *)
Fixpoint fetch_first (urls : list str) : io (option str * option str) :=
  match urls with
  | [] => io_ret (None, None)
  | u :: urls' =>
      r <~ io_try (fetch_html u) ;;
      match r with
      | Some html => io_ret (Some html, Some u)
      | None => fetch_first urls'
      end
  end.

Definition holidays_of (term_range : DateRange)
           (single_holidays : list (str * date)) : list (str * DateRange) :=
  map (fun ld => (fst ld, mkDateRange (snd ld) (snd ld)))
      (filter (fun ld => contains_day term_range (snd ld)) single_holidays).

Definition breaks_of (term_range : DateRange)
           (breaks : list (str * DateRange)) : list (str * DateRange) :=
  filter (fun lr => intersects (snd lr) term_range) breaks.

(** The blackout ranges handed to the week segmenter. *)
Definition blackouts_of (first_day last_day : date)
           (breaks_in_term holidays_in_term : list (str * DateRange))
  : list DateRange :=
  map (fun lr => clamp (snd lr) first_day last_day) breaks_in_term ++
  map snd holidays_in_term.

Definition break_like_labels : list str :=
  [s "Spring Break"; s "Fall Break"; s "Thanksgiving Holidays"].

Definition build_term_events (year : Z) (semester : str) : io payload :=
  let semester := lower db semester in
  if negb (semester_known semester) then
    io_lift (Raise (ValueError (s "semester must be 'fall' or 'spring'")))
  else
    ay_slug <~ io_lift (academic_year_slug_for_term year semester) ;;
    let ay_url := ACADEMIC_BASE ++ s "/" ++ ay_slug in
    academic_html <~ fetch_html ay_url ;;
    term_text <~ io_lift (extract_term_block_text academic_html year semester) ;;
    let term_text := extract_subsection term_text (s "Full Part of Term") in
    first_day <~ io_lift (find_bullet_date term_text (s "First Day of Classes")) ;;
    last_day <~ io_lift (find_bullet_date term_text (s "Last Day of Classes")) ;;
    study_day <~ io_lift (find_bullet_date term_text (s "Study Day")) ;;
    exams_rng <~ io_lift (find_bullet_range term_text (s "Exams")) ;;
    match first_day, last_day with
    | Some first_day, Some last_day =>
        _ <~ io_lift (find_any_labeled_ranges term_text
                        (break_like_labels ++ [s "Exams"])) ;;
        single_holidays <~ io_lift (find_single_holidays term_text
                        [s "Labor Day"; s "M. L. King, Jr. Holiday"]) ;;
        breaks <~ io_lift (find_any_labeled_ranges term_text break_like_labels) ;;
        dd <~ fetch_first (candidate_dates_deadlines_urls year semester) ;;
        match dd with
        | (Some dd_html, Some dd_url_used) =>
            if nonempty dd_html then
              deadlines <~ io_lift (parse_deadlines_drop_withdraw dd_html) ;;
              let term_range := mkDateRange first_day last_day in
              let holidays_in_term := holidays_of term_range single_holidays in
              let breaks_in_term := breaks_of term_range breaks in
              let blackout_ranges :=
                blackouts_of first_day last_day breaks_in_term holidays_in_term in
              week_events <~ io_lift (instructional_week_events
                                        first_day last_day blackout_ranges) ;;
              io_ret {| ay_url := ay_url; dd_url := dd_url_used;
                        first_day := first_day; last_day := last_day;
                        study_day := study_day; exams_rng := exams_rng;
                        breaks_in_term := breaks_in_term;
                        holidays_in_term := holidays_in_term;
                        last_drop_no_grade := fst deadlines;
                        last_withdraw_w := snd deadlines;
                        week_events := week_events |}
            else
              io_lift (Raise (RuntimeError
                (s "Could not fetch a Dates & Deadlines page for the requested term. Tried: "
                 ++ join (s ", ") (candidate_dates_deadlines_urls year semester))))
        | _ =>
            io_lift (Raise (RuntimeError
              (s "Could not fetch a Dates & Deadlines page for the requested term. Tried: "
               ++ join (s ", ") (candidate_dates_deadlines_urls year semester))))
        end
    | _, _ =>
        io_lift (Raise (RuntimeError
          (s "Could not determine First/Last Day of Classes from academic-year calendar.")))
    end.
End Core.

(** ** Sample collaborators, for the worked examples *)

Definition ascii_lower_char (c : Z) : Z :=
  if (65 <=? c) && (c <=? 90) then c + 32 else c.

(** The ASCII rows of the character database. *)
Definition ascii_db : unicode_db := {|
  decimal := fun c => if (48 <=? c) && (c <=? 57) then Some (c - 48) else None;
  alnum := fun c =>
    ((48 <=? c) && (c <=? 57)) || ((65 <=? c) && (c <=? 90)) ||
    ((97 <=? c) && (c <=? 122));
  ci_eq := fun x c => ascii_lower_char x =? ascii_lower_char c;
  lower := map ascii_lower_char
|}.

Definition month_names : list str :=
  [s "january"; s "february"; s "march"; s "april"; s "may"; s "june";
   s "july"; s "august"; s "september"; s "october"; s "november";
   s "december"].

(** The number of the month a word names, in full or by its first three
    letters, in any case. *)
Fixpoint month_lookup (w : str) (names : list str) (n : Z) : option Z :=
  match names with
  | [] => None
  | name :: names' =>
      if str_eqb w name || str_eqb w (firstn 3 name) then Some n
      else month_lookup w names' (n + 1)
  end.

Definition month_number (w : str) : option Z :=
  month_lookup (map ascii_lower_char w) month_names 1.

(** [\s*([A-Za-z]+)\s+(\d{1,2}),\s*(\d{4})\s*] *)
Definition pat_converter : re :=
  cat [star CSpace; Grp (plus alpha); plus CSpace; Grp (between CDigit 1 2);
       Lit (ch ","); star CSpace; Grp (between CDigit 4 4); star CSpace].

(** Modelled from the spec: the general month/day/year text-to-date
    converter, the external natural-language date parser the source imports
    as [dateutil.parser].  This one reads [Month D, YYYY] with an English
    month name and a day that exists in that month, and refuses every other
    text; it reads neither the clock nor the [fuzzy] flag. *)
Definition month_day_year_converter (today : date) (fuzzy : bool) (text : str)
  : result date :=
  match re_fullmatch ascii_db pat_converter text with
  | None => Raise ParserError
  | Some mo =>
      d <- py_int ascii_db (group mo 2) ;;
      y <- py_int ascii_db (group mo 3) ;;
      match month_number (group mo 1) with
      | None => Raise ParserError
      | Some mn =>
          match mkdate y mn d with
          | Some dt => Ok dt
          | None => Raise ParserError
          end
      end
  end.

(** A markup reduction for pages that are plain text already. *)
Definition plain_text (html : str) : str := html.

(** [lines] joined by newlines, a page of plain text. *)
Definition page (lines : list str) : str := join newline lines.

Definition sample_deadlines_page : str :=
  page [s "Spring 2026 Dates & Deadlines";
        s "FULL - January 1 - January 2, 2026";
        s "Drop Period (no grade assigned)";
        s "1ST  -  January 20 - January 26, 2026";
        s "* FULL  -  January 20 - February 2, 2026";
        s "FULL - January 20 - February 9, 2026";
        s "Withdrawal Period (W grade assigned)";
        s "WIN - December 20 - 29, 2025";
        s "FULL - March 16-29, 2026";
        s "2ND - March 30 - April 20, 2026"].

Definition sample_academic_page : str :=
  page [s "Academic Calendar 2025-2026";
        s "Full Part of Term";
        s "First Day of Classes: August 25, 2025 / Monday";
        s "Labor Day: September 1, 2025 / Monday";
        s "Fall Break: October 11-14, 2025 / Saturday-Tuesday";
        s "Thanksgiving Holidays: November 26-30, 2025 / Wednesday-Sunday";
        s "Last Day of Classes: December 3, 2025 / Wednesday";
        s "Study Day: December 4, 2025 / Thursday";
        s "Exams: December 5-11, 2025 / Friday-Thursday";
        s "Spring 2026";
        s "Full Part of Term";
        s "First Day of Classes: January 20, 2026 / Tuesday"].

(** A site that serves the two sample pages for fall 2025. *)
Definition sample_site (url : str) : option str :=
  if str_eqb url (ACADEMIC_BASE ++ s "/ay2526.php") then Some sample_academic_page
  else if str_eqb url (DATES_BASE ++ s "/25f-dates.php") then Some sample_deadlines_page
  else None.


(** ** A converter that reads the clock *)

(** Modelled from the spec: the general month/day/year text-to-date
    converter, the external natural-language date parser the source imports
    as [dateutil.parser], here with the one trait of that library the
    source's calls leave open: called without a [default], it takes the
    fields a text leaves out from the date of the run.  On [Word N, YYYY]
    with an English month name the model answers day [N] of that month.  A
    word that names no month is refused, unless [fuzzy] is set: then the
    word is skipped, the two numbers are read as month [N] and year [YYYY],
    and the day of the month is that of [today].  Every other text is
    refused. *)
Definition dateutil_model (today : date) (fuzzy : bool) (text : str)
  : result date :=
  match re_fullmatch ascii_db pat_converter text with
  | None => Raise ParserError
  | Some mo =>
      n <- py_int ascii_db (group mo 2) ;;
      y <- py_int ascii_db (group mo 3) ;;
      match month_number (group mo 1) with
      | Some mn =>
          match mkdate y mn n with
          | Some dt => Ok dt
          | None => Raise ParserError
          end
      | None =>
          if fuzzy then
            match mkdate y n (day today) with
            | Some dt => Ok dt
            | None => Raise ParserError
            end
          else Raise ParserError
      end
  end.


(** ** Definitions used to state the properties *)

(** The integers from [lo] to [hi], both included. *)
Definition zrange (lo hi : Z) : list Z :=
  map (fun i => lo + Z.of_nat i) (seq 0 (Z.to_nat (hi - lo + 1))).

(** [ord2md] finds day [d] of month [m], for every day of the month. *)
Definition md_check (leap : bool) (m : Z) : bool :=
  forallb (fun d =>
             implb (d <=? month_length leap m)
                   (let r := ord2md leap (month_offset leap m + d - 1) in
                    (fst r =? m) && (snd r =? d)))
          (zrange 1 31).

(** The instructional days of the week that starts on [mon]: the days of
    the Monday-to-Friday window, clamped to the term, that are weekdays
    and lie in no blackout range. *)
Definition week_days (first_class last_class : date)
           (blackout_ranges : list DateRange) (mon : date) : list date :=
  filter (instructional blackout_ranges)
         (zrange (Z.max mon first_class) (Z.min (mon + 4) last_class)).

(** [k] consecutive Mondays from [mon] on. *)
Fixpoint mondays (k : nat) (mon : date) : list date :=
  match k with
  | O => []
  | S k' => mon :: mondays k' (mon + 7)
  end.

(** The number of weeks from the one that starts on [wk_start] to the one
    that starts on [wk_end_boundary]. *)
Definition week_count (wk_start wk_end_boundary : date) : nat :=
  Z.to_nat ((wk_end_boundary - wk_start) / 7 + 1).

(** The Mondays of the calendar weeks from the one that contains
    [first_class] to the one that contains [last_class]. *)
Definition term_mondays (first_class last_class : date) : list date :=
  mondays (week_count (first_class - weekday first_class)
                      (last_class - weekday last_class))
          (first_class - weekday first_class).

(** The segmentation as the specification words it: a week without an
    instructional day is skipped and does not advance the counter [n]; any
    other week is emitted under the number [n], from its first to its last
    instructional day, short when it has fewer than five of them. *)
Fixpoint label_weeks (n : Z) (weeks : list (list date)) : list event :=
  match weeks with
  | [] => []
  | [] :: weeks' => label_weeks n weeks'
  | (d :: ds) :: weeks' =>
      (week_title n (Z.of_nat (length (d :: ds)) <? 5), d, last (d :: ds) d)
        :: label_weeks (n + 1) weeks'
  end.

Definition term_weeks (first_class last_class : date)
           (blackout_ranges : list DateRange) : list (list date) :=
  map (week_days first_class last_class blackout_ranges)
      (term_mondays first_class last_class).

Definition has_days (w : list date) : bool :=
  match w with [] => false | _ :: _ => true end.

(** [e1] is over before [e2] begins. *)
Definition before (e1 e2 : event) : Prop := event_end e1 < event_start e2.

(** [start <= end], the invariant the specification asks of a range. *)
Definition ordered (r : DateRange) : Prop := start r <= end_ r.

(** An emitted event [e] against the instructional days [w] of its week. *)
Definition covers (e : event) (w : list date) : Prop :=
  event_start e = hd 0 w /\ event_end e = last w 0 /\
  (endswith (title e) (s " (short)") = true <-> (length w < 5)%nat).

(** The date of the examples' runs; no example depends on it. *)
Definition day0 : date := ymd2ord 2026 11 3.

(** The states of the deadline scanner, as the specification names them. *)
Inductive section : Type := Neither | InDrop | InWithdraw.

Definition section_eqb (a b : section) : bool :=
  match a, b with
  | Neither, Neither | InDrop, InDrop | InWithdraw, InWithdraw => true
  | _, _ => false
  end.

(** The section a header line opens; [Drop Period] is looked for first. *)
Definition header_of (db : unicode_db) (l : str) : option section :=
  if searches db true pat_drop_period l then Some InDrop
  else if searches db true pat_withdrawal_period l then Some InWithdraw
  else None.

(** The section in force after the lines [pre], starting from [cur]. *)
Definition section_after (db : unicode_db) (cur : section) (pre : list str)
  : section :=
  fold_left (fun c l => match header_of db l with Some h => h | None => c end)
            pre cur.

(** The scanner as the specification words it, one section at a time: the
    first line that starts with the token [FULL] while [target] is the
    current section. *)
Fixpoint first_full (db : unicode_db) (target cur : section) (lines : list str)
  : option str :=
  match lines with
  | [] => None
  | l :: lines' =>
      match header_of db l with
      | Some h => first_full db target h lines'
      | None =>
          if section_eqb cur target && is_full_line db l then Some l
          else first_full db target cur lines'
      end
  end.

(** Line [i] is a full-session line of section [target]: it is no header,
    it starts with the token [FULL], and [target] is the section in force
    when the scan, started in section [cur], reaches it. *)
Definition candidate (db : unicode_db) (target cur : section)
           (lines : list str) (i : nat) : Prop :=
  exists l, nth_error lines i = Some l /\
            header_of db l = None /\ is_full_line db l = true /\
            section_after db cur (firstn i lines) = target.

(** The section the two flags of the scanner stand for. *)
Definition section_of (st : scan_state) : section :=
  if in_drop st then InDrop else if in_withdraw st then InWithdraw else Neither.

(** The message of the section-not-found error for a spring term. *)
Definition spring_not_found (year : Z) : exn :=
  RuntimeError (s "Could not find '" ++ (s "Spring " ++ str_of_int year) ++
                s "' section on academic-year page.").

Definition bad_semester : exn :=
  ValueError (s "semester must be 'fall' or 'spring'").

(** The pages a run for [year] and [semester] may ask for: the academic
    year page and the two shapes of the deadlines page. *)
Definition term_urls (db : unicode_db) (year : Z) (semester : str) : list str :=
  match academic_year_slug_for_term db year (lower db semester) with
  | Ok ay_slug => [ACADEMIC_BASE ++ s "/" ++ ay_slug]
  | Raise _ => []
  end ++ candidate_dates_deadlines_urls db year (lower db semester).

(** A computation only adds to the list of requested URLs. *)
Definition appends {A : Type} (c : io A) : Prop :=
  forall log, exists more, snd (c log) = log ++ more.



(** Every character of [t] is in the set [p]. *)
Definition all_in (db : unicode_db) (p : charset) (t : str) : Prop :=
  Forall (fun c => in_cls db p c = true) t.

(** [t] does not go on with a character of [p]. *)
Definition stops (db : unicode_db) (p : charset) (t : str) : Prop :=
  match t with
  | [] => True
  | c :: _ => in_cls db p c = false
  end.

(** The character before the position reached after [run]. *)
Definition last_char (run : str) (pv : option Z) : option Z :=
  last (map Some run) pv.

(** The Unicode rows the grammar lemmas rely on: no decimal digit is a
    whitespace character, an ASCII letter, a hyphen or a comma. *)
Definition digits_apart (db : unicode_db) : Prop :=
  forall c, is_digit db c = true ->
            is_space c = false /\ in_cls db alpha c = false /\
            c <> 45 /\ c <> 44.

(** The segments the date patterns are made of: a month word and the
    whitespace after it, with and without a group; a day and the hyphen
    after it; a day, the comma and the year, with and without groups. *)
Definition seg_word : list re := [Grp (plus alpha); plus CSpace].
Definition seg_word_plain : list re := [plus alpha; plus CSpace].
Definition seg_day_hyphen : list re :=
  [Grp (between CDigit 1 2); star CSpace; Lit (ch "-"); star CSpace].
Definition seg_day_year : list re :=
  [Grp (between CDigit 1 2); Lit (ch ","); star CSpace; Grp (between CDigit 4 4)].
Definition seg_day_year_plain : list re :=
  [between CDigit 1 2; Lit (ch ","); star CSpace; between CDigit 4 4].

(** A continuation that fails on every text that starts with a character
    of [p], and one that does so on every text that does not start with
    one. *)
Definition fails_on (db : unicode_db) (A : Type) (p : charset)
           (k : option Z -> str -> list str -> option A) : Prop :=
  forall pv c t caps, in_cls db p c = true -> k pv (c :: t) caps = None.

(** The pieces of a text [Month D-D, YYYY]: the month word, the two day
    numbers and the year, and the whitespace between them. *)
Record month_days : Type := {
  md_mon : str; md_ws1 : str; md_d1 : str; md_ws2 : str; md_ws3 : str;
  md_d2 : str; md_ws4 : str; md_yyyy : str
}.

Definition md_text (x : month_days) : str :=
  md_mon x ++ md_ws1 x ++ md_d1 x ++ md_ws2 x ++ [45] ++ md_ws3 x ++
  md_d2 x ++ [44] ++ md_ws4 x ++ md_yyyy x.

(** The month is a word of one or more ASCII letters, followed by
    whitespace; the days have one or two digits, the year has four; the
    whitespace around the hyphen and after the comma is optional. *)
Definition md_wf (db : unicode_db) (x : month_days) : Prop :=
  md_mon x <> [] /\ all_in db alpha (md_mon x) /\
  md_ws1 x <> [] /\ all_in db CSpace (md_ws1 x) /\
  all_in db CDigit (md_d1 x) /\ (1 <= length (md_d1 x) <= 2)%nat /\
  all_in db CSpace (md_ws2 x) /\ all_in db CSpace (md_ws3 x) /\
  all_in db CDigit (md_d2 x) /\ (1 <= length (md_d2 x) <= 2)%nat /\
  all_in db CSpace (md_ws4 x) /\
  all_in db CDigit (md_yyyy x) /\ length (md_yyyy x) = 4%nat.

Definition md_groups (x : month_days) : list str :=
  [md_mon x; md_d1 x; md_d2 x; md_yyyy x].

(** The pieces of a text [Month D - Month D, YYYY]. *)
Record month_span : Type := {
  ms_mon1 : str; ms_ws1 : str; ms_d1 : str; ms_ws2 : str; ms_ws3 : str;
  ms_mon2 : str; ms_ws4 : str; ms_d2 : str; ms_ws5 : str; ms_yyyy : str
}.

Definition ms_text (x : month_span) : str :=
  ms_mon1 x ++ ms_ws1 x ++ ms_d1 x ++ ms_ws2 x ++ [45] ++ ms_ws3 x ++
  ms_mon2 x ++ ms_ws4 x ++ ms_d2 x ++ [44] ++ ms_ws5 x ++ ms_yyyy x.

Definition ms_wf (db : unicode_db) (x : month_span) : Prop :=
  ms_mon1 x <> [] /\ all_in db alpha (ms_mon1 x) /\
  ms_ws1 x <> [] /\ all_in db CSpace (ms_ws1 x) /\
  all_in db CDigit (ms_d1 x) /\ (1 <= length (ms_d1 x) <= 2)%nat /\
  all_in db CSpace (ms_ws2 x) /\ all_in db CSpace (ms_ws3 x) /\
  ms_mon2 x <> [] /\ all_in db alpha (ms_mon2 x) /\
  ms_ws4 x <> [] /\ all_in db CSpace (ms_ws4 x) /\
  all_in db CDigit (ms_d2 x) /\ (1 <= length (ms_d2 x) <= 2)%nat /\
  all_in db CSpace (ms_ws5 x) /\
  all_in db CDigit (ms_yyyy x) /\ length (ms_yyyy x) = 4%nat.

Definition ms_groups (x : month_span) : list str :=
  [ms_mon1 x; ms_d1 x; ms_mon2 x; ms_d2 x; ms_yyyy x].

(** The pieces of a text [Month D, YYYY]. *)
Record month_day : Type := {
  bd_mon : str; bd_ws1 : str; bd_d : str; bd_ws2 : str; bd_yyyy : str
}.

Definition bd_text (x : month_day) : str :=
  bd_mon x ++ bd_ws1 x ++ bd_d x ++ [44] ++ bd_ws2 x ++ bd_yyyy x.

Definition bd_wf (db : unicode_db) (x : month_day) : Prop :=
  bd_mon x <> [] /\ all_in db alpha (bd_mon x) /\
  bd_ws1 x <> [] /\ all_in db CSpace (bd_ws1 x) /\
  all_in db CDigit (bd_d x) /\ (1 <= length (bd_d x) <= 2)%nat /\
  all_in db CSpace (bd_ws2 x) /\
  all_in db CDigit (bd_yyyy x) /\ length (bd_yyyy x) = 4%nat.

(** A character of a normalized text: no whitespace but the plain space. *)
Definition tidy (c : Z) : Prop := is_space c = false \/ c = 32.

(** The texts of the worked examples, cut into their pieces. *)
Definition october_11_14 : month_days :=
  {| md_mon := s "October"; md_ws1 := s " "; md_d1 := s "11"; md_ws2 := [];
     md_ws3 := []; md_d2 := s "14"; md_ws4 := s " "; md_yyyy := s "2025" |}.

Definition march_16_29 : month_days :=
  {| md_mon := s "March"; md_ws1 := s " "; md_d1 := s "16"; md_ws2 := [];
     md_ws3 := []; md_d2 := s "29"; md_ws4 := s " "; md_yyyy := s "2026" |}.

Definition january_20_february_2 : month_span :=
  {| ms_mon1 := s "January"; ms_ws1 := s " "; ms_d1 := s "20"; ms_ws2 := s " ";
     ms_ws3 := s " "; ms_mon2 := s "February"; ms_ws4 := s " "; ms_d2 := s "2";
     ms_ws5 := s " "; ms_yyyy := s "2026" |}.

(** The number a text of ASCII digits starts with, read onto [acc]. *)
Fixpoint read_digits (acc : Z) (t : str) : Z :=
  match t with
  | c :: t' =>
      if (48 <=? c) && (c <=? 57) then read_digits (acc * 10 + (c - 48)) t'
      else acc
  | [] => acc
  end.

(** The week number a title carries, read back from its text. *)
Definition title_number (t : str) : Z := read_digits 0 (skipn 5 t).

(** [re.sub(r"\s+", " ", t)] as a pass over the text: [in_run] tells
    whether the character before was whitespace. *)
Fixpoint squeeze (in_run : bool) (t : str) : str :=
  match t with
  | [] => []
  | c :: t' =>
      if is_space c then
        if in_run then squeeze true t' else 32 :: squeeze true t'
      else c :: squeeze false t'
  end.

(** A text whose only whitespace is single plain spaces; [prev] tells
    whether the character before was one. *)
Fixpoint spaced (prev : bool) (t : str) : bool :=
  match t with
  | [] => true
  | c :: t' =>
      if is_space c then (c =? 32) && negb prev && spaced true t'
      else spaced false t'
  end.
(** The elements of [l] before the first one that satisfies [q]. *)
Fixpoint take_until {A : Type} (q : A -> bool) (l : list A) : list A :=
  match l with
  | [] => []
  | x :: l' => if q x then [] else x :: take_until q l'
  end.

(** The lines [extract_subsection] works on: those of the block that are
    not blank, stripped. *)
Definition block_lines (block_text : str) : list str :=
  map strip (filter (fun l => nonempty (strip l)) (splitlines block_text)).

Definition is_subsection_header (l : str) : bool :=
  existsb (str_eqb l) subsection_headers.

(** A line as the page readers keep it: not empty, without a line break,
    without whitespace at its ends. *)
Definition clean_line (l : str) : Prop :=
  l <> [] /\ Forall (fun c => is_linebreak c = false) l /\ strip l = l.
(** A line that holds the heading of a term other than the one named by
    [key]: where the block of a spring term ends. *)
Definition other_term_heading (db : unicode_db) (key l : str) : bool :=
  searches db false pat_term_heading l && negb (contains key l).
(** The text of a range [Month D1-D2, YYYY] cut into its pieces, written
    with the dash [dash]: a hyphen or an en dash. *)
Definition md_text_dash (dash : Z) (x : month_days) : str :=
  md_mon x ++ md_ws1 x ++ md_d1 x ++ md_ws2 x ++ [dash] ++ md_ws3 x ++
  md_d2 x ++ [44] ++ md_ws4 x ++ md_yyyy x.

(** The date and the range of the worked examples for the bullet readers,
    cut into their pieces. *)
Definition august_25 : month_day :=
  {| bd_mon := s "August"; bd_ws1 := s " "; bd_d := s "25"; bd_ws2 := s " ";
     bd_yyyy := s "2025" |}.

Definition november_26_30 : month_days :=
  {| md_mon := s "November"; md_ws1 := s " "; md_d1 := s "26"; md_ws2 := [];
     md_ws3 := []; md_d2 := s "30"; md_ws4 := s " "; md_yyyy := s "2025" |}.

(** The error of a run that found no deadlines page. *)
Definition no_deadlines_page (db : unicode_db) (year : Z) (semester : str)
  : exn :=
  RuntimeError
    (s "Could not fetch a Dates & Deadlines page for the requested term. Tried: "
     ++ join (s ", ")
             (candidate_dates_deadlines_urls db year (lower db semester))).
(** * Properties *)

(** ** The calendar *)

Lemma in_zrange lo hi z : In z (zrange lo hi) <-> lo <= z <= hi.
Proof.
  unfold zrange. rewrite in_map_iff. split.
  - intros [i [<- Hi]]. apply in_seq in Hi. lia.
  - intros H. exists (Z.to_nat (z - lo)). split; [lia|].
    apply in_seq. lia.
Qed.

Lemma forallb_zrange (P : Z -> bool) lo hi :
  forallb P (zrange lo hi) = true -> forall z, lo <= z <= hi -> P z = true.
Proof.
  intros H z Hz. rewrite forallb_forall in H. apply H, in_zrange, Hz.
Qed.

Lemma div_eq n d q r : 0 <= r < d -> n = d * q + r -> n / d = q.
Proof. intros Hr ->. symmetry. apply Z.div_unique with r; lia. Qed.

Lemma mod_eq n d q r : 0 <= r < d -> n = d * q + r -> n mod d = r.
Proof. intros Hr ->. symmetry. apply Z.mod_unique with q; lia. Qed.

Lemma md_check_all :
  forallb (fun m => md_check true m && md_check false m) (zrange 1 12) = true.
Proof. vm_compute. reflexivity. Qed.

Lemma month_length_le leap m : month_length leap m <= 31.
Proof.
  unfold month_length. destruct (m =? 2); [destruct leap; lia|].
  destruct ((m =? 4) || (m =? 6) || (m =? 9) || (m =? 11)); lia.
Qed.

Lemma ord2md_month leap m d :
  1 <= m <= 12 -> 1 <= d <= month_length leap m ->
  ord2md leap (month_offset leap m + d - 1) = (m, d).
Proof.
  intros Hm [Hd1 Hd2].
  pose proof (month_length_le leap m) as Hle.
  pose proof (forallb_zrange _ _ _ md_check_all m Hm) as Hc.
  apply andb_true_iff in Hc.
  assert (Hl : md_check leap m = true) by (destruct leap; tauto).
  unfold md_check in Hl.
  pose proof (forallb_zrange _ _ _ Hl d ltac:(lia)) as H. cbv beta zeta in H.
  apply Z.leb_le in Hd2. rewrite Hd2 in H. simpl implb in H.
  apply andb_true_iff in H. destruct H as [H1 H2].
  apply Z.eqb_eq in H1, H2.
  destruct (ord2md leap _) as [a b]. simpl in *. congruence.
Qed.

Lemma valid_ymd_iff y m d :
  valid_ymd y m d = true <->
  1 <= y <= 9999 /\ 1 <= m <= 12 /\ 1 <= d <= days_in_month y m.
Proof. unfold valid_ymd. rewrite !andb_true_iff, !Z.leb_le. lia. Qed.

(** The year [400 a + 100 b + 4 c + e + 1]. *)
Lemma year_split y :
  1 <= y ->
  exists a b c e,
    y = 400 * a + 100 * b + 4 * c + e + 1 /\
    0 <= a /\ 0 <= b < 4 /\ 0 <= c < 25 /\ 0 <= e < 4.
Proof.
  intros Hy.
  exists ((y - 1) / 400), ((y - 1) mod 400 / 100),
         ((y - 1) mod 100 / 4), ((y - 1) mod 4).
  Z.to_euclidean_division_equations. lia.
Qed.

Lemma days_before_year_split a b c e :
  0 <= a -> 0 <= b < 4 -> 0 <= c < 25 -> 0 <= e < 4 ->
  days_before_year (400 * a + 100 * b + 4 * c + e + 1) =
  146097 * a + 36524 * b + 1461 * c + 365 * e.
Proof.
  intros Ha Hb Hc He. unfold days_before_year. cbv zeta.
  replace (400 * a + 100 * b + 4 * c + e + 1 - 1)
    with (400 * a + 100 * b + 4 * c + e) by lia.
  rewrite (div_eq _ 4 (100 * a + 25 * b + c) e) by lia.
  rewrite (div_eq _ 100 (4 * a + b) (4 * c + e)) by lia.
  rewrite (div_eq _ 400 a (100 * b + 4 * c + e)) by lia.
  lia.
Qed.

Lemma is_leap_split a b c e :
  0 <= a -> 0 <= b < 4 -> 0 <= c < 25 -> 0 <= e < 4 ->
  is_leap (400 * a + 100 * b + 4 * c + e + 1) =
  (e =? 3) && (negb (c =? 24) || (b =? 3)).
Proof.
  intros Ha Hb Hc He. unfold is_leap.
  assert (H4 : (400 * a + 100 * b + 4 * c + e + 1) mod 4 = (e + 1) mod 4).
  { replace (400 * a + 100 * b + 4 * c + e + 1)
      with (e + 1 + (100 * a + 25 * b + c) * 4) by lia.
    apply Z.mod_add. lia. }
  assert (H100 : (400 * a + 100 * b + 4 * c + e + 1) mod 100 =
                 (4 * c + e + 1) mod 100).
  { replace (400 * a + 100 * b + 4 * c + e + 1)
      with (4 * c + e + 1 + (4 * a + b) * 100) by lia.
    apply Z.mod_add. lia. }
  assert (H400 : (400 * a + 100 * b + 4 * c + e + 1) mod 400 =
                 (100 * b + 4 * c + e + 1) mod 400).
  { replace (400 * a + 100 * b + 4 * c + e + 1)
      with (100 * b + 4 * c + e + 1 + a * 400) by lia.
    apply Z.mod_add. lia. }
  rewrite H4, H100, H400. clear H4 H100 H400.
  destruct (Z.eqb_spec e 3) as [->|He3].
  - change ((3 + 1) mod 4) with 0. change (0 =? 0) with true. cbv beta iota.
    destruct (Z.eqb_spec c 24) as [->|Hc24].
    + change ((4 * 24 + 3 + 1) mod 100) with 0. change (0 =? 0) with true.
      destruct (Z.eqb_spec b 3) as [->|Hb3]; [reflexivity|].
      assert (Hm : (100 * b + 4 * 24 + 3 + 1) mod 400 = 100 * b + 100).
      { apply (mod_eq _ 400 0); lia. }
      rewrite Hm. cbn [andb orb negb]. apply Z.eqb_neq. lia.
    + assert (Hm : (4 * c + 3 + 1) mod 100 = 4 * c + 4).
      { apply (mod_eq _ 100 0); lia. }
      rewrite Hm.
      replace (4 * c + 4 =? 0) with false by (symmetry; apply Z.eqb_neq; lia).
      reflexivity.
  - assert (Hm : (e + 1) mod 4 = e + 1) by (apply (mod_eq _ 4 0); lia).
    rewrite Hm.
    replace (e + 1 =? 0) with false by (symmetry; apply Z.eqb_neq; lia).
    reflexivity.
Qed.

Lemma month_offset_range leap m d :
  1 <= m <= 12 -> 1 <= d <= month_length leap m ->
  0 <= month_offset leap m + d - 1 <= 364 + (if leap then 1 else 0).
Proof.
  intros Hm Hd.
  assert (m = 1 \/ m = 2 \/ m = 3 \/ m = 4 \/ m = 5 \/ m = 6 \/ m = 7 \/
          m = 8 \/ m = 9 \/ m = 10 \/ m = 11 \/ m = 12)
    as [E|[E|[E|[E|[E|[E|[E|[E|[E|[E|[E|E]]]]]]]]]]] by lia;
    subst m; destruct leap;
    match goal with
    | |- context [month_offset ?l ?m] =>
        let v := eval vm_compute in (month_offset l m) in
        change (month_offset l m) with v
    end;
    match type of Hd with
    | context [month_length ?l ?m] =>
        let v := eval vm_compute in (month_length l m) in
        change (month_length l m) with v in Hd
    end; lia.
Qed.

Lemma ord2ymd_ymd2ord y m d :
  valid_ymd y m d = true -> ord2ymd (ymd2ord y m d) = (y, m, d).
Proof.
  intros Hv. apply valid_ymd_iff in Hv. destruct Hv as [Hy [Hm Hd]].
  destruct (year_split y ltac:(lia)) as [a [b [c [e [E [Ha [Hb [Hc He]]]]]]]].
  unfold days_in_month in Hd.
  pose proof (ord2md_month (is_leap y) m d Hm Hd) as Hmd.
  pose proof (month_offset_range (is_leap y) m d Hm Hd) as Hr.
  unfold ymd2ord, days_before_month.
  replace (days_before_year y + month_offset (is_leap y) m + d)
    with (days_before_year y + (month_offset (is_leap y) m + d - 1) + 1) by lia.
  revert Hmd Hr. generalize (month_offset (is_leap y) m + d - 1). intros r Hmd Hr.
  clear Hd. subst y.
  rewrite days_before_year_split by lia.
  rewrite is_leap_split in Hmd, Hr by lia.
  unfold ord2ymd. cbv zeta.
  replace (146097 * a + 36524 * b + 1461 * c + 365 * e + r + 1 - 1)
    with (146097 * a + 36524 * b + 1461 * c + 365 * e + r) by lia.
  set (n0 := 146097 * a + 36524 * b + 1461 * c + 365 * e + r).
  destruct (Z.eq_dec r 365) as [Hr365|Hr365].
  - (* the last day of a leap year *)
    subst r.
    destruct (Z.eqb_spec e 3) as [He3|He3]; [|simpl in Hr; lia].
    subst e.
    destruct (Z.eqb_spec c 24) as [Hc24|Hc24].
    + subst c. destruct (Z.eqb_spec b 3) as [Hb3|Hb3]; [|simpl in Hr; lia].
      subst b. cbn [andb orb negb] in Hmd.
      change (ord2md true 365) with (12, 31) in Hmd. inversion Hmd; subst m d.
      rewrite (div_eq n0 146097 a 146096) by (unfold n0; lia).
      rewrite (mod_eq n0 146097 a 146096) by (unfold n0; lia).
      change (146096 / 36524) with 4.
      change (4 =? 4) with true. rewrite orb_true_r.
      change (146096 mod 36524) with 0.
      change (0 / 1461) with 0. change (0 mod 1461) with 0.
      change (0 / 365) with 0.
      f_equal. f_equal. lia.
    + cbn [andb orb negb] in Hmd.
      change (ord2md true 365) with (12, 31) in Hmd. inversion Hmd; subst m d.
      rewrite (div_eq n0 146097 a (36524 * b + 1461 * c + 1460))
        by (unfold n0; lia).
      rewrite (mod_eq n0 146097 a (36524 * b + 1461 * c + 1460))
        by (unfold n0; lia).
      rewrite (div_eq _ 36524 b (1461 * c + 1460)) by lia.
      rewrite (mod_eq _ 36524 b (1461 * c + 1460)) by lia.
      rewrite (div_eq _ 1461 c 1460) by lia.
      rewrite (mod_eq _ 1461 c 1460) by lia.
      change (1460 / 365) with 4. change (4 =? 4) with true.
      cbn [orb]. f_equal. f_equal. lia.
  - assert (Hr' : 0 <= r <= 364).
    { destruct ((e =? 3) && (negb (c =? 24) || (b =? 3))); lia. }
    rewrite (div_eq n0 146097 a (36524 * b + 1461 * c + 365 * e + r))
      by (unfold n0; lia).
    rewrite (mod_eq n0 146097 a (36524 * b + 1461 * c + 365 * e + r))
      by (unfold n0; lia).
    rewrite (div_eq _ 36524 b (1461 * c + 365 * e + r)) by lia.
    rewrite (mod_eq _ 36524 b (1461 * c + 365 * e + r)) by lia.
    rewrite (div_eq _ 1461 c (365 * e + r)) by lia.
    rewrite (mod_eq _ 1461 c (365 * e + r)) by lia.
    rewrite (div_eq _ 365 e r) by lia.
    rewrite (mod_eq _ 365 e r) by lia.
    replace (e =? 4) with false by (symmetry; apply Z.eqb_neq; lia).
    replace (b =? 4) with false by (symmetry; apply Z.eqb_neq; lia).
    cbn [orb]. rewrite Hmd. cbn [fst snd]. f_equal. f_equal. lia.
Qed.

Lemma year_ymd2ord y m d : valid_ymd y m d = true -> year (ymd2ord y m d) = y.
Proof. intros H. unfold year. rewrite ord2ymd_ymd2ord by assumption. reflexivity. Qed.

Lemma month_ymd2ord y m d : valid_ymd y m d = true -> month (ymd2ord y m d) = m.
Proof. intros H. unfold month. rewrite ord2ymd_ymd2ord by assumption. reflexivity. Qed.

Lemma day_ymd2ord y m d : valid_ymd y m d = true -> day (ymd2ord y m d) = d.
Proof. intros H. unfold day. rewrite ord2ymd_ymd2ord by assumption. reflexivity. Qed.
(** ** The week segmenter *)

Lemma zrange_nil lo hi : hi < lo -> zrange lo hi = [].
Proof.
  intros H. unfold zrange. replace (Z.to_nat (hi - lo + 1)) with O by lia.
  reflexivity.
Qed.

Lemma zrange_cons lo hi : lo <= hi -> zrange lo hi = lo :: zrange (lo + 1) hi.
Proof.
  intros H. unfold zrange.
  replace (Z.to_nat (hi - lo + 1)) with (S (Z.to_nat (hi - (lo + 1) + 1))) by lia.
  simpl. f_equal; [lia|].
  rewrite <- seq_shift, map_map. apply map_ext. intros i. lia.
Qed.

Lemma zrange_length lo hi : Z.of_nat (length (zrange lo hi)) = Z.max 0 (hi - lo + 1).
Proof. unfold zrange. rewrite length_map, length_seq. lia. Qed.

Lemma add_days_ok d n x : add_days d n = Ok x -> x = d + n /\ 0 < d + n <= MAXORDINAL.
Proof.
  unfold add_days. cbv zeta.
  destruct ((0 <? d + n) && (d + n <=? MAXORDINAL)) eqn:E; [|discriminate].
  intros [= <-]. apply andb_true_iff in E. lia.
Qed.

Lemma add_days_in_range d n :
  0 < d + n <= MAXORDINAL -> add_days d n = Ok (d + n).
Proof.
  intros H. unfold add_days. cbv zeta.
  replace ((0 <? d + n) && (d + n <=? MAXORDINAL)) with true; [reflexivity|].
  symmetry. apply andb_true_iff. lia.
Qed.

Lemma daterange_loop_sound fuel : forall cur stop acc out,
  daterange_loop fuel cur stop acc = Ok out -> out = acc ++ zrange cur stop.
Proof.
  induction fuel as [|fuel IH]; intros cur stop acc out; simpl;
    destruct (Z.leb_spec cur stop) as [Hle|Hgt].
  - discriminate.
  - intros [= <-]. rewrite zrange_nil by lia. now rewrite app_nil_r.
  - destruct (add_days cur 1) as [cur'|] eqn:E; simpl; [|discriminate].
    apply add_days_ok in E. destruct E as [-> _]. intros H.
    apply IH in H. rewrite H, <- app_assoc. simpl.
    now rewrite (zrange_cons cur stop) by lia.
  - intros [= <-]. rewrite zrange_nil by lia. now rewrite app_nil_r.
Qed.

Lemma daterange_loop_total fuel : forall cur stop acc,
  0 <= cur -> stop < MAXORDINAL -> (Z.to_nat (stop - cur + 1) <= fuel)%nat ->
  daterange_loop fuel cur stop acc = Ok (acc ++ zrange cur stop).
Proof.
  induction fuel as [|fuel IH]; intros cur stop acc Hc Hs Hf; simpl;
    destruct (Z.leb_spec cur stop) as [Hle|Hgt].
  - lia.
  - rewrite zrange_nil by lia. now rewrite app_nil_r.
  - rewrite add_days_in_range by lia. simpl.
    rewrite IH by lia. rewrite <- app_assoc. simpl.
    now rewrite (zrange_cons cur stop) by lia.
  - rewrite zrange_nil by lia. now rewrite app_nil_r.
Qed.

Lemma daterange_inclusive_sound a b out :
  daterange_inclusive a b = Ok out -> out = zrange a b.
Proof. intros H. apply daterange_loop_sound in H. exact H. Qed.

Lemma daterange_inclusive_total a b :
  0 <= a -> b < MAXORDINAL -> daterange_inclusive a b = Ok (zrange a b).
Proof.
  intros Ha Hb. unfold daterange_inclusive.
  now rewrite daterange_loop_total by lia.
Qed.

Lemma week_count_nil cur wkend : wkend < cur -> week_count cur wkend = O.
Proof.
  intros H. unfold week_count.
  assert ((wkend - cur) / 7 < 0) by (apply Z.div_lt_upper_bound; lia). lia.
Qed.

Lemma week_count_step cur wkend :
  cur <= wkend -> week_count cur wkend = S (week_count (cur + 7) wkend).
Proof.
  intros H. unfold week_count.
  replace (wkend - cur) with ((wkend - (cur + 7)) + 1 * 7) by lia.
  rewrite Z.div_add by lia.
  assert (-1 <= (wkend - (cur + 7)) / 7) by (apply Z.div_le_lower_bound; lia).
  lia.
Qed.

Section Segmenter.
Variables first_class last_class : date.
Variable blackout_ranges : list DateRange.
Variable wk_end_boundary : date.

Let loop := week_loop first_class last_class blackout_ranges wk_end_boundary.
Let days := week_days first_class last_class blackout_ranges.

Lemma week_loop_sound fuel : forall cur n events out,
  loop fuel cur n events = Ok out ->
  out = events ++
        label_weeks n (map days (mondays (week_count cur wk_end_boundary) cur)).
Proof.
  induction fuel as [|fuel IH]; intros cur n events out; unfold loop; simpl;
    destruct (Z.leb_spec cur wk_end_boundary) as [Hle|Hgt].
  - discriminate.
  - intros [= <-]. rewrite week_count_nil by lia. simpl. now rewrite app_nil_r.
  - rewrite (week_count_step cur) by lia. simpl mondays. simpl map.
    destruct (add_days cur 4) as [fri|] eqn:Efri; simpl; [|discriminate].
    apply add_days_ok in Efri. destruct Efri as [-> _].
    destruct (daterange_inclusive _ _) as [ds|] eqn:Eds; simpl; [|discriminate].
    apply daterange_inclusive_sound in Eds.
    fold (week_days first_class last_class blackout_ranges cur) in *.
    assert (Ew : filter (instructional blackout_ranges) ds = days cur)
      by (rewrite Eds; reflexivity).
    rewrite Ew. destruct (days cur) as [|d0 rest] eqn:Edays.
    + destruct (add_days cur 7) as [cur'|] eqn:E7; simpl; [|discriminate].
      apply add_days_ok in E7. destruct E7 as [-> _]. intros H.
      apply IH in H. exact H.
    + destruct (add_days cur 7) as [cur'|] eqn:E7; simpl; [|discriminate].
      apply add_days_ok in E7. destruct E7 as [-> _]. intros H.
      apply IH in H. rewrite H, <- app_assoc. reflexivity.
  - intros [= <-]. rewrite week_count_nil by lia. simpl. now rewrite app_nil_r.
Qed.

Lemma week_loop_total fuel : forall cur n events,
  0 < cur -> wk_end_boundary + 7 <= MAXORDINAL ->
  (week_count cur wk_end_boundary <= fuel)%nat ->
  loop fuel cur n events =
  Ok (events ++
      label_weeks n (map days (mondays (week_count cur wk_end_boundary) cur))).
Proof.
  induction fuel as [|fuel IH]; intros cur n events Hc Hw Hf; unfold loop; simpl;
    destruct (Z.leb_spec cur wk_end_boundary) as [Hle|Hgt].
  - rewrite (week_count_step cur) in Hf by lia. lia.
  - rewrite week_count_nil by lia. simpl. now rewrite app_nil_r.
  - rewrite (week_count_step cur) in * by lia. simpl mondays. simpl map.
    rewrite add_days_in_range by lia. simpl.
    rewrite daterange_inclusive_total by lia. simpl.
    fold (week_days first_class last_class blackout_ranges cur).
    fold (days cur).
    destruct (days cur) as [|d0 rest] eqn:Edays.
    + rewrite add_days_in_range by lia. simpl. apply IH; lia.
    + rewrite add_days_in_range by lia. simpl.
      fold loop. rewrite IH by lia. rewrite <- app_assoc. reflexivity.
  - rewrite week_count_nil by lia. simpl. now rewrite app_nil_r.
Qed.
End Segmenter.

Lemma monday_of_week_ok d :
  valid_date d ->
  monday_of_week d = Ok (d - weekday d) /\ 1 <= d - weekday d <= d.
Proof.
  unfold valid_date, monday_of_week, weekday. intros H.
  pose proof (Z.mod_pos_bound (d + 6) 7 ltac:(lia)) as Hb.
  pose proof (Z.div_mod (d + 6) 7 ltac:(lia)) as Hq.
  assert (1 <= (d + 6) / 7) by (apply Z.div_le_lower_bound; lia).
  split; [|lia].
  rewrite add_days_in_range by lia. reflexivity.
Qed.

Lemma monday_of_week_sound d x : monday_of_week d = Ok x -> x = d - weekday d.
Proof. unfold monday_of_week. intros H. apply add_days_ok in H. lia. Qed.

Lemma segmenter_sound first_class last_class blackout_ranges out :
  instructional_week_events first_class last_class blackout_ranges = Ok out ->
  out = label_weeks 1 (term_weeks first_class last_class blackout_ranges).
Proof.
  unfold instructional_week_events.
  destruct (monday_of_week first_class) as [ws|] eqn:E1; simpl; [|discriminate].
  destruct (monday_of_week last_class) as [we|] eqn:E2; simpl; [|discriminate].
  apply monday_of_week_sound in E1, E2. subst ws we. intros H.
  apply week_loop_sound in H. exact H.
Qed.

Lemma segmenter_total first_class last_class blackout_ranges :
  valid_date first_class -> valid_date last_class ->
  last_class - weekday last_class + 7 <= MAXORDINAL ->
  instructional_week_events first_class last_class blackout_ranges =
  Ok (label_weeks 1 (term_weeks first_class last_class blackout_ranges)).
Proof.
  intros Hf Hl Hmax. unfold instructional_week_events.
  destruct (monday_of_week_ok _ Hf) as [-> Hfm].
  destruct (monday_of_week_ok _ Hl) as [-> Hlm]. simpl.
  rewrite week_loop_total; [reflexivity|lia|lia|]. unfold week_count. lia.
Qed.

(** *** What [label_weeks] emits *)

Lemma label_weeks_skip n ws :
  label_weeks n ws = label_weeks n (filter has_days ws).
Proof.
  revert n. induction ws as [|w ws IH]; intros n; [reflexivity|].
  destruct w as [|d ds]; simpl; [apply IH|]. f_equal. apply IH.
Qed.

Lemma label_weeks_length n ws :
  length (label_weeks n ws) = length (filter has_days ws).
Proof.
  revert n. induction ws as [|w ws IH]; intros n; [reflexivity|].
  destruct w as [|d ds]; simpl; [apply IH|]. f_equal. apply IH.
Qed.

Lemma last_default {A : Type} (l : list A) (a b : A) :
  l <> [] -> last l a = last l b.
Proof.
  induction l as [|x l IH]; [congruence|]. intros _.
  destruct l as [|y l]; [reflexivity|]. apply IH. discriminate.
Qed.

Lemma label_weeks_number ws : forall n i e,
  nth_error (label_weeks n ws) i = Some e ->
  exists w, nth_error (filter has_days ws) i = Some w /\
            title e = week_title (n + Z.of_nat i) (Z.of_nat (length w) <? 5) /\
            event_start e = hd 0 w /\ event_end e = last w 0.
Proof.
  induction ws as [|w ws IH]; intros n i e; simpl.
  - destruct i; discriminate.
  - destruct w as [|d ds]; [apply IH|].
    destruct i as [|i].
    + simpl. intros [= <-]. exists (d :: ds). repeat split.
      * unfold title. simpl fst. now rewrite Z.add_0_r.
      * unfold event_end. simpl snd.
        change (last (d :: ds) d = last (d :: ds) 0).
        apply last_default. discriminate.
    + simpl. intros H. apply IH in H. destruct H as [w [Hw [Ht He]]].
      exists w. split; [exact Hw|]. split; [|exact He].
      rewrite Ht. f_equal. lia.
Qed.

Lemma filter_zrange_head (p : Z -> bool) hi k : forall lo d ds,
  Z.to_nat (hi - lo + 1) = k ->
  filter p (zrange lo hi) = d :: ds ->
  lo <= d /\ forall x, In x ds -> d < x.
Proof.
  induction k as [|k IH]; intros lo d ds Hk.
  - rewrite zrange_nil by lia. discriminate.
  - rewrite zrange_cons by lia. simpl. destruct (p lo).
    + intros [= <- <-]. split; [lia|]. intros x Hx.
      apply filter_In in Hx. destruct Hx as [Hx _]. apply in_zrange in Hx. lia.
    + intros H. apply IH in H; [|lia]. destruct H as [H1 H2]. split; [lia|exact H2].
Qed.

Lemma last_in {A : Type} (l : list A) (d : A) : l <> [] -> In (last l d) l.
Proof.
  induction l as [|x l IH]; [congruence|]. intros _.
  destruct l as [|y l]; [left; reflexivity|].
  right. apply IH. discriminate.
Qed.

Lemma week_days_in first_class last_class blackout_ranges mon d :
  In d (week_days first_class last_class blackout_ranges mon) ->
  instructional blackout_ranges d = true /\
  first_class <= d <= last_class /\ mon <= d <= mon + 4.
Proof.
  unfold week_days. intros H. apply filter_In in H. destruct H as [H Hi].
  apply in_zrange in H. split; [exact Hi|]. lia.
Qed.

Lemma week_days_ends first_class last_class blackout_ranges mon d ds :
  week_days first_class last_class blackout_ranges mon = d :: ds ->
  mon <= d /\ d <= last (d :: ds) d /\ last (d :: ds) d <= mon + 4.
Proof.
  intros E.
  pose proof (filter_zrange_head _ _ _ _ _ _ eq_refl E) as [Hlo Hlt].
  assert (Hin : In (last (d :: ds) d) (d :: ds)) by (apply last_in; discriminate).
  assert (Hin' : In (last (d :: ds) d)
                    (week_days first_class last_class blackout_ranges mon))
    by (rewrite E; exact Hin).
  apply week_days_in in Hin'.
  split; [lia|]. split; [|lia].
  destruct Hin as [<-|Hin]; [lia|]. apply Hlt in Hin. lia.
Qed.

Lemma label_weeks_chrono first_class last_class blackout_ranges k :
  forall mon n,
    let evs := label_weeks n (map (week_days first_class last_class blackout_ranges)
                                  (mondays k mon)) in
    StronglySorted before evs /\
    Forall (fun e => mon <= event_start e /\ event_start e <= event_end e) evs.
Proof.
  induction k as [|k IH]; intros mon n; simpl.
  - split; constructor.
  - destruct (IH (mon + 7) n) as [IHs1 IHf1].
    destruct (IH (mon + 7) (n + 1)) as [IHs2 IHf2].
    destruct (week_days first_class last_class blackout_ranges mon)
      as [|d ds] eqn:E.
    + split; [exact IHs1|].
      eapply Forall_impl; [|exact IHf1]. simpl. intros e He. lia.
    + apply week_days_ends in E. simpl in E. split.
      * constructor; [exact IHs2|].
        eapply Forall_impl; [|exact IHf2]. intros e He.
        unfold before, event_end, event_start in *. simpl fst. simpl snd. lia.
      * constructor.
        -- unfold event_end, event_start. simpl fst. simpl snd. lia.
        -- eapply Forall_impl; [|exact IHf2]. simpl. intros e He. lia.
Qed.

Lemma mondays_in k : forall mon x,
  In x (mondays k mon) -> exists i, 0 <= i /\ x = mon + 7 * i.
Proof.
  induction k as [|k IH]; intros mon x; cbn [mondays In]; [tauto|].
  intros [<-|H].
  - exists 0. lia.
  - apply IH in H. destruct H as [i [Hi ->]]. exists (i + 1). lia.
Qed.

Lemma term_mondays_weekday first_class last_class mon :
  In mon (term_mondays first_class last_class) -> weekday mon = 0.
Proof.
  unfold term_mondays. intros H. apply mondays_in in H.
  destruct H as [i [_ ->]]. unfold weekday.
  replace (first_class - (first_class + 6) mod 7 + 7 * i + 6)
    with (first_class + 6 - (first_class + 6) mod 7 + i * 7) by lia.
  rewrite Z.mod_add by lia.
  rewrite Zminus_mod, Z.mod_mod, Z.sub_diag by lia. reflexivity.
Qed.

Lemma weekday_in_week mon d :
  weekday mon = 0 -> mon <= d <= mon + 4 -> weekday d = d - mon.
Proof.
  unfold weekday. intros Hm Hd.
  pose proof (Z.div_mod (mon + 6) 7 ltac:(lia)) as Hq. rewrite Hm in Hq.
  apply (mod_eq _ 7 ((mon + 6) / 7)); lia.
Qed.

Lemma filter_length_lt {A : Type} (p : A -> bool) (l : list A) :
  (length (filter p l) < length l)%nat <-> exists x, In x l /\ p x = false.
Proof.
  induction l as [|a l IH]; simpl.
  - split; [lia|]. intros [x [[] _]].
  - pose proof (filter_length_le p l) as Hle.
    destruct (p a) eqn:Ea; simpl.
    + split.
      * intros H. assert (H' : (length (filter p l) < length l)%nat) by lia.
        apply IH in H'. destruct H' as [x [Hx Hp]]. exists x. tauto.
      * intros [x [[->|Hx] Hp]]; [congruence|].
        assert (length (filter p l) < length l)%nat by (apply IH; eauto). lia.
    + split; [|lia]. intros _. exists a. tauto.
Qed.

Lemma week_short first_class last_class blackout_ranges mon :
  weekday mon = 0 ->
  (length (week_days first_class last_class blackout_ranges mon) < 5)%nat <->
  (mon < first_class \/ last_class < mon + 4 \/
   exists d, mon <= d <= mon + 4 /\ is_blackout blackout_ranges d = true).
Proof.
  intros Hmon. unfold week_days.
  set (l := zrange (Z.max mon first_class) (Z.min (mon + 4) last_class)).
  pose proof (filter_length_le (instructional blackout_ranges) l) as Hle.
  assert (Hlen : Z.of_nat (@length date l) =
                 Z.max 0 (Z.min (mon + 4) last_class - Z.max mon first_class + 1))
    by apply zrange_length.
  assert (Hin : forall d, In d l -> Z.max mon first_class <= d <= Z.min (mon + 4) last_class)
    by (intros d; apply in_zrange).
  assert (Hni : forall d, Z.max mon first_class <= d <= Z.min (mon + 4) last_class -> In d l)
    by (intros d; apply in_zrange).
  clearbody l.
  destruct (Z_lt_dec mon first_class) as [Hf|Hf]; [split; [tauto|intros _; lia]|].
  destruct (Z_lt_dec last_class (mon + 4)) as [Hl|Hl];
    [split; [tauto|intros _; lia]|].
  assert (Hl5 : @length date l = 5%nat) by lia.
  rewrite <- Hl5, filter_length_lt. split.
  - intros [d [Hd Hp]]. right. right. exists d.
    apply Hin in Hd. split; [lia|].
    unfold instructional in Hp.
    rewrite (weekday_in_week mon d Hmon) in Hp by lia.
    replace (5 <=? d - mon) with false in Hp by (symmetry; apply Z.leb_gt; lia).
    simpl in Hp. now apply negb_false_iff in Hp.
  - intros [H|[H|[d [Hd Hb]]]]; [lia|lia|].
    exists d. split; [apply Hni; lia|].
    unfold instructional. rewrite Hb. apply andb_false_r.
Qed.

Lemma digits_of_app fuel : forall n acc,
  digits_of fuel n acc = digits_of fuel n [] ++ acc.
Proof.
  induction fuel as [|fuel IH]; intros n acc; simpl; [reflexivity|].
  destruct (n <? 10); [reflexivity|].
  rewrite IH, (IH _ [_]), <- app_assoc. reflexivity.
Qed.

Lemma digits_of_last fuel n :
  exists init, digits_of fuel n [] = init ++ [48 + n mod 10].
Proof.
  destruct fuel as [|fuel]; simpl; [exists []; reflexivity|].
  destruct (n <? 10); [exists []; reflexivity|].
  rewrite digits_of_app. eexists. reflexivity.
Qed.

Lemma str_of_int_last n :
  exists init c, str_of_int n = init ++ [c] /\ 48 <= c <= 57.
Proof.
  unfold str_of_int. destruct (n <? 0).
  - destruct (digits_of_last (Z.to_nat (Z.log2 (- n))) (- n)) as [init E].
    exists (45 :: init), (48 + (- n) mod 10). rewrite E. split; [reflexivity|].
    pose proof (Z.mod_pos_bound (- n) 10 ltac:(lia)). lia.
  - destruct (digits_of_last (Z.to_nat (Z.log2 n)) n) as [init E].
    exists init, (48 + n mod 10). rewrite E. split; [reflexivity|].
    pose proof (Z.mod_pos_bound n 10 ltac:(lia)). lia.
Qed.

Lemma startswith_app p t : startswith p (p ++ t) = true.
Proof.
  induction p as [|x p IH]; simpl; [reflexivity|]. now rewrite Z.eqb_refl.
Qed.

Lemma week_title_short n short :
  endswith (week_title n short) (s " (short)") = short.
Proof.
  unfold endswith, week_title. destruct short.
  - rewrite !rev_app_distr, <- app_assoc. apply startswith_app.
  - rewrite app_nil_r.
    destruct (str_of_int_last n) as [init [c [E Hc]]].
    rewrite E, !rev_app_distr. change (rev [c]) with [c]. cbn [app].
    change (rev (s " (short)")) with (41 :: rev (s " (short")).
    cbn [startswith]. replace (41 =? c) with false; [reflexivity|].
    symmetry. apply Z.eqb_neq. lia.
Qed.

Lemma label_weeks_covers ws : forall n,
  Forall2 covers (label_weeks n ws) (filter has_days ws).
Proof.
  induction ws as [|w ws IH]; intros n; [constructor|].
  destruct w as [|d ds]; [apply IH|].
  cbn [label_weeks filter has_days]. constructor; [|apply IH].
  unfold covers, event_start, event_end, title. cbn [fst snd hd].
  split; [reflexivity|]. split; [apply last_default; discriminate|].
  rewrite week_title_short, Z.ltb_lt. cbn [length]. lia.
Qed.

Lemma label_weeks_in ws : forall n e,
  In e (label_weeks n ws) ->
  exists w, In w ws /\ In (event_start e) w.
Proof.
  induction ws as [|w ws IH]; intros n e; cbn [label_weeks]; [intros []|].
  destruct w as [|d ds].
  - intros H. apply IH in H. destruct H as [w [Hw Hs]]. exists w. split; [now right|exact Hs].
  - intros [<-|H].
    + exists (d :: ds). split; [now left|]. now left.
    + apply IH in H. destruct H as [w [Hw Hs]]. exists w. split; [now right|exact Hs].
Qed.

(** An event lies in the week of one Monday only. *)
Lemma event_week first_class last_class blackout_ranges n e :
  In e (label_weeks n (term_weeks first_class last_class blackout_ranges)) ->
  exists mon,
    In mon (term_mondays first_class last_class) /\
    In (event_start e) (week_days first_class last_class blackout_ranges mon).
Proof.
  intros H. apply label_weeks_in in H. destruct H as [w [Hw Hs]].
  unfold term_weeks in Hw. apply in_map_iff in Hw.
  destruct Hw as [mon [<- Hmon]]. exists mon. auto.
Qed.

(** ** Reading a week number back *)

Lemma read_digits_of fuel : forall n acc rest,
  0 <= n < 10 ^ (Z.of_nat fuel + 1) ->
  read_digits 0 (digits_of fuel n acc ++ rest) = read_digits n (acc ++ rest).
Proof.
  induction fuel as [|fuel IH]; intros n acc rest Hn.
  - change (10 ^ (Z.of_nat 0 + 1)) with 10 in Hn.
    cbn [digits_of app read_digits].
    rewrite Z.mod_small by lia.
    replace ((48 <=? 48 + n) && (48 + n <=? 57)) with true
      by (symmetry; apply andb_true_iff; rewrite !Z.leb_le; lia).
    f_equal. lia.
  - cbn [digits_of]. destruct (Z.ltb_spec n 10) as [Hlt|Hge].
    + cbn [app read_digits]. rewrite Z.mod_small by lia.
      replace ((48 <=? 48 + n) && (48 + n <=? 57)) with true
        by (symmetry; apply andb_true_iff; rewrite !Z.leb_le; lia).
      f_equal. lia.
    + rewrite IH.
      * cbn [app read_digits].
        pose proof (Z.mod_pos_bound n 10 ltac:(lia)) as Hm.
        replace ((48 <=? 48 + n mod 10) && (48 + n mod 10 <=? 57)) with true
          by (symmetry; apply andb_true_iff; rewrite !Z.leb_le; lia).
        f_equal. pose proof (Z.div_mod n 10 ltac:(lia)). lia.
      * split; [apply Z.div_pos; lia|].
        apply Z.div_lt_upper_bound; [lia|].
        replace (Z.of_nat (S fuel) + 1) with (Z.succ (Z.of_nat fuel + 1)) in Hn by lia.
        rewrite Z.pow_succ_r in Hn by lia. lia.
Qed.

Lemma log2_digits n : 0 <= n -> n < 10 ^ (Z.of_nat (Z.to_nat (Z.log2 n)) + 1).
Proof.
  intros Hn. pose proof (Z.log2_nonneg n) as Hl. rewrite Z2Nat.id by lia.
  destruct (Z.eq_dec n 0) as [->|Hz]; [reflexivity|].
  pose proof (Z.log2_spec n ltac:(lia)) as [_ Hlt].
  apply Z.lt_le_trans with (2 ^ Z.succ (Z.log2 n)); [exact Hlt|].
  replace (Z.log2 n + 1) with (Z.succ (Z.log2 n)) by lia.
  apply Z.pow_le_mono_l. lia.
Qed.

(** The number of a title can be read back from it. *)
Lemma title_number_week_title n short :
  0 <= n -> title_number (week_title n short) = n.
Proof.
  intros Hn. unfold title_number, week_title.
  change (skipn 5 (s "Week " ++ ?x)) with x.
  unfold str_of_int. replace (n <? 0) with false by (symmetry; apply Z.ltb_ge; lia).
  rewrite read_digits_of by (split; [lia|now apply log2_digits]).
  destruct short; reflexivity.
Qed.

(** C1.  The weeks are numbered as the specification words it: what the
    segmenter returns is [label_weeks] from 1 on, run over the weeks of the
    term, so a week without an instructional day emits nothing and leaves
    the counter alone (dropping those weeks from the list changes nothing,
    there is one event per remaining week, and no event starts in a week
    without an instructional day); the [i]-th event (from 0) carries the
    number [i + 1], which can be read back from its title, so no two events
    share a title; each event is over before the next one begins.  The
    segmenter does return, unless the week of [last_class] is the last one
    of year 9999, where stepping to the next Monday overflows. *)
Theorem week_numbers_consecutive first_class last_class blackout_ranges :
  valid_date first_class -> valid_date last_class ->
  first_class <= last_class ->
  let weeks := term_weeks first_class last_class blackout_ranges in
  (last_class - weekday last_class + 7 <= MAXORDINAL ->
   instructional_week_events first_class last_class blackout_ranges =
   Ok (label_weeks 1 weeks)) /\
  forall out,
    instructional_week_events first_class last_class blackout_ranges = Ok out ->
    out = label_weeks 1 weeks /\
    out = label_weeks 1 (filter has_days weeks) /\
    length out = length (filter has_days weeks) /\
    (forall mon e,
        In mon (term_mondays first_class last_class) ->
        week_days first_class last_class blackout_ranges mon = [] ->
        In e out -> ~ (mon <= event_start e <= mon + 6)) /\
    (forall i e, nth_error out i = Some e ->
                 (exists short, title e = week_title (Z.of_nat i + 1) short) /\
                 title_number (title e) = Z.of_nat i + 1) /\
    (forall i j e e', nth_error out i = Some e -> nth_error out j = Some e' ->
                      title e = title e' -> i = j) /\
    StronglySorted before out.
Proof.
  intros Hf Hl _ weeks. split.
  - intros Hmax. now apply segmenter_total.
  - intros out H. apply segmenter_sound in H. fold weeks in H. subst out.
    split; [reflexivity|]. split; [apply label_weeks_skip|].
    assert (Hread : forall i e,
               nth_error (label_weeks 1 weeks) i = Some e ->
               title_number (title e) = Z.of_nat i + 1).
    { intros i e He. apply label_weeks_number in He.
      destruct He as [w [_ [Ht _]]]. rewrite Ht.
      rewrite title_number_week_title; lia. }
    split; [apply label_weeks_length|]. split; [|split; [|split]].
    + intros mon e Hmon Hempty He Hin.
      apply event_week in He. destruct He as [mon' [Hmon' Hs]].
      pose proof (week_days_in _ _ _ _ _ Hs) as [_ [_ Hr]].
      unfold term_mondays in Hmon, Hmon'.
      apply mondays_in in Hmon, Hmon'.
      destruct Hmon as [i [_ Ei]]. destruct Hmon' as [j [_ Ej]].
      assert (E : mon' = mon) by lia.
      rewrite E, Hempty in Hs. exact Hs.
    + intros i e He. split; [|now apply Hread].
      apply label_weeks_number in He.
      destruct He as [w [_ [Ht _]]]. eexists. rewrite Ht. f_equal. lia.
    + intros i j e e' Hi Hj Ht. apply Hread in Hi, Hj.
      rewrite Ht in Hi. lia.
    + apply (label_weeks_chrono first_class last_class blackout_ranges).
Qed.

(** C6.  Each emitted event stands for one week with an instructional
    day, in order: it runs from the first to the last collected day of that
    week, and its title ends in " (short)" exactly when fewer than five days
    were collected.  The collected days of a week are the days of its
    Monday-to-Friday window that lie in the term and in no blackout range,
    so there are fewer than five exactly when the term boundary clips the
    window or a blackout range holds one of its days. *)
Theorem week_event_extent first_class last_class blackout_ranges out :
  instructional_week_events first_class last_class blackout_ranges = Ok out ->
  Forall2 covers out
          (filter has_days (term_weeks first_class last_class blackout_ranges)) /\
  forall mon,
    In mon (term_mondays first_class last_class) ->
    let w := week_days first_class last_class blackout_ranges mon in
    (forall d, In d w <->
               mon <= d <= mon + 4 /\ first_class <= d <= last_class /\
               is_blackout blackout_ranges d = false) /\
    ((length w < 5)%nat <->
     (mon < first_class \/ last_class < mon + 4 \/
      exists d, mon <= d <= mon + 4 /\ is_blackout blackout_ranges d = true)).
Proof.
  intros H. apply segmenter_sound in H. subst out. split.
  - apply label_weeks_covers.
  - intros mon Hmon w. apply term_mondays_weekday in Hmon. split.
    + intros d. unfold w, week_days. rewrite filter_In, in_zrange.
      unfold instructional. split.
      * intros [Hd Hi]. apply andb_true_iff in Hi. destruct Hi as [_ Hb].
        apply negb_true_iff in Hb. split; [lia|]. split; [lia|exact Hb].
      * intros [Hd [Ht Hb]]. split; [lia|].
        rewrite (weekday_in_week mon d Hmon Hd), Hb.
        replace (5 <=? d - mon) with false by (symmetry; apply Z.leb_gt; lia).
        reflexivity.
    + apply week_short. exact Hmon.
Qed.

(** ** Ranges *)

Lemma clamp_ordered_iff r lo hi :
  ordered r -> lo <= hi ->
  (ordered (clamp r lo hi) <-> intersects r (mkDateRange lo hi) = true).
Proof.
  unfold ordered, clamp, intersects. cbn [start end_]. intros Hr Hlh.
  rewrite negb_true_iff, orb_false_iff, !Z.ltb_ge. lia.
Qed.

Lemma blackouts_ordered first_day last_day breaks single_holidays :
  first_day <= last_day ->
  Forall (fun lr => ordered (snd lr)) breaks ->
  Forall ordered
         (blackouts_of first_day last_day
            (breaks_of (mkDateRange first_day last_day) breaks)
            (holidays_of (mkDateRange first_day last_day) single_holidays)).
Proof.
  intros Hfl Hb. unfold blackouts_of. apply Forall_app. split.
  - apply Forall_map. unfold breaks_of. apply Forall_forall.
    intros lr Hin. apply filter_In in Hin. destruct Hin as [Hin Hi].
    rewrite Forall_forall in Hb. apply clamp_ordered_iff; auto.
  - unfold holidays_of. rewrite map_map. apply Forall_map, Forall_forall.
    intros ld _. unfold ordered. cbn [snd start end_]. lia.
Qed.

(** ** The date expression parser *)

Lemma same_month_order y mn d1 d2 :
  ymd2ord y mn d1 <= ymd2ord y mn d2 <-> d1 <= d2.
Proof. unfold ymd2ord. lia. Qed.

Section ParseRange.
Variable db : unicode_db.
Variable dateutil_parse : date -> bool -> str -> result date.
Variable today : date.

Lemma range_of_groups_reads mo d1 d2 yyyy a b :
  py_int db (group mo 2) = Ok d1 ->
  py_int db (group mo 3) = Ok d2 ->
  py_int db (group mo 4) = Ok yyyy ->
  dateutil_parse today false (fmt_mdy (group mo 1) d1 yyyy) = Ok a ->
  dateutil_parse today false (fmt_mdy (group mo 1) d2 yyyy) = Ok b ->
  range_of_groups db dateutil_parse today mo = Ok (mkDateRange a b).
Proof.
  intros H1 H2 H3 Ha Hb. unfold range_of_groups.
  rewrite H1, H2, H3. cbn [bind]. rewrite Ha, Hb. reflexivity.
Qed.

Lemma parse_range_matched text mo :
  re_match db false pat_range_exact (range_text db text) = Some mo \/
  (re_match db false pat_range_exact (range_text db text) = None /\
   re_match db false pat_range_suffix (range_text db text) = Some mo) ->
  parse_range db dateutil_parse today text =
  range_of_groups db dateutil_parse today mo.
Proof.
  unfold parse_range, range_text. cbv zeta.
  intros [H|[H1 H2]]; [now rewrite H|now rewrite H1, H2].
Qed.

Lemma parse_range_fallback text :
  re_match db false pat_range_exact (range_text db text) = None ->
  re_match db false pat_range_suffix (range_text db text) = None ->
  parse_range db dateutil_parse today text =
  (d <- parse_month_day_year dateutil_parse today (range_text db text) ;;
   Ok (mkDateRange d d)).
Proof.
  unfold parse_range, range_text. cbv zeta. intros H1 H2.
  now rewrite H1, H2.
Qed.
End ParseRange.

(** When the normalized text matches the single-month pattern, with or
    without a suffix, and the converter reads [Month D1, YYYY] and
    [Month D2, YYYY] as day [D1] and day [D2] of one month of year [YYYY],
    these two dates are the start and the end of the range. *)
Lemma parse_range_on_match db dateutil_parse today text mo d1 d2 yyyy mn :
  re_match db false pat_range_exact (range_text db text) = Some mo \/
  (re_match db false pat_range_exact (range_text db text) = None /\
   re_match db false pat_range_suffix (range_text db text) = Some mo) ->
  py_int db (group mo 2) = Ok d1 ->
  py_int db (group mo 3) = Ok d2 ->
  py_int db (group mo 4) = Ok yyyy ->
  valid_ymd yyyy mn d1 = true ->
  valid_ymd yyyy mn d2 = true ->
  dateutil_parse today false (fmt_mdy (group mo 1) d1 yyyy)
    = Ok (ymd2ord yyyy mn d1) ->
  dateutil_parse today false (fmt_mdy (group mo 1) d2 yyyy)
    = Ok (ymd2ord yyyy mn d2) ->
  exists r,
    parse_range db dateutil_parse today text = Ok r /\
    start r = ymd2ord yyyy mn d1 /\ end_ r = ymd2ord yyyy mn d2 /\
    month (start r) = month (end_ r) /\ year (start r) = year (end_ r) /\
    (ordered r <-> d1 <= d2).
Proof.
  intros Hm H1 H2 H3 Hv1 Hv2 Ha Hb.
  exists (mkDateRange (ymd2ord yyyy mn d1) (ymd2ord yyyy mn d2)).
  split.
  - rewrite (parse_range_matched _ _ _ _ _ Hm).
    eapply range_of_groups_reads; eassumption.
  - cbn [start end_]. unfold ordered. cbn [start end_].
    rewrite !month_ymd2ord, !year_ymd2ord by assumption.
    repeat split; try reflexivity; apply same_month_order.
Qed.

(** C3 as stated fails: "October 14-11, 2025" matches the single-month
    pattern and comes back with its start after its end. *)
Lemma parse_range_inverted_days :
  re_match ascii_db false pat_range_exact
           (range_text ascii_db (s "October 14-11, 2025")) <> None /\
  exists r,
    parse_range ascii_db month_day_year_converter day0 (s "October 14-11, 2025")
      = Ok r /\
    start r = ymd2ord 2025 10 14 /\ end_ r = ymd2ord 2025 10 11 /\
    ~ ordered r.
Proof.
  split; [vm_compute; discriminate|].
  eexists. split; [vm_compute; reflexivity|].
  split; [reflexivity|]. split; [reflexivity|].
  unfold ordered. vm_compute. intros H. apply H. reflexivity.
Qed.

(** C7.  When neither single-month pattern matches the normalized text
    and the converter reads it as the date [d], [parse_range] returns the
    range from [d] to [d]. *)
Theorem parse_range_single_date db dateutil_parse today text d :
  re_match db false pat_range_exact (range_text db text) = None ->
  re_match db false pat_range_suffix (range_text db text) = None ->
  parse_month_day_year dateutil_parse today (range_text db text) = Ok d ->
  parse_range db dateutil_parse today text = Ok (mkDateRange d d) /\
  forall r, parse_range db dateutil_parse today text = Ok r -> start r = end_ r.
Proof.
  intros H1 H2 Hd.
  rewrite (parse_range_fallback _ _ _ _ H1 H2), Hd. cbn [bind].
  split; [reflexivity|]. intros r [= <-]. reflexivity.
Qed.

(** The first day of classes of fall 2025, a bare date. *)
Lemma parse_range_single_date_witness :
  parse_range ascii_db month_day_year_converter day0 (s "August 25, 2025")
    = Ok (mkDateRange (ymd2ord 2025 8 25) (ymd2ord 2025 8 25)).
Proof.
  apply (parse_range_single_date ascii_db month_day_year_converter day0
           (s "August 25, 2025") (ymd2ord 2025 8 25)).
  - vm_compute. reflexivity.
  - vm_compute. reflexivity.
  - vm_compute. reflexivity.
Defined.

(** C4 as stated fails: a range that lies wholly before the bounds is
    clamped to a pair whose start is after its end. *)
Lemma clamp_disjoint_inverted :
  let r := mkDateRange (ymd2ord 2025 10 11) (ymd2ord 2025 10 14) in
  let lo := ymd2ord 2026 1 20 in
  let hi := ymd2ord 2026 4 29 in
  ordered r /\ lo <= hi /\ ~ ordered (clamp r lo hi).
Proof.
  unfold ordered. vm_compute.
  repeat split; try discriminate. intros H. apply H. reflexivity.
Qed.

(** C4, as amended.  Clamping an ordered range to bounds [lo <= hi] gives
    an ordered range exactly when the range meets the bounds; the blackout
    ranges the orchestrator builds are ordered when the term is and every
    break range found on the page is, since only the breaks that meet the
    term are clamped and a holiday is a single day; a range [parse_range]
    takes from a single date has its start equal to its end, and one it
    takes from [Month D1-D2, YYYY], read by the converter as two days of
    one month, is ordered exactly when [D1 <= D2]. *)
Theorem ranges_ordered :
  (forall r lo hi,
      ordered r -> lo <= hi ->
      (ordered (clamp r lo hi) <-> intersects r (mkDateRange lo hi) = true)) /\
  (forall first_day last_day breaks single_holidays,
      first_day <= last_day ->
      Forall (fun lr => ordered (snd lr)) breaks ->
      Forall ordered
             (blackouts_of first_day last_day
                (breaks_of (mkDateRange first_day last_day) breaks)
                (holidays_of (mkDateRange first_day last_day) single_holidays))) /\
  (forall db dateutil_parse today text r,
      re_match db false pat_range_exact (range_text db text) = None ->
      re_match db false pat_range_suffix (range_text db text) = None ->
      parse_range db dateutil_parse today text = Ok r ->
      start r = end_ r /\ ordered r) /\
  (forall db dateutil_parse today mo d1 d2 yyyy mn,
      py_int db (group mo 2) = Ok d1 ->
      py_int db (group mo 3) = Ok d2 ->
      py_int db (group mo 4) = Ok yyyy ->
      dateutil_parse today false (fmt_mdy (group mo 1) d1 yyyy)
        = Ok (ymd2ord yyyy mn d1) ->
      dateutil_parse today false (fmt_mdy (group mo 1) d2 yyyy)
        = Ok (ymd2ord yyyy mn d2) ->
      exists r, range_of_groups db dateutil_parse today mo = Ok r /\
                (ordered r <-> d1 <= d2)).
Proof.
  split; [exact clamp_ordered_iff|]. split; [exact blackouts_ordered|]. split.
  - intros db dp today text r H1 H2.
    rewrite (parse_range_fallback _ _ _ _ H1 H2).
    destruct (parse_month_day_year dp today (range_text db text)) as [d|];
      cbn [bind]; [|discriminate].
    intros [= <-]. unfold ordered. cbn [start end_]. lia.
  - intros db dp today mo d1 d2 yyyy mn H1 H2 H3 Ha Hb.
    eexists. split; [eapply range_of_groups_reads; eassumption|].
    unfold ordered. cbn [start end_]. apply same_month_order.
Qed.

(** The Fall Break of the sample page, clamped to the fall term. *)
Lemma ranges_ordered_witness :
  let r := mkDateRange (ymd2ord 2025 10 11) (ymd2ord 2025 10 14) in
  let lo := ymd2ord 2025 8 25 in
  let hi := ymd2ord 2025 12 3 in
  ordered (clamp r lo hi).
Proof.
  cbv zeta. apply (proj1 ranges_ordered).
  - unfold ordered. vm_compute. discriminate.
  - vm_compute. discriminate.
  - vm_compute. reflexivity.
Defined.

(** ** The deadline extractor *)

(** The order in which the extractor tries its patterns on a captured
    line, with the leading [FULL] and the separators stripped. *)
Lemma full_line_cascade db dateutil_parse today (line : str) :
  line <> [] ->
  let rest := full_line_rest db line in
  let out := extract_end_date_from_full_line db dateutil_parse today (Some line) in
  (re_fullmatch db pat_month_day_year rest <> None ->
   out = (d <- parse_month_day_year dateutil_parse today rest ;; Ok (Some d))) /\
  (re_fullmatch db pat_month_day_year rest = None ->
   forall mo, re_fullmatch db pat_two_months rest = Some mo ->
   out = (end_day <- py_int db (group mo 4) ;;
          end_year <- py_int db (group mo 5) ;;
          d <- dateutil_parse today false (fmt_mdy (group mo 3) end_day end_year) ;;
          Ok (Some d))) /\
  (re_fullmatch db pat_month_day_year rest = None ->
   re_fullmatch db pat_two_months rest = None ->
   forall mo, re_fullmatch db pat_one_month rest = Some mo ->
   out = (end_day <- py_int db (group mo 3) ;;
          end_year <- py_int db (group mo 4) ;;
          d <- dateutil_parse today false (fmt_mdy (group mo 1) end_day end_year) ;;
          Ok (Some d))) /\
  (re_fullmatch db pat_month_day_year rest = None ->
   re_fullmatch db pat_two_months rest = None ->
   re_fullmatch db pat_one_month rest = None ->
   forall c cs, re_findall db pat_month_day_year rest = c :: cs ->
   out = (d <- parse_month_day_year dateutil_parse today (last (c :: cs) []) ;;
          Ok (Some d))) /\
  (re_fullmatch db pat_month_day_year rest = None ->
   re_fullmatch db pat_two_months rest = None ->
   re_fullmatch db pat_one_month rest = None ->
   re_findall db pat_month_day_year rest = [] ->
   out = Ok None) /\
  extract_end_date_from_full_line db dateutil_parse today None = Ok None /\
  extract_end_date_from_full_line db dateutil_parse today (Some []) = Ok None.
Proof.
  intros Hne rest out.
  assert (E : out =
    match re_fullmatch db pat_month_day_year rest with
    | Some _ => d <- parse_month_day_year dateutil_parse today rest ;; Ok (Some d)
    | None =>
        match re_fullmatch db pat_two_months rest with
        | Some mo =>
            end_day <- py_int db (group mo 4) ;;
            end_year <- py_int db (group mo 5) ;;
            d <- dateutil_parse today false
                   (fmt_mdy (group mo 3) end_day end_year) ;;
            Ok (Some d)
        | None =>
            match re_fullmatch db pat_one_month rest with
            | Some mo =>
                end_day <- py_int db (group mo 3) ;;
                end_year <- py_int db (group mo 4) ;;
                d <- dateutil_parse today false
                       (fmt_mdy (group mo 1) end_day end_year) ;;
                Ok (Some d)
            | None =>
                match re_findall db pat_month_day_year rest with
                | [] => Ok None
                | c :: cs =>
                    d <- parse_month_day_year dateutil_parse today
                           (last (c :: cs) []) ;;
                    Ok (Some d)
                end
            end
        end
    end).
  { unfold out, extract_end_date_from_full_line, rest.
    destruct line as [|c line]; [congruence|]. reflexivity. }
  repeat split.
  - intros HA. rewrite E.
    destruct (re_fullmatch db pat_month_day_year rest); [reflexivity|congruence].
  - intros HA mo HB. now rewrite E, HA, HB.
  - intros HA HB mo HC. now rewrite E, HA, HB, HC.
  - intros HA HB HC c cs HD. now rewrite E, HA, HB, HC, HD.
  - intros HA HB HC HD. now rewrite E, HA, HB, HC, HD.
Qed.

(** ** The deadline scanner *)

Section Scanner.
Variable db : unicode_db.

Lemma is_full_line_nonempty l : is_full_line db l = true -> nonempty l = true.
Proof. destruct l; [discriminate|reflexivity]. Qed.

(** What the loop has captured by the time it stops, from a state whose
    flags are not both set and whose captured lines are not empty. *)
Lemma scan_captures lines : forall st,
  (in_drop st && in_withdraw st = false) ->
  (forall l, full_drop_line st = Some l -> nonempty l = true) ->
  (forall l, full_withdraw_line st = Some l -> nonempty l = true) ->
  full_drop_line (scan db st lines) =
    match full_drop_line st with
    | Some l => Some l
    | None => first_full db InDrop (section_of st) lines
    end /\
  full_withdraw_line (scan db st lines) =
    match full_withdraw_line st with
    | Some l => Some l
    | None => first_full db InWithdraw (section_of st) lines
    end.
Proof.
  induction lines as [|l lines IH]; intros st Hflags Hd Hw.
  - simpl. destruct (full_drop_line st), (full_withdraw_line st); auto.
  - cbn [scan first_full]. unfold header_of.
    destruct (searches db true pat_drop_period l) eqn:Edrop.
    { (* a Drop Period header *)
      match goal with
      | |- context [scan db ?st' lines] =>
          destruct (IH st') as [-> ->]; [cbn; auto ..|]
      end.
      cbn. auto. }
    destruct (searches db true pat_withdrawal_period l) eqn:Ewd.
    { (* a Withdrawal Period header *)
      match goal with
      | |- context [scan db ?st' lines] =>
          destruct (IH st') as [-> ->]; [cbn; auto ..|]
      end.
      cbn. auto. }
    destruct (in_drop st && is_none (full_drop_line st) && is_full_line db l)
      eqn:Ecd.
    { (* the full-session line of the drop section *)
      apply andb_true_iff in Ecd. destruct Ecd as [Ecd Efull].
      apply andb_true_iff in Ecd. destruct Ecd as [Ein Enone].
      destruct (full_drop_line st) eqn:Efd; [discriminate|].
      match goal with
      | |- context [scan db ?st' lines] => destruct (IH st') as [-> ->]
      end.
      - exact Hflags.
      - cbn. intros l' [= <-]. now apply is_full_line_nonempty.
      - exact Hw.
      - cbn. unfold section_of. rewrite Ein, Efull. cbn. auto. }
    destruct (in_withdraw st && is_none (full_withdraw_line st)
              && is_full_line db l) eqn:Ecw.
    { (* the full-session line of the withdrawal section *)
      apply andb_true_iff in Ecw. destruct Ecw as [Ecw Efull].
      apply andb_true_iff in Ecw. destruct Ecw as [Ein Enone].
      destruct (full_withdraw_line st) eqn:Efw; [discriminate|].
      assert (Eid : in_drop st = false).
      { destruct (in_drop st); [|reflexivity]. now rewrite Ein in Hflags. }
      match goal with
      | |- context [scan db ?st' lines] => destruct (IH st') as [-> ->]
      end.
      - exact Hflags.
      - exact Hd.
      - cbn. intros l' [= <-]. now apply is_full_line_nonempty.
      - cbn. unfold section_of. rewrite Eid, Ein, Efull. cbn. auto. }
    destruct (truthy (full_drop_line st) && truthy (full_withdraw_line st))
      eqn:Ebreak.
    { (* break *)
      apply andb_true_iff in Ebreak. destruct Ebreak as [E1 E2].
      destruct (full_drop_line st); [|discriminate].
      destruct (full_withdraw_line st); [|discriminate]. auto. }
    (* any other line *)
    destruct (IH st) as [-> ->]; [assumption ..|]. unfold section_of.
    destruct (in_drop st) eqn:Eid.
    + destruct (in_withdraw st); [discriminate|]. cbn in Ecd. cbn.
      destruct (full_drop_line st) eqn:Efd;
        destruct (full_withdraw_line st) eqn:Efw; cbn in Ecd; auto.
      * now rewrite Ecd.
      * now rewrite Ecd.
    + destruct (in_withdraw st) eqn:Eiw; cbn in Ecw; cbn.
      * destruct (full_drop_line st) eqn:Efd;
          destruct (full_withdraw_line st) eqn:Efw; cbn in Ecw; auto.
        -- now rewrite Ecw.
        -- now rewrite Ecw.
      * destruct (full_drop_line st), (full_withdraw_line st); auto.
Qed.

Lemma first_full_candidate target lines : forall cur l,
  target <> Neither ->
  (first_full db target cur lines = Some l <->
   exists i, nth_error lines i = Some l /\
             candidate db target cur lines i /\
             forall j, (j < i)%nat -> ~ candidate db target cur lines j).
Proof.
  induction lines as [|x lines IH]; intros cur l Ht.
  - cbn. split; [discriminate|]. intros [i [H _]]. destruct i; discriminate.
  - cbn [first_full].
    assert (Hshift : forall cur' i,
               cur' = match header_of db x with Some h => h | None => cur end ->
               (candidate db target cur (x :: lines) (S i) <->
                candidate db target cur' lines i)).
    { intros cur' i ->. unfold candidate, section_after. cbn. tauto. }
    destruct (header_of db x) as [h|] eqn:Eh.
    + rewrite IH by assumption. split.
      * intros [i [Hi [Hc Hfirst]]]. exists (S i). split; [exact Hi|].
        split; [now apply (Hshift h)|].
        intros [|j] Hj.
        -- intros [l0 [Hl0 [Hh _]]]. cbn in Hl0. congruence.
        -- rewrite (Hshift h) by reflexivity. apply Hfirst. lia.
      * intros [[|i] [Hi [Hc Hfirst]]].
        -- destruct Hc as [l0 [Hl0 [Hh _]]]. cbn in Hl0. congruence.
        -- exists i. split; [exact Hi|]. split; [now apply (Hshift h) in Hc|].
           intros j Hj Hcj. apply (Hfirst (S j)); [lia|].
           now apply (Hshift h).
    + destruct (section_eqb cur target && is_full_line db x) eqn:Ec.
      * apply andb_true_iff in Ec. destruct Ec as [Es Ef].
        assert (Hc0 : candidate db target cur (x :: lines) 0).
        { exists x. cbn. repeat split; auto.
          destruct cur, target; try discriminate; reflexivity. }
        split.
        -- intros [= <-]. exists O. split; [reflexivity|].
           split; [exact Hc0|]. intros j Hj. lia.
        -- intros [[|i] [Hi [_ Hfirst]]]; [cbn in Hi; congruence|].
           exfalso. apply (Hfirst O); [lia|exact Hc0].
      * rewrite IH by assumption. split.
        -- intros [i [Hi [Hc Hfirst]]]. exists (S i). split; [exact Hi|].
           split; [now apply (Hshift cur)|].
           intros [|j] Hj.
           ++ intros [l0 [Hl0 [_ [Hf Hs]]]]. cbn in Hl0, Hs.
              injection Hl0 as <-. rewrite Hf, <- Hs in Ec.
              destruct cur; discriminate.
           ++ rewrite (Hshift cur) by reflexivity. apply Hfirst. lia.
        -- intros [[|i] [Hi [Hc Hfirst]]].
           ++ destruct Hc as [l0 [Hl0 [_ [Hf Hs]]]]. cbn in Hl0, Hs.
              injection Hl0 as <-. rewrite Hf, <- Hs in Ec.
              destruct cur; discriminate.
           ++ exists i. split; [exact Hi|].
              split; [now apply (Hshift cur) in Hc|].
              intros j Hj Hcj. apply (Hfirst (S j)); [lia|].
              now apply (Hshift cur).
Qed.
End Scanner.

(** C5.  The scanner keeps at most one line for each section, and it is
    the one the specification describes: the first line that is no header,
    starts with the token [FULL] and is met while that section is the
    current one.  A line before the first header is met in no section, a
    line with another prefix does not start with [FULL], and a later
    [FULL] line of the section is not the first one: none of them is
    kept. *)
Theorem scanner_keeps_first_full db (lines : list str) :
  let st := scan db scan_init lines in
  full_drop_line st = first_full db InDrop Neither lines /\
  full_withdraw_line st = first_full db InWithdraw Neither lines /\
  (forall l, full_drop_line st = Some l <->
     exists i, nth_error lines i = Some l /\
               candidate db InDrop Neither lines i /\
               forall j, (j < i)%nat -> ~ candidate db InDrop Neither lines j) /\
  (forall l, full_withdraw_line st = Some l <->
     exists i, nth_error lines i = Some l /\
               candidate db InWithdraw Neither lines i /\
               forall j, (j < i)%nat -> ~ candidate db InWithdraw Neither lines j).
Proof.
  intros st.
  destruct (scan_captures db lines scan_init) as [Hd Hw];
    [reflexivity|discriminate|discriminate|].
  cbn in Hd, Hw. fold st in Hd, Hw.
  split; [exact Hd|]. split; [exact Hw|]. split.
  - intros l. rewrite Hd. apply first_full_candidate. discriminate.
  - intros l. rewrite Hw. apply first_full_candidate. discriminate.
Qed.

(** The page of the sample site holds no full-session line before the
    first header and two in the drop section; the scanner keeps the first
    of each section. *)
Lemma scanner_keeps_first_full_witness :
  let lines := deadline_lines ascii_db plain_text sample_deadlines_page in
  first_full ascii_db InDrop Neither lines
    = Some (s "FULL - January 20 - February 2, 2026") /\
  first_full ascii_db InWithdraw Neither lines
    = Some (s "FULL - March 16-29, 2026").
Proof.
  intros lines.
  destruct (scanner_keeps_first_full ascii_db lines) as [Hd [Hw _]].
  rewrite <- Hd, <- Hw. split; vm_compute; reflexivity.
Defined.

(** ** The text block segmenter *)

Lemma str_eqb_refl t : str_eqb t t = true.
Proof. induction t as [|c t IH]; simpl; [reflexivity|]. now rewrite Z.eqb_refl. Qed.

Lemma str_eqb_eq a : forall b, str_eqb a b = true -> a = b.
Proof.
  induction a as [|x a IH]; intros [|y b]; simpl; try discriminate; [reflexivity|].
  intros H. apply andb_true_iff in H. destruct H as [H1 H2].
  apply Z.eqb_eq in H1. apply IH in H2. congruence.
Qed.

Lemma find_index_none {A : Type} (p : A -> bool) (l : list A) :
  find_index p l = None <-> forall x, In x l -> p x = false.
Proof.
  induction l as [|a l IH]; simpl.
  - split; [intros _ x []|reflexivity].
  - destruct (p a) eqn:Ea.
    + split; [discriminate|]. intros H. rewrite (H a) in Ea; [discriminate|auto].
    + destruct (find_index p l); simpl.
      * split; [discriminate|]. intros H.
        assert (Hn : Some n = None) by (apply IH; intros x Hx; apply H; auto).
        discriminate.
      * split; [|reflexivity]. intros _ x [<-|Hx]; [exact Ea|].
        now apply IH.
Qed.

(** C8.  For a spring term, when no line of the page holds the heading
    [Spring {year}], [extract_term_block_text] raises the section-not-found
    error; it returns a block exactly when some line holds the heading. *)
Theorem spring_heading_absent db html_get_text (academic_html : str) year
        (semester : str) :
  lower db semester = s "spring" ->
  let lines := text_lines db html_get_text academic_html in
  let key := s "Spring " ++ str_of_int year in
  ((forall l, In l lines -> contains key l = false) ->
   extract_term_block_text db html_get_text academic_html year semester
     = Raise (spring_not_found year)) /\
  ((exists l, In l lines /\ contains key l = true) ->
   exists block,
     extract_term_block_text db html_get_text academic_html year semester
       = Ok block).
Proof.
  intros Hs lines key. unfold extract_term_block_text.
  rewrite Hs. change (str_eqb (s "spring") (s "spring")) with true.
  cbv iota beta zeta. fold lines. fold key. split.
  - intros H. apply find_index_none in H. rewrite H. reflexivity.
  - intros [l [Hl Hc]].
    destruct (find_index (contains key) lines) as [i|] eqn:E.
    + eexists. reflexivity.
    + rewrite find_index_none in E. rewrite (E l Hl) in Hc. discriminate.
Qed.

(** The fall page of the sample site has no heading [Spring 2027]. *)
Lemma spring_heading_absent_witness :
  extract_term_block_text ascii_db plain_text sample_academic_page 2027
                          (s "Spring")
  = Raise (spring_not_found 2027).
Proof.
  apply (spring_heading_absent ascii_db plain_text sample_academic_page 2027
                               (s "Spring")).
  - reflexivity.
  - intros l Hl.
    assert (H : forallb (fun l => negb (contains (s "Spring " ++ str_of_int 2027) l))
                        (text_lines ascii_db plain_text sample_academic_page)
                = true) by (vm_compute; reflexivity).
    rewrite forallb_forall in H. apply negb_true_iff. apply H. exact Hl.
Defined.

(** ** The orchestrator *)

Lemma appends_ret {A : Type} (a : A) : appends (io_ret a).
Proof. intros log. exists []. cbn. now rewrite app_nil_r. Qed.

Lemma appends_lift {A : Type} (r : result A) : appends (io_lift r).
Proof. intros log. exists []. cbn. now rewrite app_nil_r. Qed.

Lemma appends_bind {A B : Type} (c : io A) (k : A -> io B) :
  appends c -> (forall a, appends (k a)) -> appends (io_bind c k).
Proof.
  intros Hc Hk log. unfold io_bind. destruct (Hc log) as [m1 E1].
  destruct (c log) as [[a|e] log']; cbn in E1; subst log'.
  - destruct (Hk a (log ++ m1)) as [m2 E2]. exists (m1 ++ m2).
    rewrite E2. now rewrite app_assoc.
  - exists m1. reflexivity.
Qed.

Lemma appends_try {A : Type} (c : io A) : appends c -> appends (io_try c).
Proof.
  intros Hc log. unfold io_try. destruct (Hc log) as [m1 E1].
  destruct (c log) as [[a|e] log']; cbn in E1; subst log'; exists m1; reflexivity.
Qed.

Lemma appends_fetch pages url : appends (fetch_html pages url).
Proof. intros log. exists [url]. reflexivity. Qed.

Lemma appends_fetch_first pages urls : appends (fetch_first pages urls).
Proof.
  induction urls as [|u urls IH]; cbn [fetch_first]; [apply appends_ret|].
  apply appends_bind; [apply appends_try, appends_fetch|].
  intros [html|]; [apply appends_ret|exact IH].
Qed.

Ltac appends_step :=
  first
    [ apply appends_ret
    | apply appends_lift
    | apply appends_fetch
    | apply appends_fetch_first
    | apply appends_bind; [|intros ?]
    | match goal with
      | |- appends (match ?x with _ => _ end) => destruct x
      end ].

(** C10.  A semester whose lowercased form is neither [fall] nor [spring]
    makes both functions raise [ValueError], and [build_term_events] does
    so with the list of requested pages untouched.  A semester whose
    lowercased form is one of the two passes: the slug is computed, and the
    first thing the run does is request the academic-year page.  The
    comparison is made on the lowercased argument, so [Fall] passes where
    lowercasing it gives [fall]. *)
Theorem semester_guard db dateutil_parse today html_get_text pages year
        (semester : str) :
  (semester_known (lower db semester) = false ->
   academic_year_slug_for_term db year semester = Raise bad_semester /\
   forall log,
     build_term_events db dateutil_parse today html_get_text pages year
                       semester log = (Raise bad_semester, log)) /\
  (semester_known (lower db semester) = true ->
   lower db (lower db semester) = lower db semester ->
   exists ay_slug,
     academic_year_slug_for_term db year semester = Ok ay_slug /\
     forall log, exists more,
       snd (build_term_events db dateutil_parse today html_get_text pages year
                              semester log)
       = log ++ (ACADEMIC_BASE ++ s "/" ++ ay_slug) :: more).
Proof.
  split.
  - intros H. split.
    + unfold academic_year_slug_for_term. cbv zeta. now rewrite H.
    + intros log. unfold build_term_events. cbv zeta. now rewrite H.
  - intros H Hidem.
    assert (Hslug : forall t, lower db t = lower db semester ->
              exists ay_slug, academic_year_slug_for_term db year t = Ok ay_slug).
    { intros t Ht. unfold academic_year_slug_for_term. cbv zeta.
      rewrite Ht, H. cbn [negb]. eexists. reflexivity. }
    destruct (Hslug semester eq_refl) as [ay_slug Eslug].
    exists ay_slug. split; [exact Eslug|].
    assert (Eslug' : academic_year_slug_for_term db year (lower db semester)
                     = Ok ay_slug).
    { unfold academic_year_slug_for_term in *. cbv zeta in *.
      now rewrite Hidem. }
    intros log. unfold build_term_events. cbv zeta.
    rewrite H. cbn [negb]. rewrite Eslug'.
    unfold io_bind at 1. cbn [io_lift].
    unfold io_bind at 1. unfold fetch_html at 1.
    destruct (pages (ACADEMIC_BASE ++ s "/" ++ ay_slug)) as [academic_html|].
    + match goal with
      | |- exists more, snd (?k (log ++ [?u])) = _ =>
          assert (Hk : appends k)
      end.
      { repeat appends_step. }
      destruct (Hk (log ++ [ACADEMIC_BASE ++ s "/" ++ ay_slug])) as [more E].
      exists more. rewrite <- app_assoc in E. exact E.
    + exists []. reflexivity.
Qed.

(** On the sample site: [Autumn] is refused before any request, [Fall] is
    taken for [fall] and the academic-year page of 2025-26 is requested
    first. *)
Lemma semester_guard_witness :
  (forall log,
     build_term_events ascii_db month_day_year_converter day0 plain_text
                       sample_site 2025 (s "Autumn") log
     = (Raise bad_semester, log)) /\
  exists more,
    snd (build_term_events ascii_db month_day_year_converter day0 plain_text
                           sample_site 2025 (s "Fall") [])
    = (ACADEMIC_BASE ++ s "/" ++ s "ay2526.php") :: more.
Proof.
  split.
  - apply (semester_guard ascii_db month_day_year_converter day0 plain_text
                          sample_site 2025 (s "Autumn")).
    reflexivity.
  - destruct (semester_guard ascii_db month_day_year_converter day0 plain_text
                             sample_site 2025 (s "Fall")) as [_ H].
    destruct (H eq_refl eq_refl) as [ay_slug [Eslug Hlog]].
    vm_compute in Eslug. injection Eslug as <-.
    destruct (Hlog []) as [more E]. exists more. exact E.
Defined.



Section TwoRuns.
Variable db : unicode_db.
Variable dateutil_parse : date -> bool -> str -> result date.
Variable html_get_text : str -> str.
Variables today1 today2 : date.
Variables pages1 pages2 : str -> option str.

(** The converter gives the two runs the same answers. *)
Hypothesis same_dates :
  forall fuzzy t, dateutil_parse today1 fuzzy t = dateutil_parse today2 fuzzy t.












End TwoRuns.



(** On a text whose word names a month the model does not look at the
    date of the run. *)
Lemma dateutil_model_full_dates today1 today2 fuzzy (text : str) mo :
  re_fullmatch ascii_db pat_converter text = Some mo ->
  month_number (group mo 1) <> None ->
  dateutil_model today1 fuzzy text = dateutil_model today2 fuzzy text.
Proof.
  intros E Hm. unfold dateutil_model. rewrite E.
  destruct (py_int ascii_db (group mo 2)); [|reflexivity]. cbn [bind].
  destruct (py_int ascii_db (group mo 3)); [|reflexivity]. cbn [bind].
  destruct (month_number (group mo 1)); [reflexivity|congruence].
Qed.


(** A fall term of three weeks whose second week is a break: the week is
    not emitted and the numbering goes on from 1 to 2. *)
Lemma week_numbers_consecutive_witness :
  let first_class := ymd2ord 2025 8 25 in
  let last_class := ymd2ord 2025 9 12 in
  let break := mkDateRange (ymd2ord 2025 9 1) (ymd2ord 2025 9 5) in
  instructional_week_events first_class last_class [break]
  = Ok [(s "Week 1", ymd2ord 2025 8 25, ymd2ord 2025 8 29);
        (s "Week 2", ymd2ord 2025 9 8, ymd2ord 2025 9 12)].
Proof.
  cbv zeta.
  destruct (week_numbers_consecutive
              (ymd2ord 2025 8 25) (ymd2ord 2025 9 12)
              [mkDateRange (ymd2ord 2025 9 1) (ymd2ord 2025 9 5)])
    as [Htotal _].
  - unfold valid_date. vm_compute. split; discriminate.
  - unfold valid_date. vm_compute. split; discriminate.
  - vm_compute. discriminate.
  - rewrite Htotal; [vm_compute; reflexivity|]. vm_compute. discriminate.
Defined.

(** A week with a holiday on its Monday: the event runs from Tuesday to
    Friday and is short. *)
Lemma week_event_extent_witness :
  let first_class := ymd2ord 2025 8 25 in
  let last_class := ymd2ord 2025 9 5 in
  let labor_day := mkDateRange (ymd2ord 2025 9 1) (ymd2ord 2025 9 1) in
  Forall2 covers
    [(s "Week 1", ymd2ord 2025 8 25, ymd2ord 2025 8 29);
     (s "Week 2 (short)", ymd2ord 2025 9 2, ymd2ord 2025 9 5)]
    (filter has_days (term_weeks first_class last_class [labor_day])).
Proof.
  cbv zeta.
  apply (week_event_extent (ymd2ord 2025 8 25) (ymd2ord 2025 9 5)
           [mkDateRange (ymd2ord 2025 9 1) (ymd2ord 2025 9 1)]).
  vm_compute. reflexivity.
Defined.

(** ** The matcher on texts of a known shape *)

Lemma last_cons {A : Type} (l : list A) : forall x d, last (x :: l) d = last l x.
Proof.
  induction l as [|a l IH]; intros x d; [reflexivity|].
  change (last (x :: a :: l) d) with (last (a :: l) d).
  now rewrite !IH.
Qed.

Lemma last_char_cons c run pv : last_char run (Some c) = last_char (c :: run) pv.
Proof. unfold last_char. cbn [map]. symmetry. apply last_cons. Qed.

Lemma last_char_default run pv pv' :
  run <> [] -> last_char run pv = last_char run pv'.
Proof.
  intros H. unfold last_char. apply last_default. destruct run; [congruence|discriminate].
Qed.

Lemma firstn_consumed (a b : str) :
  firstn (length (a ++ b) - length b) (a ++ b) = a.
Proof.
  rewrite length_app. replace (length a + length b - length b)%nat
    with (length a + 0)%nat by lia.
  rewrite firstn_app_2. cbn. apply app_nil_r.
Qed.

Lemma nonempty_length (t : str) : (1 <= length t)%nat <-> t <> [].
Proof. destruct t; cbn; split; try lia; try congruence; discriminate. Qed.

Section Matching.
Variable db : unicode_db.

Lemma rep_ext (A : Type) p : forall t lo hi pv (k1 k2 : option Z -> str -> option A),
  (forall pv' t', k1 pv' t' = k2 pv' t') ->
  rep db A p lo hi pv t k1 = rep db A p lo hi pv t k2.
Proof.
  induction t as [|c t IH]; intros lo hi pv k1 k2 Hk; cbn [rep].
  - destruct lo; [apply Hk|reflexivity].
  - rewrite (IH (pred lo) (option_map pred hi) (Some c) k1 k2 Hk).
    rewrite (Hk pv (c :: t)). reflexivity.
Qed.

Lemma m_ext (A : Type) icase r : forall pv t caps
    (k1 k2 : option Z -> str -> list str -> option A),
  (forall pv' t' caps', k1 pv' t' caps' = k2 pv' t' caps') ->
  m db A icase r pv t caps k1 = m db A icase r pv t caps k2.
Proof.
  induction r; intros pv t caps k1 k2 Hk; cbn [m].
  - destruct t as [|x t]; [reflexivity|]. now rewrite Hk.
  - destruct t as [|x t]; [reflexivity|]. now rewrite Hk.
  - apply rep_ext. intros pv' t'. apply Hk.
  - apply IHr1. intros pv' t' caps'. apply IHr2. exact Hk.
  - rewrite (IHr1 pv t caps k1 k2 Hk), (IHr2 pv t caps k1 k2 Hk). reflexivity.
  - apply IHr. intros pv' t' caps'. apply Hk.
  - destruct pv; [reflexivity|apply Hk].
  - destruct t as [|x [|y t]]; [apply Hk| |reflexivity].
    destruct x as [|q|q]; try reflexivity.
    repeat (destruct q as [q|q|]; try reflexivity). apply Hk.
  - now rewrite Hk.
  - apply Hk.
Qed.

Lemma m_cat_cons (A : Type) icase r rs pv t caps
      (k : option Z -> str -> list str -> option A) :
  m db A icase (cat (r :: rs)) pv t caps k =
  m db A icase r pv t caps
    (fun pv' t' caps' => m db A icase (cat rs) pv' t' caps' k).
Proof. destruct rs; reflexivity. Qed.

Lemma m_cat_app (A : Type) icase rs1 rs2 : forall pv t caps
    (k : option Z -> str -> list str -> option A),
  m db A icase (cat (rs1 ++ rs2)) pv t caps k =
  m db A icase (cat rs1) pv t caps
    (fun pv' t' caps' => m db A icase (cat rs2) pv' t' caps' k).
Proof.
  induction rs1 as [|r rs1 IH]; intros pv t caps k; [reflexivity|].
  cbn [app]. rewrite !m_cat_cons. apply m_ext. intros pv' t' caps'. apply IH.
Qed.

(** A quantifier that needs a character and does not find one fails. *)
Lemma rep_none_first (A : Type) p lo hi pv c t (k : option Z -> str -> option A) :
  in_cls db p c = false -> rep db A p (S lo) hi pv (c :: t) k = None.
Proof. intros H. cbn [rep]. now rewrite H. Qed.

Lemma rep_skip (A : Type) p lo hi pv t (k : option Z -> str -> option A) :
  stops db p t ->
  rep db A p lo hi pv t k = match lo with O => k pv t | S _ => None end.
Proof.
  destruct t as [|c t]; cbn [rep stops]; [reflexivity|]. intros ->. reflexivity.
Qed.

(** A quantifier whose shorter runs all lead to failure takes the whole
    run: the outcome is that of what follows, success or failure. *)
Lemma rep_det (A : Type) p : forall run lo hi pv t (k : option Z -> str -> option A),
  all_in db p run ->
  (lo <= length run)%nat ->
  match hi with Some h => (length run <= h)%nat | None => True end ->
  hi = Some (length run) \/ stops db p t ->
  (forall run1 c run2,
      run = run1 ++ c :: run2 -> in_cls db p c = true ->
      (lo <= length run1)%nat ->
      k (last_char run1 pv) (c :: run2 ++ t) = None) ->
  rep db A p lo hi pv (run ++ t) k = k (last_char run pv) t.
Proof.
  induction run as [|c run IH]; intros lo hi pv t k Hall Hlo Hhi Hstop Hshort.
  - cbn [app]. assert (lo = O) by (cbn in Hlo; lia). subst lo.
    destruct t as [|c t]; [reflexivity|]. cbn [rep].
    assert (E : in_cls db p c && more hi = false).
    { destruct Hstop as [->|Hs]; [apply andb_false_r|].
      cbn in Hs. now rewrite Hs. }
    rewrite E. reflexivity.
  - cbn [app rep]. inversion Hall as [|? ? Hc Hrun]; subst.
    rewrite Hc.
    assert (Hm : more hi = true).
    { destruct hi as [[|h]|]; cbn in *; [lia|reflexivity|reflexivity]. }
    rewrite Hm. cbn [andb].
    rewrite (IH (pred lo) (option_map pred hi) (Some c) t k); [|exact Hrun| | | |].
    + rewrite (last_char_cons c run pv).
      destruct (k (last_char (c :: run) pv) t) as [r|]; [reflexivity|].
      destruct lo as [|lo]; [|reflexivity].
      apply (Hshort [] c run); [reflexivity|exact Hc|cbn; lia].
    + cbn in Hlo. lia.
    + destruct hi as [h|]; cbn in *; [lia|exact I].
    + destruct Hstop as [->|Hs]; [left; reflexivity|right; exact Hs].
    + intros run1 c' run2 E Hc' Hl.
      rewrite (last_char_cons c run1 pv).
      apply (Hshort (c :: run1) c' run2); [now rewrite E|exact Hc'|cbn; lia].
Qed.

Lemma all_in_mid p (a : str) c (b : str) :
  all_in db p (a ++ c :: b) -> in_cls db p c = true.
Proof.
  unfold all_in. rewrite Forall_app. intros [_ H]. now inversion H.
Qed.

Lemma stops_first p (a b : str) :
  a <> [] -> (forall c, In c a -> in_cls db p c = false) -> stops db p (a ++ b).
Proof.
  destruct a as [|c a]; [congruence|]. intros _ H. cbn. apply H. now left.
Qed.

Lemma stops_after p (a b : str) :
  (forall c, In c a -> in_cls db p c = false) -> stops db p b ->
  stops db p (a ++ b).
Proof.
  destruct a as [|c a]; [intros _ H; exact H|]. intros H _. cbn. apply H. now left.
Qed.

Lemma all_in_In p (t : str) c : all_in db p t -> In c t -> in_cls db p c = true.
Proof. unfold all_in. rewrite Forall_forall. auto. Qed.

(** *** The character sets of the date patterns *)

Lemma space_not_alpha c : in_cls db CSpace c = true -> in_cls db alpha c = false.
Proof.
  unfold is_space, alpha. cbn [in_cls]. unfold is_space. intros H.
  rewrite !orb_true_iff, !andb_true_iff, !Z.leb_le, !Z.eqb_eq in H.
  rewrite orb_false_iff, !andb_false_iff, !Z.leb_gt. lia.
Qed.

Lemma alpha_not_space c : in_cls db alpha c = true -> in_cls db CSpace c = false.
Proof.
  intros H. destruct (in_cls db CSpace c) eqn:E; [|reflexivity].
  apply space_not_alpha in E. congruence.
Qed.

Lemma space_not_mark c : in_cls db CSpace c = true -> c <> 45 /\ c <> 44.
Proof.
  cbn [in_cls]. unfold is_space. intros H.
  rewrite !orb_true_iff, !andb_true_iff, !Z.leb_le, !Z.eqb_eq in H. lia.
Qed.

Hypothesis apart : digits_apart db.

Lemma digit_not_space c : in_cls db CDigit c = true -> in_cls db CSpace c = false.
Proof. intros H. now apply apart. Qed.

Lemma digit_not_alpha c : in_cls db CDigit c = true -> in_cls db alpha c = false.
Proof. intros H. now apply apart. Qed.

Lemma digit_not_mark c : in_cls db CDigit c = true -> c <> 45 /\ c <> 44.
Proof. intros H. split; now apply apart. Qed.

Lemma space_not_digit c : in_cls db CSpace c = true -> in_cls db CDigit c = false.
Proof.
  intros H. destruct (in_cls db CDigit c) eqn:E; [|reflexivity].
  apply digit_not_space in E. congruence.
Qed.

Lemma alpha_not_digit c : in_cls db alpha c = true -> in_cls db CDigit c = false.
Proof.
  intros H. destruct (in_cls db CDigit c) eqn:E; [|reflexivity].
  apply digit_not_alpha in E. congruence.
Qed.

Lemma mark_not_digit : in_cls db CDigit 45 = false /\ in_cls db CDigit 44 = false.
Proof.
  split.
  - destruct (in_cls db CDigit 45) eqn:E; [|reflexivity].
    apply digit_not_mark in E. lia.
  - destruct (in_cls db CDigit 44) eqn:E; [|reflexivity].
    apply digit_not_mark in E. lia.
Qed.
End Matching.

Section Segments.
Variable db : unicode_db.
Hypothesis apart : digits_apart db.
Variable A : Type.

Lemma first_word_fail rs pv c t caps (k : option Z -> str -> list str -> option A) :
  in_cls db alpha c = false ->
  m db A false (cat (Grp (plus alpha) :: rs)) pv (c :: t) caps k = None.
Proof. intros H. rewrite m_cat_cons. cbn [m]. now apply rep_none_first. Qed.

Lemma first_day_fail rs pv c t caps (k : option Z -> str -> list str -> option A) :
  in_cls db CDigit c = false ->
  m db A false (cat (Grp (between CDigit 1 2) :: rs)) pv (c :: t) caps k = None.
Proof. intros H. rewrite m_cat_cons. cbn [m]. now apply rep_none_first. Qed.

Lemma first_day_plain_fail rs pv c t caps
      (k : option Z -> str -> list str -> option A) :
  in_cls db CDigit c = false ->
  m db A false (cat (between CDigit 1 2 :: rs)) pv (c :: t) caps k = None.
Proof. intros H. rewrite m_cat_cons. cbn [m]. now apply rep_none_first. Qed.

Lemma seg_word_match mon ws T pv caps (k : option Z -> str -> list str -> option A) :
  mon <> [] -> all_in db alpha mon -> ws <> [] -> all_in db CSpace ws ->
  stops db CSpace T -> fails_on db A CSpace k ->
  m db A false (cat seg_word) pv (mon ++ ws ++ T) caps k =
  k (last_char ws None) T (caps ++ [mon]).
Proof.
  intros Hm0 Hm Hw0 Hw HT Hk. apply nonempty_length in Hm0, Hw0.
  unfold seg_word, plus. cbn [cat m].
  rewrite rep_det; [|assumption|lia|exact I| |].
  - rewrite firstn_consumed.
    rewrite rep_det; [|assumption|lia|exact I|right; exact HT|].
    + f_equal. apply last_char_default. now apply nonempty_length.
    + intros run1 c run2 E Hc Hl. now apply Hk.
  - right. apply stops_first; [now apply nonempty_length|].
    intros c Hc. apply space_not_alpha. now apply (all_in_In db CSpace ws).
  - intros run1 c run2 E Hc Hl. cbn [app]. apply rep_none_first.
    now apply alpha_not_space.
Qed.

Lemma seg_word_plain_match mon ws T pv caps
      (k : option Z -> str -> list str -> option A) :
  mon <> [] -> all_in db alpha mon -> ws <> [] -> all_in db CSpace ws ->
  stops db CSpace T -> fails_on db A CSpace k ->
  m db A false (cat seg_word_plain) pv (mon ++ ws ++ T) caps k =
  k (last_char ws None) T caps.
Proof.
  intros Hm0 Hm Hw0 Hw HT Hk. apply nonempty_length in Hm0, Hw0.
  unfold seg_word_plain, plus. cbn [cat m].
  rewrite rep_det; [|assumption|lia|exact I| |].
  - rewrite rep_det; [|assumption|lia|exact I|right; exact HT|].
    + f_equal. apply last_char_default. now apply nonempty_length.
    + intros run1 c run2 E Hc Hl. now apply Hk.
  - right. apply stops_first; [now apply nonempty_length|].
    intros c Hc. apply space_not_alpha. now apply (all_in_In db CSpace ws).
  - intros run1 c run2 E Hc Hl. cbn [app]. apply rep_none_first.
    now apply alpha_not_space.
Qed.

Lemma lit_mismatch c x (T : option A) :
  c <> x -> (if c =? x then T else None) = None.
Proof. intros H. apply Z.eqb_neq in H. now rewrite H. Qed.

Lemma seg_day_hyphen_match d ws2 ws3 T pv caps
      (k : option Z -> str -> list str -> option A) :
  all_in db CDigit d -> (1 <= length d <= 2)%nat ->
  all_in db CSpace ws2 -> all_in db CSpace ws3 ->
  stops db CSpace T -> fails_on db A CSpace k ->
  m db A false (cat seg_day_hyphen) pv (d ++ ws2 ++ 45 :: ws3 ++ T) caps k =
  k (last_char ws3 (Some 45)) T (caps ++ [d]).
Proof.
  intros Hd Hl Hw2 Hw3 HT Hk.
  unfold seg_day_hyphen, star, between. cbn [cat m].
  rewrite rep_det; [|assumption|lia|lia| |].
  - rewrite firstn_consumed.
    rewrite rep_det; [|assumption|lia|exact I|right; reflexivity|].
    + change (45 =? ch "-") with true. cbv iota.
      rewrite rep_det; [reflexivity|assumption|lia|exact I|right; exact HT|].
      intros run1 c run2 E Hc _. now apply Hk.
    + intros run1 c run2 E Hc _. cbn [app]. apply lit_mismatch.
      exact (proj1 (space_not_mark db c Hc)).
  - right. apply stops_after; [|cbn; apply (mark_not_digit db apart)].
    intros c Hc. apply (space_not_digit db apart).
    now apply (all_in_In db CSpace ws2).
  - intros run1 c run2 E Hc _. cbn [app].
    rewrite rep_skip by (cbn; now apply (digit_not_space db apart)).
    apply lit_mismatch. exact (proj1 (digit_not_mark db apart c Hc)).
Qed.

Lemma seg_day_year_match d ws yyyy rest pv caps
      (k : option Z -> str -> list str -> option A) :
  all_in db CDigit d -> (1 <= length d <= 2)%nat ->
  all_in db CSpace ws ->
  all_in db CDigit yyyy -> length yyyy = 4%nat ->
  m db A false (cat seg_day_year) pv (d ++ 44 :: ws ++ yyyy ++ rest) caps k =
  k (last_char yyyy None) rest (caps ++ [d; yyyy]).
Proof.
  intros Hd Hl Hw Hy Hly.
  unfold seg_day_year, star, between. cbn [cat m].
  rewrite rep_det; [|assumption|lia|lia| |].
  - change (44 =? ch ",") with true. cbv iota. rewrite firstn_consumed.
    rewrite rep_det; [|assumption|lia|exact I| |].
    + rewrite rep_det; [|assumption|lia|lia|left; now rewrite Hly|].
      * rewrite firstn_consumed, <- app_assoc. cbn [app]. f_equal.
        apply last_char_default. apply nonempty_length. lia.
      * intros run1 c run2 E _ Hlen. apply (f_equal (@length Z)) in E.
        rewrite length_app in E. cbn [length] in E. lia.
    + right. apply stops_first; [apply nonempty_length; lia|].
      intros c Hc. apply (digit_not_space db apart).
      now apply (all_in_In db CDigit yyyy).
    + intros run1 c run2 E Hc _. cbn [app]. apply rep_none_first.
      now apply (space_not_digit db apart).
  - right. cbn. apply (mark_not_digit db apart).
  - intros run1 c run2 E Hc _. cbn [app]. apply lit_mismatch.
    exact (proj2 (digit_not_mark db apart c Hc)).
Qed.

Lemma seg_day_year_plain_match d ws yyyy rest pv caps
      (k : option Z -> str -> list str -> option A) :
  all_in db CDigit d -> (1 <= length d <= 2)%nat ->
  all_in db CSpace ws ->
  all_in db CDigit yyyy -> length yyyy = 4%nat ->
  m db A false (cat seg_day_year_plain) pv (d ++ 44 :: ws ++ yyyy ++ rest) caps k =
  k (last_char yyyy None) rest caps.
Proof.
  intros Hd Hl Hw Hy Hly.
  unfold seg_day_year_plain, star, between. cbn [cat m].
  rewrite rep_det; [|assumption|lia|lia| |].
  - change (44 =? ch ",") with true. cbv iota.
    rewrite rep_det; [|assumption|lia|exact I| |].
    + rewrite rep_det; [|assumption|lia|lia|left; now rewrite Hly|].
      * f_equal. apply last_char_default. apply nonempty_length. lia.
      * intros run1 c run2 E _ Hlen. apply (f_equal (@length Z)) in E.
        rewrite length_app in E. cbn [length] in E. lia.
    + right. apply stops_first; [apply nonempty_length; lia|].
      intros c Hc. apply (digit_not_space db apart).
      now apply (all_in_In db CDigit yyyy).
    + intros run1 c run2 E Hc _. cbn [app]. apply rep_none_first.
      now apply (space_not_digit db apart).
  - right. cbn. apply (mark_not_digit db apart).
  - intros run1 c run2 E Hc _. cbn [app]. apply lit_mismatch.
    exact (proj2 (digit_not_mark db apart c Hc)).
Qed.

(** A day that is not followed by a comma. *)
Lemma seg_day_year_plain_fail d T pv caps
      (k : option Z -> str -> list str -> option A) :
  all_in db CDigit d -> (1 <= length d <= 2)%nat ->
  stops db CDigit T -> (forall t', T <> 44 :: t') ->
  m db A false (cat seg_day_year_plain) pv (d ++ T) caps k = None.
Proof.
  intros Hd Hl HT Hcomma.
  unfold seg_day_year_plain, star, between. cbn [cat m].
  rewrite rep_det; [|assumption|lia|lia|right; exact HT|].
  - destruct T as [|c T]; [reflexivity|]. apply lit_mismatch.
    intros ->. now apply (Hcomma T).
  - intros run1 c run2 E Hc _. cbn [app]. apply lit_mismatch.
    exact (proj2 (digit_not_mark db apart c Hc)).
Qed.
End Segments.

Section Patterns.
Variable db : unicode_db.
Hypothesis apart : digits_apart db.

Lemma fails_day (A : Type) rs (k : option Z -> str -> list str -> option A) :
  fails_on db A CSpace
    (fun pv t caps =>
       m db A false (cat (Grp (between CDigit 1 2) :: rs)) pv t caps k).
Proof.
  intros pv c t caps Hc. apply first_day_fail. now apply (space_not_digit db apart).
Qed.

Lemma fails_day_plain (A : Type) rs (k : option Z -> str -> list str -> option A) :
  fails_on db A CSpace
    (fun pv t caps => m db A false (cat (between CDigit 1 2 :: rs)) pv t caps k).
Proof.
  intros pv c t caps Hc. apply first_day_plain_fail.
  now apply (space_not_digit db apart).
Qed.

Lemma fails_word (A : Type) rs (k : option Z -> str -> list str -> option A) :
  fails_on db A CSpace
    (fun pv t caps => m db A false (cat (Grp (plus alpha) :: rs)) pv t caps k).
Proof.
  intros pv c t caps Hc. apply first_word_fail. now apply space_not_alpha.
Qed.

Lemma stops_space_digits d T :
  all_in db CDigit d -> (1 <= length d)%nat -> stops db CSpace (d ++ T).
Proof.
  intros Hd Hl. apply stops_first; [now apply nonempty_length|].
  intros c Hc. apply (digit_not_space db apart). now apply (all_in_In db CDigit d).
Qed.

Lemma stops_space_word mon T :
  all_in db alpha mon -> mon <> [] -> stops db CSpace (mon ++ T).
Proof.
  intros Hm Hm0. apply stops_first; [exact Hm0|].
  intros c Hc. apply alpha_not_space. now apply (all_in_In db alpha mon).
Qed.

(** On a text of the shape [Month D-D, YYYY], whatever follows it, the
    items of the single-month pattern take the whole of it and capture
    the month, the two days and the year. *)
Lemma single_month_run (A : Type) x rest pv caps
      (k : option Z -> str -> list str -> option A) :
  md_wf db x ->
  m db A false (cat single_month_items) pv (md_text x ++ rest) caps k =
  k (last_char (md_yyyy x) None) rest (caps ++ md_groups x).
Proof.
  intros (Hm0 & Hm & Hw0 & Hw1 & Hd1 & Hl1 & Hw2 & Hw3 & Hd2 & Hl2 & Hw4 & Hy & Hly).
  destruct x as [mon ws1 d1 ws2 ws3 d2 ws4 yyyy]. unfold md_text, md_groups.
  cbn [md_mon md_ws1 md_d1 md_ws2 md_ws3 md_d2 md_ws4 md_yyyy] in *.
  change (cat single_month_items)
    with (cat (seg_word ++ seg_day_hyphen ++ seg_day_year)).
  rewrite <- !app_assoc. cbn [app]. rewrite m_cat_app.
  rewrite seg_word_match; try assumption;
    [|apply stops_space_digits; [assumption|lia]|intros ? ? ? ? ?; apply fails_day; assumption].
  rewrite m_cat_app.
  rewrite seg_day_hyphen_match; try assumption;
    [|apply stops_space_digits; [assumption|lia]|apply fails_day].
  rewrite seg_day_year_match; try assumption.
  rewrite <- !app_assoc. reflexivity.
Qed.

(** The same for [Month D - Month D, YYYY] and the two-month pattern. *)
Lemma two_months_run (A : Type) x rest pv caps
      (k : option Z -> str -> list str -> option A) :
  ms_wf db x ->
  m db A false pat_two_months pv (ms_text x ++ rest) caps k =
  k (last_char (ms_yyyy x) None) rest (caps ++ ms_groups x).
Proof.
  intros (Hm0 & Hm & Hw0 & Hw1 & Hd1 & Hl1 & Hw2 & Hw3 & Hn0 & Hn & Hv0 & Hw4 &
          Hd2 & Hl2 & Hw5 & Hy & Hly).
  destruct x as [mon1 ws1 d1 ws2 ws3 mon2 ws4 d2 ws5 yyyy]. unfold ms_text, ms_groups.
  cbn [ms_mon1 ms_ws1 ms_d1 ms_ws2 ms_ws3 ms_mon2 ms_ws4 ms_d2 ms_ws5 ms_yyyy] in *.
  change pat_two_months
    with (cat (seg_word ++ seg_day_hyphen ++ seg_word ++ seg_day_year)).
  rewrite <- !app_assoc. cbn [app]. rewrite m_cat_app.
  rewrite seg_word_match; try assumption;
    [|apply stops_space_digits; [assumption|lia]|intros ? ? ? ? ?; apply fails_day; assumption].
  rewrite m_cat_app.
  rewrite seg_day_hyphen_match; try assumption;
    [|now apply stops_space_word|intros ? ? ? ? ?; apply fails_word; assumption].
  rewrite m_cat_app.
  rewrite seg_word_match; try assumption;
    [|apply stops_space_digits; [assumption|lia]|apply fails_day].
  rewrite seg_day_year_match; try assumption.
  rewrite <- !app_assoc. reflexivity.
Qed.

(** The same for [Month D, YYYY] and the single-date pattern, which has no
    group. *)
Lemma bare_date_run (A : Type) x rest pv caps
      (k : option Z -> str -> list str -> option A) :
  bd_wf db x ->
  m db A false pat_month_day_year pv (bd_text x ++ rest) caps k =
  k (last_char (bd_yyyy x) None) rest caps.
Proof.
  intros (Hm0 & Hm & Hw0 & Hw1 & Hd & Hl & Hw2 & Hy & Hly).
  destruct x as [mon ws1 d ws2 yyyy]. unfold bd_text.
  cbn [bd_mon bd_ws1 bd_d bd_ws2 bd_yyyy] in *.
  change pat_month_day_year with (cat (seg_word_plain ++ seg_day_year_plain)).
  rewrite <- !app_assoc. cbn [app]. rewrite m_cat_app.
  rewrite seg_word_plain_match; try assumption;
    [|apply stops_space_digits; [assumption|lia]|apply fails_day_plain].
  now rewrite seg_day_year_plain_match.
Qed.

(** The single-date pattern fails on a text that goes on, after the month
    and the first day, with optional whitespace and a hyphen. *)
Lemma bare_date_fails_on_range (A : Type) mon ws1 d1 ws2 T pv caps
      (k : option Z -> str -> list str -> option A) :
  mon <> [] -> all_in db alpha mon -> ws1 <> [] -> all_in db CSpace ws1 ->
  all_in db CDigit d1 -> (1 <= length d1 <= 2)%nat -> all_in db CSpace ws2 ->
  m db A false pat_month_day_year pv (mon ++ ws1 ++ d1 ++ ws2 ++ 45 :: T) caps k
  = None.
Proof.
  intros Hm0 Hm Hw0 Hw1 Hd1 Hl1 Hw2.
  change pat_month_day_year with (cat (seg_word_plain ++ seg_day_year_plain)).
  rewrite m_cat_app.
  rewrite seg_word_plain_match; try assumption;
    [|apply stops_space_digits; [assumption|lia]|apply fails_day_plain].
  apply seg_day_year_plain_fail; try assumption.
  - apply stops_after; [|cbn; apply (mark_not_digit db apart)].
    intros c Hc. apply (space_not_digit db apart).
    now apply (all_in_In db CSpace ws2).
  - intros t' E. destruct ws2 as [|c ws2]; [discriminate|].
    injection E as -> _. apply all_in_In with (c := 44) in Hw2; [|now left].
    apply space_not_mark in Hw2. lia.
Qed.

(** The two-month pattern fails on a single-month range: after the hyphen
    it finds a digit where it needs a letter. *)
Lemma two_months_fails_on_single (A : Type) x rest pv caps
      (k : option Z -> str -> list str -> option A) :
  md_wf db x ->
  m db A false pat_two_months pv (md_text x ++ rest) caps k = None.
Proof.
  intros (Hm0 & Hm & Hw0 & Hw1 & Hd1 & Hl1 & Hw2 & Hw3 & Hd2 & Hl2 & Hw4 & Hy & Hly).
  destruct x as [mon ws1 d1 ws2 ws3 d2 ws4 yyyy]. unfold md_text.
  cbn [md_mon md_ws1 md_d1 md_ws2 md_ws3 md_d2 md_ws4 md_yyyy] in *.
  change pat_two_months
    with (cat (seg_word ++ seg_day_hyphen ++ seg_word ++ seg_day_year)).
  rewrite <- !app_assoc. cbn [app]. rewrite m_cat_app.
  rewrite seg_word_match; try assumption;
    [|apply stops_space_digits; [assumption|lia]|intros ? ? ? ? ?; apply fails_day; assumption].
  rewrite m_cat_app.
  rewrite seg_day_hyphen_match; try assumption;
    [|apply stops_space_digits; [assumption|lia]|intros ? ? ? ? ?; apply fails_word; assumption].
  destruct d2 as [|c d2]; [cbn in Hl2; lia|]. cbn [app].
  apply first_word_fail.
  apply (digit_not_alpha db apart). apply (all_in_In db CDigit (c :: d2)); [assumption|now left].
Qed.
End Patterns.

Section WholeTexts.
Variable db : unicode_db.
Hypothesis apart : digits_apart db.

Lemma eol_fails (A : Type) suffix pv caps
      (k : option Z -> str -> list str -> option A) :
  suffix <> [] -> all_in db CDot suffix ->
  m db A false Eol pv suffix caps k = None.
Proof.
  destruct suffix as [|c suffix]; [congruence|].
  intros _ H. apply all_in_In with (c := c) in H; [|now left].
  cbn [in_cls] in H. apply negb_true_iff, Z.eqb_neq in H. cbn [m].
  destruct c as [|q|q]; try reflexivity.
  repeat (destruct q as [q|q|]; try reflexivity). congruence.
Qed.

Lemma fullmatch_one_month x :
  md_wf db x ->
  exists mo, re_fullmatch db pat_one_month (md_text x) = Some mo /\
             m_groups mo = md_groups x.
Proof.
  intros H. unfold re_fullmatch, pat_one_month.
  pose proof (single_month_run db apart match_obj x [] None []) as E.
  rewrite app_nil_r in E. rewrite E by assumption.
  eexists. split; reflexivity.
Qed.

Lemma fullmatch_two_months x :
  ms_wf db x ->
  exists mo, re_fullmatch db pat_two_months (ms_text x) = Some mo /\
             m_groups mo = ms_groups x.
Proof.
  intros H. unfold re_fullmatch.
  pose proof (two_months_run db apart match_obj x [] None []) as E.
  rewrite app_nil_r in E. rewrite E by assumption.
  eexists. split; reflexivity.
Qed.

Lemma fullmatch_bare_date x :
  bd_wf db x ->
  exists mo, re_fullmatch db pat_month_day_year (bd_text x) = Some mo.
Proof.
  intros H. unfold re_fullmatch.
  pose proof (bare_date_run db apart match_obj x [] None []) as E.
  rewrite app_nil_r in E. rewrite E by assumption.
  eexists. reflexivity.
Qed.

Lemma bare_date_not_single_month x :
  md_wf db x -> re_fullmatch db pat_month_day_year (md_text x) = None.
Proof.
  intros (Hm0 & Hm & Hw0 & Hw1 & Hd1 & Hl1 & Hw2 & _).
  unfold re_fullmatch, md_text. cbn [app].
  now apply (bare_date_fails_on_range db apart).
Qed.

Lemma bare_date_not_two_months x :
  ms_wf db x -> re_fullmatch db pat_month_day_year (ms_text x) = None.
Proof.
  intros (Hm0 & Hm & Hw0 & Hw1 & Hd1 & Hl1 & Hw2 & _).
  unfold re_fullmatch, ms_text. cbn [app].
  now apply (bare_date_fails_on_range db apart).
Qed.

Lemma two_months_not_single_month x :
  md_wf db x -> re_fullmatch db pat_two_months (md_text x) = None.
Proof.
  intros H. unfold re_fullmatch.
  pose proof (two_months_fails_on_single db apart match_obj x [] None []) as E.
  rewrite app_nil_r in E. now apply E.
Qed.

Lemma match_range_exact x :
  md_wf db x ->
  exists mo, re_match db false pat_range_exact (md_text x) = Some mo /\
             m_groups mo = md_groups x.
Proof.
  intros H. unfold re_match, match_at, pat_range_exact.
  rewrite m_cat_cons. cbn [m]. rewrite m_cat_app.
  pose proof (single_month_run db apart match_obj x [] None []) as E.
  rewrite app_nil_r in E. rewrite E by assumption.
  eexists. split; reflexivity.
Qed.

Lemma match_range_exact_suffix x suffix :
  md_wf db x -> suffix <> [] -> all_in db CDot suffix ->
  re_match db false pat_range_exact (md_text x ++ suffix) = None.
Proof.
  intros H Hs Hdot. unfold re_match, match_at, pat_range_exact.
  rewrite m_cat_cons. cbn [m]. rewrite m_cat_app.
  rewrite (single_month_run db apart) by assumption.
  now apply eol_fails.
Qed.

Lemma match_range_suffix x suffix :
  md_wf db x -> all_in db CDot suffix ->
  exists mo, re_match db false pat_range_suffix (md_text x ++ suffix) = Some mo /\
             m_groups mo = md_groups x.
Proof.
  intros H Hdot. unfold re_match, match_at, pat_range_suffix.
  rewrite m_cat_cons. cbn [m]. rewrite m_cat_app.
  rewrite (single_month_run db apart) by assumption.
  unfold star. cbn [cat m].
  pose proof (rep_det db match_obj CDot suffix 0 None
                (last_char (md_yyyy x) None) []) as E.
  rewrite app_nil_r in E. rewrite E; clear E;
    [|assumption|lia|exact I|right; exact I|].
  - eexists. split; reflexivity.
  - intros run1 c run2 E Hc _. rewrite app_nil_r.
    cbn [in_cls] in Hc. apply negb_true_iff, Z.eqb_neq in Hc.
    destruct c as [|q|q]; try reflexivity.
    repeat (destruct q as [q|q|]; try reflexivity). congruence.
Qed.

(** [int] of a text of digits does not raise. *)
Lemma py_int_digits (t : str) :
  t <> [] -> all_in db CDigit t -> exists n, py_int db t = Ok n.
Proof.
  intros Hne Hall. unfold py_int. destruct t as [|c t]; [congruence|].
  clear Hne. generalize 0 as acc. revert Hall. generalize (c :: t) as u.
  induction u as [|x u IH]; intros Hall acc; cbn [int_loop]; [eauto|].
  inversion Hall as [|? ? Hx Hu]; subst. cbn [in_cls] in Hx. unfold is_digit in Hx.
  destruct (decimal db x); [apply IH; exact Hu|discriminate].
Qed.
End WholeTexts.

(** ** Normalized text *)

Section Normalize.
Variable db : unicode_db.

Lemma rep_sound (A : Type) p : forall t lo hi pv (k : option Z -> str -> option A) r,
  rep db A p lo hi pv t k = Some r ->
  exists run t', t = run ++ t' /\ (lo <= length run)%nat /\
                 k (last_char run pv) t' = Some r.
Proof.
  induction t as [|c t IH]; intros lo hi pv k r; cbn [rep].
  - destruct lo; [|discriminate]. intros H. exists [], []. auto.
  - assert (Hstop : match lo with O => k pv (c :: t) | S _ => None end = Some r ->
                    exists run t', c :: t = run ++ t' /\ (lo <= length run)%nat /\
                                   k (last_char run pv) t' = Some r).
    { destruct lo; [|discriminate]. intros H. exists [], (c :: t). auto. }
    destruct (in_cls db p c && more hi); [|exact Hstop].
    destruct (rep db A p (pred lo) (option_map pred hi) (Some c) t k) as [r'|] eqn:E;
      [|exact Hstop].
    intros [= <-]. apply IH in E. destruct E as [run [t' [-> [Hl Hk]]]].
    exists (c :: run), t'. split; [reflexivity|]. split; [cbn; lia|].
    now rewrite <- (last_char_cons c run pv).
Qed.

Lemma rep_zero_total (A : Type) p : forall t hi pv (k : option Z -> str -> option A),
  (forall pv' t', k pv' t' <> None) -> rep db A p 0 hi pv t k <> None.
Proof.
  induction t as [|c t IH]; intros hi pv k Hk; cbn [rep]; [apply Hk|].
  destruct (in_cls db p c && more hi); [|apply Hk].
  destruct (rep db A p (pred 0) (option_map pred hi) (Some c) t k);
    [discriminate|apply Hk].
Qed.

Lemma match_spaces_some before pv t mo :
  match_at db false (plus CSpace) before pv t = Some mo ->
  m_before mo = before /\ t = m_text mo ++ m_after mo /\ m_text mo <> [].
Proof.
  unfold match_at, plus. cbn [m]. intros H. apply rep_sound in H.
  destruct H as [run [t' [-> [Hl [= <-]]]]]. cbn [m_before m_text m_after].
  rewrite firstn_consumed. split; [reflexivity|]. split; [reflexivity|].
  apply nonempty_length. lia.
Qed.

Lemma match_spaces_none before pv c t :
  match_at db false (plus CSpace) before pv (c :: t) = None -> is_space c = false.
Proof.
  unfold match_at, plus. cbn [m rep in_cls more andb]. intros H.
  destruct (is_space c) eqn:E; [|reflexivity]. exfalso. cbn [andb] in H.
  match type of H with
  | match ?x with _ => _ end = None => destruct x eqn:E'; [discriminate|]
  end.
  revert E'. apply rep_zero_total. discriminate.
Qed.

Lemma search_spaces_some t : forall br pv mo,
  search_from db false (plus CSpace) br pv t = Some mo ->
  exists skipped,
    Forall (fun c => is_space c = false) skipped /\
    m_before mo = rev br ++ skipped /\
    t = skipped ++ m_text mo ++ m_after mo /\ m_text mo <> [].
Proof.
  induction t as [|c t IH]; intros br pv mo; cbn [search_from].
  - destruct (match_at db false (plus CSpace) (rev br) pv []) as [mo'|] eqn:E;
      [|discriminate].
    intros [= <-]. apply match_spaces_some in E. destruct E as [E1 [E2 E3]].
    exists []. rewrite app_nil_r. auto.
  - destruct (match_at db false (plus CSpace) (rev br) pv (c :: t)) as [mo'|] eqn:E.
    + intros [= <-]. apply match_spaces_some in E. destruct E as [E1 [E2 E3]].
      exists []. rewrite app_nil_r. auto.
    + apply match_spaces_none in E. intros H. apply IH in H.
      destruct H as [sk [Hsk [Hb [Ht Hne]]]]. exists (c :: sk).
      split; [constructor; assumption|]. split.
      * rewrite Hb. cbn [rev]. now rewrite <- app_assoc.
      * split; [cbn; now rewrite <- Ht|exact Hne].
Qed.

Lemma search_spaces_none t : forall br pv,
  search_from db false (plus CSpace) br pv t = None ->
  Forall (fun c => is_space c = false) t.
Proof.
  induction t as [|c t IH]; intros br pv; cbn [search_from]; [constructor|].
  destruct (match_at db false (plus CSpace) (rev br) pv (c :: t)) eqn:E;
    [discriminate|].
  intros H. constructor; [now apply match_spaces_none in E|now apply IH in H].
Qed.

Lemma sub_spaces_tidy fuel : forall pv t,
  (length t < fuel)%nat ->
  Forall tidy (sub_from db fuel (plus CSpace) (s " ") pv t).
Proof.
  induction fuel as [|fuel IH]; intros pv t Hl; [lia|]. cbn [sub_from].
  destruct (search_from db false (plus CSpace) [] pv t) as [mo|] eqn:E.
  - apply search_spaces_some in E. destruct E as [sk [Hsk [Hb [Ht Hne]]]].
    cbn [rev app] in Hb. rewrite Hb.
    apply Forall_app. split.
    { eapply Forall_impl; [|exact Hsk]. intros c Hc. now left. }
    apply Forall_app. split; [repeat constructor; now right|].
    destruct (m_text mo) as [|x tx] eqn:Etx; [congruence|].
    apply IH. rewrite Ht, !length_app in Hl. cbn [length] in Hl. lia.
  - apply search_spaces_none in E.
    eapply Forall_impl; [|exact E]. intros c Hc. now left.
Qed.

Lemma Forall_lstrip (P : Z -> Prop) t : Forall P t -> Forall P (lstrip t).
Proof.
  induction 1 as [|c t Hc Ht IH]; cbn [lstrip]; [constructor|].
  destruct (is_space c); [exact IH|now constructor].
Qed.

Lemma Forall_strip (P : Z -> Prop) t : Forall P t -> Forall P (strip t).
Proof.
  intros H. unfold strip, rstrip.
  apply Forall_rev, Forall_lstrip, Forall_rev, Forall_lstrip, H.
Qed.

(** A normalized text holds no whitespace but plain spaces; in
    particular it holds no newline. *)
Lemma normalize_tidy t : Forall tidy (normalize_whitespace db t).
Proof.
  unfold normalize_whitespace, re_sub. apply Forall_strip, sub_spaces_tidy. lia.
Qed.

Lemma tidy_dot (t : str) : Forall tidy t -> all_in db CDot t.
Proof.
  intros H. eapply Forall_impl; [|exact H]. intros c [Hc| ->]; [|reflexivity].
  cbn [in_cls]. apply negb_true_iff, Z.eqb_neq. intros ->. discriminate.
Qed.

Lemma range_text_suffix_dot text (a suffix : str) :
  range_text db text = a ++ suffix -> all_in db CDot suffix.
Proof.
  intros E. apply tidy_dot.
  pose proof (normalize_tidy (replace_char en_dash (s "-") text)) as H.
  unfold range_text in E. cbv zeta in E. rewrite E in H.
  apply Forall_app in H. tauto.
Qed.
End Normalize.

(** ** The date patterns on texts of the grammar *)

Lemma ascii_db_apart : digits_apart ascii_db.
Proof.
  intros c H. unfold is_digit in H. cbn [decimal ascii_db] in H.
  destruct ((48 <=? c) && (c <=? 57)) eqn:E; [|discriminate].
  apply andb_true_iff in E. rewrite !Z.leb_le in E.
  split; [|split; [|lia]].
  - unfold is_space.
    repeat (apply orb_false_iff; split);
      try (apply andb_false_iff; rewrite !Z.leb_gt; lia);
      apply Z.eqb_neq; lia.
  - cbn [in_cls alpha]. apply orb_false_iff.
    split; apply andb_false_iff; rewrite !Z.leb_gt; lia.
Qed.

(** C3, as amended.  When the normalized text is [Month D1-D2, YYYY],
    with or without something after the year, [parse_range] hands
    [Month D1, YYYY] and [Month D2, YYYY] to the date converter; when the
    converter reads them as day [D1] and day [D2] of one month of year
    [YYYY], these two dates are the start and the end of the range, which
    therefore share month and year, and the start is not after the end
    exactly when [D1 <= D2]. *)
Theorem parse_range_single_month db dateutil_parse today (text : str)
        x (suffix : str) d1 d2 yyyy mn :
  digits_apart db ->
  md_wf db x ->
  range_text db text = md_text x ++ suffix ->
  py_int db (md_d1 x) = Ok d1 ->
  py_int db (md_d2 x) = Ok d2 ->
  py_int db (md_yyyy x) = Ok yyyy ->
  valid_ymd yyyy mn d1 = true ->
  valid_ymd yyyy mn d2 = true ->
  dateutil_parse today false (fmt_mdy (md_mon x) d1 yyyy)
    = Ok (ymd2ord yyyy mn d1) ->
  dateutil_parse today false (fmt_mdy (md_mon x) d2 yyyy)
    = Ok (ymd2ord yyyy mn d2) ->
  exists r,
    parse_range db dateutil_parse today text = Ok r /\
    start r = ymd2ord yyyy mn d1 /\ end_ r = ymd2ord yyyy mn d2 /\
    month (start r) = month (end_ r) /\ year (start r) = year (end_ r) /\
    (ordered r <-> d1 <= d2).
Proof.
  intros Hdb Hx Etext H1 H2 H3 Hv1 Hv2 Ha Hb.
  pose proof (range_text_suffix_dot db text _ _ Etext) as Hdot.
  assert (Hmatch : exists mo,
             m_groups mo = md_groups x /\
             (re_match db false pat_range_exact (range_text db text) = Some mo \/
              (re_match db false pat_range_exact (range_text db text) = None /\
               re_match db false pat_range_suffix (range_text db text) = Some mo))).
  { rewrite Etext. destruct suffix as [|c suffix].
    - rewrite app_nil_r.
      destruct (match_range_exact db Hdb x Hx) as [mo [E G]]. eauto.
    - destruct (match_range_suffix db Hdb x (c :: suffix) Hx Hdot) as [mo [E G]].
      exists mo. split; [exact G|]. right. split; [|exact E].
      apply match_range_exact_suffix; [assumption..|discriminate|assumption]. }
  destruct Hmatch as [mo [G Hmatch]].
  apply (parse_range_on_match db dateutil_parse today text mo d1 d2 yyyy mn);
    try assumption; unfold group; rewrite G; assumption.
Qed.

(** The example of the specification: "October 11-14, 2025". *)
Lemma parse_range_single_month_witness :
  exists r,
    parse_range ascii_db month_day_year_converter day0 (s "October 11-14, 2025")
      = Ok r /\
    start r = ymd2ord 2025 10 11 /\ end_ r = ymd2ord 2025 10 14 /\
    month (start r) = month (end_ r) /\ year (start r) = year (end_ r) /\
    (ordered r <-> 11 <= 14).
Proof.
  apply (parse_range_single_month ascii_db month_day_year_converter day0
           (s "October 11-14, 2025") october_11_14 [] 11 14 2025 10).
  - exact ascii_db_apart.
  - unfold md_wf, all_in. cbn.
    repeat split; try discriminate; try lia; repeat constructor.
  - vm_compute. reflexivity.
  - reflexivity.
  - reflexivity.
  - reflexivity.
  - reflexivity.
  - reflexivity.
  - vm_compute. reflexivity.
  - vm_compute. reflexivity.
Defined.

(** C2.  On a captured line, with the leading [FULL] and the separators
    stripped: (a) a bare [Month D, YYYY] is handed to the converter as it
    is; (b) of a two-month range the converter is given the second month,
    the second day and the year; (c) of a single-month range it is given
    the month, the second day and the year; (d) when none of the three
    patterns matches, the last [Month D, YYYY] found in the line is handed
    to the converter; (e) and when there is none the result is [None], no
    exception.  No line, or an empty one, gives [None] too. *)
Theorem full_line_end_date db dateutil_parse today (line : str) :
  digits_apart db ->
  line <> [] ->
  let rest := full_line_rest db line in
  let out := extract_end_date_from_full_line db dateutil_parse today (Some line) in
  (forall x, bd_wf db x -> rest = bd_text x ->
     out = (d <- parse_month_day_year dateutil_parse today rest ;; Ok (Some d))) /\
  (forall x day y,
     ms_wf db x -> rest = ms_text x ->
     py_int db (ms_d2 x) = Ok day -> py_int db (ms_yyyy x) = Ok y ->
     out = (d <- dateutil_parse today false (fmt_mdy (ms_mon2 x) day y) ;;
            Ok (Some d))) /\
  (forall x day y,
     md_wf db x -> rest = md_text x ->
     py_int db (md_d2 x) = Ok day -> py_int db (md_yyyy x) = Ok y ->
     out = (d <- dateutil_parse today false (fmt_mdy (md_mon x) day y) ;;
            Ok (Some d))) /\
  (re_fullmatch db pat_month_day_year rest = None ->
   re_fullmatch db pat_two_months rest = None ->
   re_fullmatch db pat_one_month rest = None ->
   forall c cs, re_findall db pat_month_day_year rest = c :: cs ->
   out = (d <- parse_month_day_year dateutil_parse today (last (c :: cs) []) ;;
          Ok (Some d))) /\
  (re_fullmatch db pat_month_day_year rest = None ->
   re_fullmatch db pat_two_months rest = None ->
   re_fullmatch db pat_one_month rest = None ->
   re_findall db pat_month_day_year rest = [] ->
   out = Ok None) /\
  extract_end_date_from_full_line db dateutil_parse today None = Ok None /\
  extract_end_date_from_full_line db dateutil_parse today (Some []) = Ok None.
Proof.
  intros Hdb Hne rest out.
  destruct (full_line_cascade db dateutil_parse today line Hne)
    as (Ca & Cb & Cc & Cd & Ce & Cn & Cm).
  fold rest in Ca, Cb, Cc, Cd, Ce. fold out in Ca, Cb, Cc, Cd, Ce.
  split; [|split; [|split; [|repeat split; assumption]]].
  - intros x Hx E. apply Ca. rewrite E.
    destruct (fullmatch_bare_date db Hdb x Hx) as [mo ->]. discriminate.
  - intros x day y Hx E Hd Hy.
    destruct (fullmatch_two_months db Hdb x Hx) as [mo [Em G]].
    rewrite (Cb ltac:(rewrite E; now apply bare_date_not_two_months) mo
                ltac:(now rewrite E)).
    unfold group. rewrite G. cbn [nth ms_groups]. rewrite Hd, Hy. reflexivity.
  - intros x day y Hx E Hd Hy.
    destruct (fullmatch_one_month db Hdb x Hx) as [mo [Em G]].
    rewrite (Cc ltac:(rewrite E; now apply bare_date_not_single_month)
                ltac:(rewrite E; now apply two_months_not_single_month) mo
                ltac:(now rewrite E)).
    unfold group. rewrite G. cbn [nth md_groups]. rewrite Hd, Hy. reflexivity.
Qed.

(** The two lines of the specification. *)
Lemma full_line_end_date_witness :
  extract_end_date_from_full_line ascii_db month_day_year_converter day0
    (Some (s "FULL  -  January 20 - February 2, 2026"))
  = Ok (Some (ymd2ord 2026 2 2)) /\
  extract_end_date_from_full_line ascii_db month_day_year_converter day0
    (Some (s "FULL - March 16-29, 2026"))
  = Ok (Some (ymd2ord 2026 3 29)).
Proof.
  split.
  - destruct (full_line_end_date ascii_db month_day_year_converter day0
                (s "FULL  -  January 20 - February 2, 2026") ascii_db_apart)
      as [_ [Hb _]]; [discriminate|].
    rewrite (Hb january_20_february_2 2 2026).
    + vm_compute. reflexivity.
    + unfold ms_wf, all_in. cbn.
      repeat split; try discriminate; try lia; repeat constructor.
    + vm_compute. reflexivity.
    + reflexivity.
    + reflexivity.
  - destruct (full_line_end_date ascii_db month_day_year_converter day0
                (s "FULL - March 16-29, 2026") ascii_db_apart)
      as [_ [_ [Hc _]]]; [discriminate|].
    rewrite (Hc march_16_29 29 2026).
    + vm_compute. reflexivity.
    + unfold md_wf, all_in. cbn.
      repeat split; try discriminate; try lia; repeat constructor.
    + vm_compute. reflexivity.
    + reflexivity.
    + reflexivity.
Defined.

(** A bare date is not a range: after the day the single-month patterns
    need a hyphen and find the comma. *)
Lemma single_month_fails_on_bare_date db (A : Type) x rest pv caps
      (k : option Z -> str -> list str -> option A) :
  digits_apart db -> bd_wf db x ->
  m db A false (cat single_month_items) pv (bd_text x ++ rest) caps k = None.
Proof.
  intros Hdb (Hm0 & Hm & Hw0 & Hw1 & Hd & Hl & Hw2 & Hy & Hly).
  destruct x as [mon ws1 d ws2 yyyy]. unfold bd_text.
  cbn [bd_mon bd_ws1 bd_d bd_ws2 bd_yyyy] in *.
  change (cat single_month_items)
    with (cat (seg_word ++ seg_day_hyphen ++ seg_day_year)).
  rewrite <- !app_assoc. cbn [app]. rewrite m_cat_app.
  rewrite (seg_word_match db); try assumption;
    [|apply (stops_space_digits db Hdb); [assumption|lia]
     |intros ? ? ? ? ?; apply (fails_day db Hdb); assumption].
  rewrite m_cat_app. unfold seg_day_hyphen, star, between. cbn [cat m].
  rewrite rep_det; [|assumption|lia|lia| |].
  - rewrite rep_skip by reflexivity. apply lit_mismatch. discriminate.
  - right. cbn. apply (mark_not_digit db Hdb).
  - intros run1 c run2 E Hc _. cbn [app].
    rewrite rep_skip by (cbn; now apply (digit_not_space db Hdb)).
    apply lit_mismatch. exact (proj1 (digit_not_mark db Hdb c Hc)).
Qed.

(** So a text whose normalized form starts with [Month D, YYYY] is read
    as a single date, whatever follows the year. *)
Lemma parse_range_bare_date db dateutil_parse today (text : str) x (suffix : str) :
  digits_apart db -> bd_wf db x ->
  range_text db text = bd_text x ++ suffix ->
  re_match db false pat_range_exact (range_text db text) = None /\
  re_match db false pat_range_suffix (range_text db text) = None /\
  parse_range db dateutil_parse today text =
  (d <- parse_month_day_year dateutil_parse today (range_text db text) ;;
   Ok (mkDateRange d d)).
Proof.
  intros Hdb Hx E.
  assert (H1 : re_match db false pat_range_exact (range_text db text) = None).
  { rewrite E. unfold re_match, match_at, pat_range_exact.
    rewrite m_cat_cons. cbn [m]. rewrite m_cat_app.
    now apply single_month_fails_on_bare_date. }
  assert (H2 : re_match db false pat_range_suffix (range_text db text) = None).
  { rewrite E. unfold re_match, match_at, pat_range_suffix.
    rewrite m_cat_cons. cbn [m]. rewrite m_cat_app.
    now apply single_month_fails_on_bare_date. }
  split; [exact H1|]. split; [exact H2|]. now apply parse_range_fallback.
Qed.
(** ** More on dates and ranges *)

Lemma daterange_loop_overflow fuel : forall cur acc,
  1 <= cur <= MAXORDINAL -> (Z.to_nat (MAXORDINAL - cur + 1) <= fuel)%nat ->
  daterange_loop fuel cur MAXORDINAL acc = Raise OverflowError.
Proof.
  induction fuel as [|fuel IH]; intros cur acc Hc Hf; [lia|].
  cbn [daterange_loop].
  destruct (Z.leb_spec cur MAXORDINAL) as [_|Hgt]; [|lia].
  destruct (Z.eq_dec cur MAXORDINAL) as [->|Hne].
  - reflexivity.
  - rewrite add_days_in_range by lia. cbn [bind]. apply IH; lia.
Qed.

(** The generator [daterange_inclusive] yields the days from [a] to [b] in
    increasing order, none when [b] is before [a]; a run that reaches
    [date.max] yields it and then raises [OverflowError], when the
    generator steps past it. *)
Theorem daterange_inclusive_days a b :
  valid_date a -> valid_date b ->
  (b < MAXORDINAL ->
   daterange_inclusive a b = Ok (zrange a b) /\
   (forall d, In d (zrange a b) <-> a <= d <= b) /\
   StronglySorted Z.lt (zrange a b)) /\
  (b < a -> daterange_inclusive a b = Ok []) /\
  (a <= b -> b = MAXORDINAL -> daterange_inclusive a b = Raise OverflowError).
Proof.
  unfold valid_date. intros Ha Hb. split; [|split].
  - intros Hmax. split; [apply daterange_inclusive_total; lia|].
    split; [intros d; apply in_zrange|].
    unfold zrange. generalize (Z.to_nat (b - a + 1)) as k. intros k.
    assert (G : forall k o, StronglySorted Z.lt
                  (map (fun i => a + Z.of_nat i) (seq o k))).
    { clear. induction k as [|k IH]; intros o; cbn [seq map]; constructor.
      - apply IH.
      - apply Forall_forall. intros x Hx. apply in_map_iff in Hx.
        destruct Hx as [i [<- Hi]]. apply in_seq in Hi. lia. }
    apply G.
  - intros Hlt. destruct (Z.eq_dec b MAXORDINAL) as [E|E].
    + unfold daterange_inclusive.
      replace (Z.to_nat (b - a + 1)) with O by lia. cbn [daterange_loop].
      destruct (Z.leb_spec a b); [lia|reflexivity].
    + rewrite daterange_inclusive_total by lia. now rewrite zrange_nil.
  - intros Hle ->. unfold daterange_inclusive.
    apply daterange_loop_overflow; lia.
Qed.

Lemma daterange_inclusive_days_witness :
  daterange_inclusive (ymd2ord 2025 8 30) (ymd2ord 2025 9 1)
  = Ok [ymd2ord 2025 8 30; ymd2ord 2025 8 31; ymd2ord 2025 9 1].
Proof.
  destruct (daterange_inclusive_days (ymd2ord 2025 8 30) (ymd2ord 2025 9 1))
    as [H _].
  - unfold valid_date. vm_compute. split; discriminate.
  - unfold valid_date. vm_compute. split; discriminate.
  - destruct H as [H _]; [vm_compute; reflexivity|]. rewrite H.
    vm_compute. reflexivity.
Defined.

(** [monday_of_week] never raises on a date: [date.min] is a Monday
    itself.  It returns the Monday of the calendar week of [d], at most six
    days back, and a Monday is its own Monday. *)
Theorem monday_of_week_monday d :
  valid_date d ->
  exists mon,
    monday_of_week d = Ok mon /\ valid_date mon /\ weekday mon = 0 /\
    mon <= d <= mon + 6 /\ monday_of_week mon = Ok mon.
Proof.
  intros Hd. destruct (monday_of_week_ok d Hd) as [E Hr].
  exists (d - weekday d). unfold valid_date in *.
  assert (Hw : 0 <= weekday d < 7) by (apply Z.mod_pos_bound; lia).
  assert (Hm : weekday (d - weekday d) = 0).
  { unfold weekday.
    replace (d - (d + 6) mod 7 + 6) with (d + 6 - (d + 6) mod 7) by lia.
    rewrite Zminus_mod, Z.mod_mod, Z.sub_diag by lia. reflexivity. }
  split; [exact E|]. split; [lia|]. split; [exact Hm|]. split; [lia|].
  destruct (monday_of_week_ok (d - weekday d)) as [E' _]; [unfold valid_date; lia|].
  rewrite E', Hm. f_equal. lia.
Qed.

(** Wednesday 3 December 2025. *)
Lemma monday_of_week_monday_witness :
  exists mon,
    monday_of_week (ymd2ord 2025 12 3) = Ok mon /\ valid_date mon /\
    weekday mon = 0 /\ mon <= ymd2ord 2025 12 3 <= mon + 6 /\
    monday_of_week mon = Ok mon.
Proof.
  apply (monday_of_week_monday (ymd2ord 2025 12 3)).
  unfold valid_date. vm_compute. split; discriminate.
Defined.

(** ** More on the week segmenter *)

Lemma mondays_mem k : forall mon i,
  0 <= i < Z.of_nat k -> In (mon + 7 * i) (mondays k mon).
Proof.
  induction k as [|k IH]; intros mon i Hi; [lia|].
  cbn [mondays]. destruct (Z.eq_dec i 0) as [->|Hz].
  - left. lia.
  - right. replace (mon + 7 * i) with (mon + 7 + 7 * (i - 1)) by lia.
    apply IH. lia.
Qed.

Lemma label_weeks_event ws : forall n e,
  In e (label_weeks n ws) ->
  exists d ds, In (d :: ds) ws /\
               event_start e = d /\ event_end e = last (d :: ds) d.
Proof.
  induction ws as [|w ws IH]; intros n e; cbn [label_weeks]; [intros []|].
  destruct w as [|d ds].
  - intros H. apply IH in H. destruct H as [d [ds [Hw H]]].
    exists d, ds. split; [now right|exact H].
  - intros [<-|H].
    + exists d, ds. split; [now left|]. split; reflexivity.
    + apply IH in H. destruct H as [d' [ds' [Hw H]]].
      exists d', ds'. split; [now right|exact H].
Qed.

Lemma label_weeks_of_week ws : forall n d ds,
  In (d :: ds) ws ->
  exists e, In e (label_weeks n ws) /\
            event_start e = d /\ event_end e = last (d :: ds) d.
Proof.
  induction ws as [|w ws IH]; intros n d ds; [intros []|].
  intros [->|H].
  - cbn [label_weeks]. eexists. split; [left; reflexivity|].
    split; reflexivity.
  - destruct w as [|d' ds']; cbn [label_weeks].
    + apply IH. exact H.
    + destruct (IH (n + 1) d ds H) as [e [He Hx]].
      exists e. split; [now right|exact Hx].
Qed.

Lemma sorted_filter (p : Z -> bool) l :
  StronglySorted Z.lt l -> StronglySorted Z.lt (filter p l).
Proof.
  induction 1 as [|a l Hs IH Hf]; cbn [filter]; [constructor|].
  destruct (p a); [|exact IH]. constructor; [exact IH|].
  apply Forall_forall. intros x Hx. apply filter_In in Hx.
  rewrite Forall_forall in Hf. apply Hf. tauto.
Qed.

Lemma sorted_last l : forall d x,
  StronglySorted Z.lt (d :: l) -> In x (d :: l) -> d <= x <= last (d :: l) d.
Proof.
  induction l as [|a l IH]; intros d x Hs Hx.
  - destruct Hx as [<-|[]]. cbn. lia.
  - inversion Hs as [|? ? Hs' Hf]; subst.
    rewrite Forall_forall in Hf.
    change (last (d :: a :: l) d) with (last (a :: l) d).
    rewrite (last_default (a :: l) d a) by discriminate.
    assert (Ha : d < a) by (apply Hf; now left).
    destruct Hx as [<-|Hx].
    + pose proof (IH a a Hs' (or_introl eq_refl)). lia.
    + pose proof (IH a x Hs' Hx). lia.
Qed.

Lemma zrange_sorted lo hi : StronglySorted Z.lt (zrange lo hi).
Proof.
  unfold zrange. generalize (Z.to_nat (hi - lo + 1)) as k. intros k.
  generalize 0%nat as o. induction k as [|k IH]; intros o; cbn [seq map];
    constructor; [apply IH|].
  apply Forall_forall. intros x Hx. apply in_map_iff in Hx.
  destruct Hx as [i [<- Hi]]. apply in_seq in Hi. lia.
Qed.

Lemma monday_floor d : d - weekday d = 7 * ((d + 6) / 7) - 6.
Proof.
  unfold weekday. pose proof (Z.div_mod (d + 6) 7 ltac:(lia)). lia.
Qed.

Lemma term_mondays_mem first_class last_class d :
  first_class <= d <= last_class ->
  In (d - weekday d) (term_mondays first_class last_class).
Proof.
  intros Hd. unfold term_mondays, week_count.
  rewrite !monday_floor.
  set (qf := (first_class + 6) / 7). set (ql := (last_class + 6) / 7).
  set (qd := (d + 6) / 7).
  assert (qf <= qd) by (apply Z.div_le_mono; lia).
  assert (qd <= ql) by (apply Z.div_le_mono; lia).
  replace (7 * ql - 6 - (7 * qf - 6)) with ((ql - qf) * 7) by lia.
  rewrite Z.div_mul by lia.
  replace (7 * qd - 6) with (7 * qf - 6 + 7 * (qd - qf)) by lia.
  apply mondays_mem. lia.
Qed.

Lemma before_unique (l : list event) :
  StronglySorted before l ->
  Forall (fun e => event_start e <= event_end e) l ->
  forall e e' d, In e l -> In e' l ->
    event_start e <= d <= event_end e ->
    event_start e' <= d <= event_end e' -> e' = e.
Proof.
  induction 1 as [|a l Hs IH Hf]; intros Ho e e' d He He' Hd Hd'; [destruct He|].
  rewrite Forall_forall in Hf. inversion Ho as [|? ? Ha Ho']; subst.
  destruct He as [<-|He], He' as [<-|He'].
  - reflexivity.
  - apply Hf in He'. unfold before in He'. lia.
  - apply Hf in He. unfold before in He. lia.
  - now apply (IH Ho' e e' d).
Qed.

Lemma events_inside first_class last_class blackout_ranges e :
  In e (label_weeks 1 (term_weeks first_class last_class blackout_ranges)) ->
  instructional blackout_ranges (event_start e) = true /\
  instructional blackout_ranges (event_end e) = true /\
  first_class <= event_start e /\ event_start e <= event_end e /\
  event_end e <= last_class /\
  exists mon, weekday mon = 0 /\
              mon <= event_start e /\ event_end e <= mon + 4.
Proof.
  intros He. apply label_weeks_event in He.
  destruct He as [d [ds [Hw [Es Ee]]]].
  unfold term_weeks in Hw. apply in_map_iff in Hw.
  destruct Hw as [mon [Hw Hmon]].
  pose proof (week_days_ends _ _ _ _ _ _ Hw) as [H1 [H2 H3]].
  assert (Hd : In d (week_days first_class last_class blackout_ranges mon))
    by (rewrite Hw; now left).
  assert (Hl : In (last (d :: ds) d)
                  (week_days first_class last_class blackout_ranges mon))
    by (rewrite Hw; apply last_in; discriminate).
  apply week_days_in in Hd, Hl. rewrite Es, Ee.
  destruct Hd as [Hd1 [Hd2 _]]. destruct Hl as [Hl1 [Hl2 _]].
  repeat split; try assumption; try lia.
  exists mon. split; [now apply (term_mondays_weekday first_class last_class)|].
  lia.
Qed.

(** Every event of the segmenter starts and ends on an instructional day
    of the term and stays within the Monday-to-Friday days of one calendar
    week; every instructional day of the term lies in one event, and in one
    only.  A term whose last day is before its first day has no event. *)
Theorem week_events_cover first_class last_class blackout_ranges out :
  instructional_week_events first_class last_class blackout_ranges = Ok out ->
  (forall e, In e out ->
     instructional blackout_ranges (event_start e) = true /\
     instructional blackout_ranges (event_end e) = true /\
     first_class <= event_start e /\ event_start e <= event_end e /\
     event_end e <= last_class /\
     exists mon, weekday mon = 0 /\
                 mon <= event_start e /\ event_end e <= mon + 4) /\
  (forall d, first_class <= d <= last_class ->
     instructional blackout_ranges d = true ->
     exists e, In e out /\ event_start e <= d <= event_end e /\
               forall e', In e' out ->
                          event_start e' <= d <= event_end e' -> e' = e) /\
  (last_class < first_class -> out = []).
Proof.
  intros H. apply segmenter_sound in H. subst out.
  assert (Hev : forall e,
    In e (label_weeks 1 (term_weeks first_class last_class blackout_ranges)) ->
    instructional blackout_ranges (event_start e) = true /\
    instructional blackout_ranges (event_end e) = true /\
    first_class <= event_start e /\ event_start e <= event_end e /\
    event_end e <= last_class /\
    exists mon, weekday mon = 0 /\
                mon <= event_start e /\ event_end e <= mon + 4)
    by (intros e; apply events_inside).
  split; [exact Hev|]. split.
  - intros d Hd Hi.
    set (mon := d - weekday d).
    assert (Hmon : In mon (term_mondays first_class last_class))
      by now apply term_mondays_mem.
    assert (Hwd : 0 <= weekday d < 5).
    { unfold instructional in Hi. apply andb_true_iff in Hi. destruct Hi as [Hi _].
      apply negb_true_iff, Z.leb_gt in Hi.
      pose proof (Z.mod_pos_bound (d + 6) 7 ltac:(lia)). unfold weekday in *. lia. }
    assert (Hin : In d (week_days first_class last_class blackout_ranges mon)).
    { unfold week_days. apply filter_In. split; [|exact Hi].
      apply in_zrange. unfold mon. lia. }
    assert (Hsd : StronglySorted Z.lt
                    (week_days first_class last_class blackout_ranges mon))
      by (unfold week_days; apply sorted_filter, zrange_sorted).
    destruct (week_days first_class last_class blackout_ranges mon)
      as [|d0 ds] eqn:Ew; [destruct Hin|].
    assert (Hw : In (d0 :: ds)
                    (term_weeks first_class last_class blackout_ranges)).
    { unfold term_weeks. apply in_map_iff. exists mon. split; [exact Ew|exact Hmon]. }
    destruct (label_weeks_of_week _ 1 _ _ Hw) as [e [He [Es Ee]]].
    assert (Hb : event_start e <= d <= event_end e).
    { rewrite Es, Ee. apply sorted_last; [exact Hsd|exact Hin]. }
    exists e. split; [exact He|]. split; [exact Hb|].
    intros e' He' Hb'.
    destruct (label_weeks_chrono first_class last_class blackout_ranges
                (week_count (first_class - weekday first_class)
                            (last_class - weekday last_class))
                (first_class - weekday first_class) 1) as [Hs Hf].
    cbv zeta in Hs, Hf.
    refine (before_unique _ Hs _ e e' d He He' Hb Hb').
    eapply Forall_impl; [|exact Hf]. cbv beta. intros x Hx. lia.
  - intros Hlt.
    destruct (label_weeks 1 (term_weeks first_class last_class blackout_ranges))
      as [|e l] eqn:El; [reflexivity|].
    destruct (Hev e) as [_ [_ [H1 [H2 [H3 _]]]]]; [now left|]. lia.
Qed.

(** A term that starts on a Wednesday and has a holiday in its first
    week: Wednesday 3 September lies in one of the two events. *)
Lemma week_events_cover_witness :
  exists e,
    In e [(s "Week 1 (short)", ymd2ord 2025 8 27, ymd2ord 2025 8 29);
          (s "Week 2", ymd2ord 2025 9 1, ymd2ord 2025 9 5)] /\
    event_start e <= ymd2ord 2025 9 3 <= event_end e.
Proof.
  destruct (week_events_cover (ymd2ord 2025 8 27) (ymd2ord 2025 9 5)
              [mkDateRange (ymd2ord 2025 8 28) (ymd2ord 2025 8 28)]
              [(s "Week 1 (short)", ymd2ord 2025 8 27, ymd2ord 2025 8 29);
               (s "Week 2", ymd2ord 2025 9 1, ymd2ord 2025 9 5)])
    as [_ [Hc _]].
  - vm_compute. reflexivity.
  - destruct (Hc (ymd2ord 2025 9 3)) as [e [He [Hb _]]].
    + vm_compute. split; discriminate.
    + vm_compute. reflexivity.
    + exists e. split; assumption.
Defined.

(** ** More on ranges *)

(** [intersects] does not depend on the order of its two ranges, and two
    ranges whose start is not after their end intersect exactly when they
    share a day; the days of a clamped range are the days of the range
    that lie within the bounds. *)
Theorem intersects_shared_day r other :
  intersects r other = intersects other r /\
  (ordered r -> ordered other ->
   (intersects r other = true <->
    exists d, contains_day r d = true /\ contains_day other d = true)) /\
  (forall lo hi d,
      contains_day (clamp r lo hi) d =
      contains_day r d && contains_day (mkDateRange lo hi) d).
Proof.
  unfold intersects, contains_day, clamp, ordered. cbn [start end_].
  split; [|split].
  - f_equal. apply orb_comm.
  - intros Hr Ho. rewrite negb_true_iff, orb_false_iff, !Z.ltb_ge. split.
    + intros [H1 H2]. exists (Z.max (start r) (start other)).
      rewrite !andb_true_iff, !Z.leb_le. lia.
    + intros [d [H1 H2]]. rewrite !andb_true_iff, !Z.leb_le in H1, H2. lia.
  - intros lo hi d.
    destruct (Z.leb_spec (Z.max (start r) lo) d),
             (Z.leb_spec d (Z.min (end_ r) hi)),
             (Z.leb_spec (start r) d), (Z.leb_spec d (end_ r)),
             (Z.leb_spec lo d), (Z.leb_spec d hi); cbn; try reflexivity; lia.
Qed.

Lemma existsb_app_map {A : Type} (f : A -> DateRange) l d :
  existsb (fun r => contains_day r d) (map f l) = true <->
  exists x, In x l /\ contains_day (f x) d = true.
Proof.
  rewrite existsb_exists. split.
  - intros [r [Hr Hc]]. apply in_map_iff in Hr. destruct Hr as [x [<- Hx]]. eauto.
  - intros [x [Hx Hc]]. exists (f x). split; [now apply in_map|exact Hc].
Qed.

Lemma blackout_iff first_day last_day breaks single_holidays d :
  let term_range := mkDateRange first_day last_day in
  is_blackout
    (blackouts_of first_day last_day (breaks_of term_range breaks)
                  (holidays_of term_range single_holidays)) d = true <->
  first_day <= d <= last_day /\
  ((exists lr, In lr breaks /\ contains_day (snd lr) d = true) \/
   (exists ld, In ld single_holidays /\ snd ld = d)).
Proof.
  cbv zeta. unfold is_blackout, blackouts_of.
  rewrite existsb_app, orb_true_iff.
  rewrite (existsb_app_map (fun lr => clamp (snd lr) first_day last_day)).
  rewrite (existsb_app_map (fun lr : str * DateRange => snd lr)).
  unfold breaks_of, holidays_of. split.
  - intros [[lr [Hlr Hc]]|[lr [Hlr Hc]]].
    + apply filter_In in Hlr. destruct Hlr as [Hlr _].
      unfold contains_day, clamp in Hc. cbn [start end_] in Hc.
      rewrite andb_true_iff, !Z.leb_le in Hc.
      split; [lia|]. left. exists lr. split; [exact Hlr|].
      unfold contains_day. rewrite andb_true_iff, !Z.leb_le. lia.
    + apply in_map_iff in Hlr. destruct Hlr as [ld [<- Hld]].
      apply filter_In in Hld. destruct Hld as [Hld Ht].
      unfold contains_day in Hc, Ht. cbn [start end_ snd] in Hc, Ht.
      rewrite andb_true_iff, !Z.leb_le in Hc, Ht.
      split; [lia|]. right. exists ld. split; [exact Hld|lia].
  - intros [Hd [[lr [Hlr Hc]]|[ld [Hld E]]]].
    + left. exists lr.
      unfold contains_day in Hc. rewrite andb_true_iff, !Z.leb_le in Hc.
      split.
      * apply filter_In. split; [exact Hlr|].
        unfold intersects. cbn [start end_].
        rewrite negb_true_iff, orb_false_iff, !Z.ltb_ge. lia.
      * unfold contains_day, clamp. cbn [start end_].
        rewrite andb_true_iff, !Z.leb_le. lia.
    + right. exists (fst ld, mkDateRange (snd ld) (snd ld)). split.
      * apply in_map_iff. exists ld. split; [reflexivity|].
        apply filter_In. split; [exact Hld|].
        unfold contains_day. cbn [start end_].
        rewrite andb_true_iff, !Z.leb_le. lia.
      * unfold contains_day. cbn [start end_ snd].
        rewrite andb_true_iff, !Z.leb_le. lia.
Qed.

(** The days [build_term_events] blacks out for the week count are the
    days of the term that lie in a break range found on the page or are one
    of the single holidays: dropping the breaks and holidays outside the
    term and clamping the others loses no day of the term and adds none. *)
Theorem blackout_days first_day last_day breaks single_holidays d :
  let term_range := mkDateRange first_day last_day in
  is_blackout
    (blackouts_of first_day last_day (breaks_of term_range breaks)
                  (holidays_of term_range single_holidays)) d = true <->
  first_day <= d <= last_day /\
  ((exists lr, In lr breaks /\ contains_day (snd lr) d = true) \/
   (exists ld, In ld single_holidays /\ snd ld = d)).
Proof. exact (blackout_iff first_day last_day breaks single_holidays d). Qed.

(** ** More on normalized text *)

Section Squeeze.
Variable db : unicode_db.

Lemma rep_longest (A : Type) p : forall run lo pv t (k : option Z -> str -> option A) r,
  all_in db p run -> stops db p t -> (lo <= length run)%nat ->
  k (last_char run pv) t = Some r ->
  rep db A p lo None pv (run ++ t) k = Some r.
Proof.
  induction run as [|c run IH]; intros lo pv t k r Hall Hstop Hlo Hk.
  - cbn [length] in Hlo. assert (lo = O) by lia. subst lo.
    cbn [app]. destruct t as [|c t]; cbn [rep]; [exact Hk|].
    cbn [stops] in Hstop. rewrite Hstop. cbn [andb]. exact Hk.
  - inversion Hall as [|? ? Hc Hrun]; subst.
    cbn [app rep]. rewrite Hc. cbn [more andb option_map].
    rewrite (IH (pred lo) (Some c) t k r); try assumption; [reflexivity| |].
    + cbn [length] in Hlo. lia.
    + now rewrite (last_char_cons c run pv).
Qed.

Lemma match_spaces_run before pv (run rest : str) :
  run <> [] -> all_in db CSpace run -> stops db CSpace rest ->
  match_at db false (plus CSpace) before pv (run ++ rest) =
  Some {| m_before := before; m_text := run; m_groups := [];
          m_after := rest; m_prev := last_char run pv |}.
Proof.
  intros Hne Hall Hstop. unfold match_at, plus. cbn [m].
  apply rep_longest; try assumption.
  - apply nonempty_length. exact Hne.
  - now rewrite firstn_consumed.
Qed.

Lemma match_spaces_fail before pv c t :
  is_space c = false ->
  match_at db false (plus CSpace) before pv (c :: t) = None.
Proof.
  intros Hc. unfold match_at, plus. cbn [m rep in_cls]. rewrite Hc. reflexivity.
Qed.

Lemma search_spaces_run sk : forall br pv (run rest : str),
  Forall (fun c => is_space c = false) sk ->
  run <> [] -> all_in db CSpace run -> stops db CSpace rest ->
  search_from db false (plus CSpace) br pv (sk ++ run ++ rest) =
  Some {| m_before := rev br ++ sk; m_text := run; m_groups := [];
          m_after := rest; m_prev := last_char run (last_char sk pv) |}.
Proof.
  induction sk as [|c sk IH]; intros br pv run rest Hsk Hne Hall Hstop.
  - cbn [app]. destruct (run ++ rest) as [|x xs] eqn:E.
    + destruct run; [congruence|discriminate].
    + cbn [search_from]. rewrite <- E, match_spaces_run by assumption.
      now rewrite app_nil_r.
  - inversion Hsk as [|? ? Hc Hsk']; subst.
    cbn [app search_from]. rewrite match_spaces_fail by assumption.
    rewrite IH by assumption. cbn [rev]. rewrite <- app_assoc. cbn [app].
    now rewrite (last_char_cons c sk pv).
Qed.

Lemma search_spaces_plain t : forall br pv,
  Forall (fun c => is_space c = false) t ->
  search_from db false (plus CSpace) br pv t = None.
Proof.
  induction t as [|c t IH]; intros br pv Ht.
  - reflexivity.
  - inversion Ht; subst. cbn [search_from].
    rewrite match_spaces_fail by assumption. now apply IH.
Qed.

(** A text is free of whitespace, or it splits at its first run of
    whitespace. *)
Lemma first_run (t : str) :
  Forall (fun c => is_space c = false) t \/
  exists sk run rest,
    t = sk ++ run ++ rest /\ Forall (fun c => is_space c = false) sk /\
    run <> [] /\ all_in db CSpace run /\ stops db CSpace rest.
Proof.
  induction t as [|c t IH]; [left; constructor|].
  destruct (is_space c) eqn:Ec.
  - right. destruct IH as [Ht|[sk [run [rest [-> [Hsk [Hne [Hall Hstop]]]]]]]].
    + exists [], [c], t. split; [reflexivity|]. split; [constructor|].
      split; [discriminate|]. split; [now repeat constructor|].
      destruct Ht; [exact I|assumption].
    + destruct sk as [|x sk].
      * exists [], (c :: run), rest. split; [reflexivity|].
        split; [constructor|]. split; [discriminate|].
        split; [now constructor|exact Hstop].
      * inversion Hsk; subst.
        exists [], [c], ((x :: sk) ++ run ++ rest). split; [reflexivity|].
        split; [constructor|]. split; [discriminate|].
        split; [now repeat constructor|assumption].
  - destruct IH as [Ht|[sk [run [rest [-> [Hsk [Hne [Hall Hstop]]]]]]]].
    + left. now constructor.
    + right. exists (c :: sk), run, rest. split; [reflexivity|].
      split; [now constructor|]. auto.
Qed.

Lemma squeeze_plain sk : forall b t,
  Forall (fun c => is_space c = false) sk ->
  squeeze b (sk ++ t) = sk ++ squeeze (match sk with [] => b | _ => false end) t.
Proof.
  induction sk as [|c sk IH]; intros b t Hsk; [reflexivity|].
  inversion Hsk as [|? ? Hc Hsk']; subst. cbn [app squeeze]. rewrite Hc.
  rewrite IH by assumption. destruct sk; reflexivity.
Qed.

Lemma squeeze_run run : forall rest,
  all_in db CSpace run -> squeeze true (run ++ rest) = squeeze true rest.
Proof.
  induction run as [|c run IH]; intros rest Hall; [reflexivity|].
  inversion Hall as [|? ? Hc Hrun]; subst. cbn [in_cls] in Hc.
  cbn [app squeeze]. rewrite Hc. now apply IH.
Qed.

Lemma squeeze_stop rest b :
  stops db CSpace rest -> squeeze b rest = squeeze false rest.
Proof.
  destruct rest as [|c rest]; [reflexivity|]. cbn [stops in_cls squeeze].
  intros ->. reflexivity.
Qed.

Lemma sub_spaces_squeeze fuel : forall pv t,
  (length t < fuel)%nat ->
  sub_from db fuel (plus CSpace) (s " ") pv t = squeeze false t.
Proof.
  induction fuel as [|fuel IH]; intros pv t Hl; [lia|]. cbn [sub_from].
  destruct (first_run t) as [Ht|[sk [run [rest [-> [Hsk [Hne [Hall Hstop]]]]]]]].
  - rewrite search_spaces_plain by assumption.
    rewrite <- (app_nil_r t) at 2. rewrite squeeze_plain by assumption.
    cbn [squeeze]. now rewrite app_nil_r.
  - rewrite search_spaces_run by assumption.
    cbn [m_before m_text m_after m_prev rev app].
    rewrite squeeze_plain by assumption. f_equal.
    destruct run as [|c run]; [congruence|].
    inversion Hall as [|? ? Hc Hrun]; subst. cbn [in_cls] in Hc.
    rewrite IH.
    + cbn [app squeeze]. rewrite Hc.
      change (s " ") with [32].
      assert (E : squeeze true (run ++ rest) = squeeze false rest)
        by (rewrite squeeze_run by assumption; now apply squeeze_stop).
      destruct sk; cbn [app]; now rewrite E.
    + rewrite !length_app in Hl. cbn [length] in Hl. lia.
Qed.

Lemma re_sub_spaces t : re_sub db (plus CSpace) (s " ") t = squeeze false t.
Proof. unfold re_sub. apply sub_spaces_squeeze. lia. Qed.
End Squeeze.

Lemma spaced_squeeze t : forall b, spaced b (squeeze b t) = true.
Proof.
  induction t as [|c t IH]; intros b; [reflexivity|]. cbn [squeeze].
  destruct (is_space c) eqn:Ec.
  - destruct b; [apply IH|]. cbn [spaced].
    change (is_space 32) with true. cbn. apply IH.
  - cbn [spaced]. rewrite Ec. apply IH.
Qed.

Lemma squeeze_spaced t : forall b, spaced b t = true -> squeeze b t = t.
Proof.
  induction t as [|c t IH]; intros b; [reflexivity|]. cbn [squeeze spaced].
  destruct (is_space c) eqn:Ec.
  - rewrite !andb_true_iff, Z.eqb_eq, negb_true_iff. intros [[-> ->] H].
    f_equal. now apply IH.
  - intros H. f_equal. now apply IH.
Qed.

Lemma spaced_weaken t b : spaced b t = true -> spaced false t = true.
Proof.
  destruct t as [|c t]; [reflexivity|]. cbn [spaced].
  destruct (is_space c); [|auto].
  rewrite !andb_true_iff. intros [[H1 _] H2]. repeat split; assumption.
Qed.

Lemma spaced_suffix a : forall b t,
  spaced b (a ++ t) = true -> spaced false t = true.
Proof.
  induction a as [|c a IH]; intros b t; [apply spaced_weaken|].
  cbn [app spaced]. destruct (is_space c).
  - rewrite !andb_true_iff. intros [_ H]. now apply IH in H.
  - apply IH.
Qed.

Lemma spaced_prefix a : forall b t,
  spaced b (a ++ t) = true -> spaced b a = true.
Proof.
  induction a as [|c a IH]; intros b t; [reflexivity|].
  cbn [app spaced]. destruct (is_space c).
  - rewrite !andb_true_iff. intros [H1 H]. split; [exact H1|]. now apply IH in H.
  - apply IH.
Qed.

Lemma lstrip_suffix t : exists a, t = a ++ lstrip t /\ Forall (fun c => is_space c = true) a.
Proof.
  induction t as [|c t [a [IH Ha]]]; [exists []; split; [reflexivity|constructor]|].
  cbn [lstrip]. destruct (is_space c) eqn:Ec.
  - exists (c :: a). cbn [app]. split; [now rewrite <- IH|now constructor].
  - exists []. split; [reflexivity|constructor].
Qed.

Lemma rstrip_prefix t : exists a, t = rstrip t ++ a /\ Forall (fun c => is_space c = true) a.
Proof.
  unfold rstrip. destruct (lstrip_suffix (rev t)) as [a [E Ha]].
  exists (rev a). split; [|now apply Forall_rev].
  rewrite <- rev_app_distr, <- E. now rewrite rev_involutive.
Qed.

Lemma spaced_strip t : spaced false t = true -> spaced false (strip t) = true.
Proof.
  intros H. unfold strip.
  destruct (lstrip_suffix t) as [a [Ea _]]. rewrite Ea in H.
  apply spaced_suffix in H.
  destruct (rstrip_prefix (lstrip t)) as [b [Eb _]]. rewrite Eb in H.
  now apply spaced_prefix in H.
Qed.

Lemma lstrip_head t :
  match lstrip t with [] => True | c :: _ => is_space c = false end.
Proof.
  induction t as [|c t IH]; [exact I|]. cbn [lstrip].
  destruct (is_space c) eqn:Ec; [exact IH|exact Ec].
Qed.

Lemma lstrip_fixed t :
  match t with [] => True | c :: _ => is_space c = false end -> lstrip t = t.
Proof. destruct t as [|c t]; [reflexivity|]. cbn [lstrip]. now intros ->. Qed.

Lemma lstrip_idem t : lstrip (lstrip t) = lstrip t.
Proof. apply lstrip_fixed, lstrip_head. Qed.

Lemma rstrip_idem t : rstrip (rstrip t) = rstrip t.
Proof. unfold rstrip. now rewrite rev_involutive, lstrip_idem. Qed.

(** Stripping on the right keeps a first character that is no
    whitespace. *)
Lemma rstrip_head c t :
  is_space c = false -> exists u, rstrip (c :: t) = c :: u.
Proof.
  intros Hc. unfold rstrip. cbn [rev].
  assert (G : forall (x : str), exists v, lstrip (x ++ [c]) = v ++ [c]).
  { induction x as [|a x [v IH]]; cbn [app lstrip].
    - rewrite Hc. now exists [].
    - destruct (is_space a); [now exists v|]. now exists (a :: x). }
  destruct (G (rev t)) as [v ->]. rewrite rev_app_distr. cbn [rev app].
  now exists (rev v).
Qed.

Lemma strip_idem t : strip (strip t) = strip t.
Proof.
  unfold strip. pose proof (lstrip_head t) as Hh.
  destruct (lstrip t) as [|c u] eqn:E; [reflexivity|].
  destruct (rstrip_head c u Hh) as [v Ev]. rewrite Ev.
  cbn [lstrip]. rewrite Hh, <- Ev. apply rstrip_idem.
Qed.

Lemma lstrip_spaces t : Forall (fun c => is_space c = true) t -> lstrip t = [].
Proof.
  induction 1 as [|c t Hc Ht IH]; [reflexivity|]. cbn [lstrip]. now rewrite Hc.
Qed.

Lemma squeeze_spaces t : forall b,
  Forall (fun c => is_space c = true) t ->
  Forall (fun c => is_space c = true) (squeeze b t).
Proof.
  induction t as [|c t IH]; intros b Ht; [constructor|].
  inversion Ht as [|? ? Hc Ht']; subst. cbn [squeeze]. rewrite Hc.
  destruct b; [now apply IH|]. constructor; [reflexivity|now apply IH].
Qed.

Lemma spaced_sound t : forall b,
  spaced b t = true ->
  Forall tidy t /\ forall a u, t <> a ++ 32 :: 32 :: u.
Proof.
  induction t as [|c t IH]; intros b H.
  - split; [constructor|]. intros [|? ?] u; discriminate.
  - cbn [spaced] in H. destruct (is_space c) eqn:Ec.
    + rewrite !andb_true_iff, Z.eqb_eq in H. destruct H as [[-> _] H].
      destruct (IH _ H) as [Ht Hn]. split; [constructor; [now right|exact Ht]|].
      intros [|x a] u E; cbn [app] in E.
      * assert (E' : t = 32 :: u) by congruence. subst t.
        cbn [spaced] in H. change (is_space 32) with true in H.
        cbn in H. discriminate.
      * assert (E' : t = a ++ 32 :: 32 :: u) by congruence.
        now apply (Hn a u).
    + destruct (IH _ H) as [Ht Hn]. split; [constructor; [now left|exact Ht]|].
      intros [|x a] u E; cbn [app] in E.
      * assert (E' : c = 32) by congruence. subst c. discriminate.
      * assert (E' : t = a ++ 32 :: 32 :: u) by congruence.
        now apply (Hn a u).
Qed.

Lemma normalize_shape db (t : str) :
  let n := normalize_whitespace db t in
  n = strip (squeeze false t) /\
  normalize_whitespace db n = n /\
  strip n = n /\
  Forall tidy n /\
  (forall a u, n <> a ++ 32 :: 32 :: u) /\
  (Forall (fun c => is_space c = true) t -> n = []).
Proof.
  cbv zeta. unfold normalize_whitespace. rewrite re_sub_spaces.
  assert (Hs : spaced false (strip (squeeze false t)) = true)
    by apply spaced_strip, spaced_squeeze.
  split; [reflexivity|]. split; [|split; [|split; [|split]]].
  - rewrite re_sub_spaces, (squeeze_spaced _ _ Hs). apply strip_idem.
  - apply strip_idem.
  - now apply spaced_sound in Hs.
  - now apply spaced_sound in Hs.
  - intros Ht. unfold strip.
    rewrite lstrip_spaces by now apply squeeze_spaces. reflexivity.
Qed.

(** [normalize_whitespace] replaces each run of whitespace by one plain
    space and drops the runs at the two ends.  Its result holds no other
    whitespace than single spaces between other characters, normalizing it
    again changes nothing, and a text of whitespace only is normalized to
    the empty text. *)
Theorem normalize_whitespace_idempotent db (t : str) :
  let n := normalize_whitespace db t in
  n = strip (squeeze false t) /\
  normalize_whitespace db n = n /\
  strip n = n /\
  Forall tidy n /\
  (forall a u, n <> a ++ 32 :: 32 :: u) /\
  (Forall (fun c => is_space c = true) t -> n = []).
Proof. exact (normalize_shape db t). Qed.

(** ** Lines *)

Lemma find_index_split {A : Type} (p : A -> bool) (l : list A) : forall i,
  find_index p l = Some i ->
  exists pre x post, l = pre ++ x :: post /\ length pre = i /\ p x = true /\
                     forall y, In y pre -> p y = false.
Proof.
  induction l as [|a l IH]; intros i; cbn [find_index]; [discriminate|].
  destruct (p a) eqn:Ea.
  - intros [= <-]. exists [], a, l. repeat split; [exact Ea|intros y []].
  - destruct (find_index p l) as [j|]; [|discriminate]. cbn [option_map].
    intros [= <-]. destruct (IH j eq_refl) as [pre [x [post [-> [Hl [Hx Hpre]]]]]].
    exists (a :: pre), x, post. repeat split; [cbn; now rewrite Hl|exact Hx|].
    intros y [<-|Hy]; [exact Ea|now apply Hpre].
Qed.

Lemma find_index_first {A : Type} (p : A -> bool) pre x post :
  p x = true -> (forall y, In y pre -> p y = false) ->
  find_index p (pre ++ x :: post) = Some (length pre).
Proof.
  intros Hx. induction pre as [|a pre IH]; intros Hpre; cbn [app find_index length].
  - now rewrite Hx.
  - rewrite (Hpre a) by now left. rewrite IH; [reflexivity|].
    intros y Hy. apply Hpre. now right.
Qed.

Lemma take_until_find {A : Type} (q : A -> bool) (l : list A) :
  firstn (match find_index q l with Some j => j | None => length l end) l
  = take_until q l.
Proof.
  induction l as [|a l IH]; [reflexivity|]. cbn [find_index take_until].
  destruct (q a); [reflexivity|].
  destruct (find_index q l) as [j|]; cbn [option_map length firstn]; now rewrite IH.
Qed.

(** The slice the block readers take: from the line found first to the
    next line that satisfies [q], or to the end. *)
Lemma slice_section {A : Type} (q : A -> bool) (pre : list A) x post :
  slice (length pre)
        (match find_index q post with
         | Some j => (S (length pre) + j)%nat
         | None => length (pre ++ x :: post)
         end)
        (pre ++ x :: post)
  = x :: take_until q post.
Proof.
  unfold slice. rewrite skipn_app, skipn_all, Nat.sub_diag. cbn [app skipn].
  rewrite <- take_until_find.
  destruct (find_index q post) as [j|].
  - replace (S (length pre) + j - length pre)%nat with (S j) by lia. reflexivity.
  - rewrite length_app. cbn [length].
    replace (length pre + S (length post) - length pre)%nat
      with (S (length post)) by lia.
    reflexivity.
Qed.

Lemma take_until_none {A : Type} (q : A -> bool) (l : list A) :
  forall x, In x (take_until q l) -> q x = false.
Proof.
  induction l as [|a l IH]; intros x; cbn [take_until]; [intros []|].
  destruct (q a) eqn:Ea; [intros []|]. intros [<-|H]; [exact Ea|now apply IH].
Qed.

Lemma take_until_all {A : Type} (q : A -> bool) (l : list A) :
  (forall x, In x l -> q x = false) -> take_until q l = l.
Proof.
  induction l as [|a l IH]; intros H; [reflexivity|]. cbn [take_until].
  rewrite (H a) by now left. f_equal. apply IH. intros x Hx. apply H. now right.
Qed.

Lemma take_until_prefix {A : Type} (q : A -> bool) (l : list A) :
  exists rest, l = take_until q l ++ rest.
Proof.
  induction l as [|a l [rest IH]]; [now exists []|]. cbn [take_until].
  destruct (q a); [now exists (a :: l)|]. exists rest. cbn [app]. now rewrite <- IH.
Qed.

Lemma linebreak_space c : is_linebreak c = true -> is_space c = true.
Proof.
  unfold is_linebreak, is_space.
  rewrite !orb_true_iff, !andb_true_iff, !Z.leb_le, !Z.eqb_eq. lia.
Qed.

Lemma tidy_no_linebreak c : tidy c -> is_linebreak c = false.
Proof.
  intros [H| ->]; [|reflexivity].
  destruct (is_linebreak c) eqn:E; [|reflexivity].
  apply linebreak_space in E. congruence.
Qed.

Lemma splitlines_aux_line (l : str) : forall cur rest,
  Forall (fun c => is_linebreak c = false) l ->
  splitlines_aux cur (l ++ rest) = splitlines_aux (rev l ++ cur) rest.
Proof.
  induction l as [|c l IH]; intros cur rest Hl; [reflexivity|].
  inversion Hl as [|? ? Hc Hl']; subst. cbn [app splitlines_aux]. rewrite Hc.
  rewrite IH by assumption. cbn [rev]. now rewrite <- app_assoc.
Qed.

(** Joining lines by newlines and splitting the text again gives the
    lines back, when none is empty or holds a line break. *)
Lemma splitlines_join (ls : list str) :
  Forall (fun l => l <> [] /\ Forall (fun c => is_linebreak c = false) l) ls ->
  splitlines (join newline ls) = ls.
Proof.
  unfold splitlines. induction 1 as [|l ls [Hne Hl] Hls IH]; [reflexivity|].
  destruct ls as [|l2 ls].
  - cbn [join]. rewrite <- (app_nil_r l) at 1.
    rewrite splitlines_aux_line by assumption. cbn [splitlines_aux].
    rewrite app_nil_r. destruct (rev l) eqn:E.
    + apply (f_equal (@rev Z)) in E. rewrite rev_involutive in E. now subst.
    + rewrite <- E. now rewrite rev_involutive.
  - change (join newline (l :: l2 :: ls))
      with (l ++ newline ++ join newline (l2 :: ls)).
    rewrite splitlines_aux_line by assumption. unfold newline at 1.
    cbn [app splitlines_aux]. change (is_linebreak 10) with true.
    cbv iota. rewrite app_nil_r, rev_involutive. f_equal. exact IH.
Qed.

Lemma splitlines_aux_break cur c t :
  is_linebreak c = true ->
  exists t', splitlines_aux cur (c :: t) = rev cur :: splitlines_aux [] t' /\
             (t' = t \/ t = 10 :: t').
Proof.
  intros Hc. cbn [splitlines_aux]. rewrite Hc.
  assert (D : forall (B : Type) (x : Z) (u v : B),
             match x with 13 => u | _ => v end = (if x =? 13 then u else v)).
  { intros B x u v. destruct (Z.eqb_spec x 13) as [->|Hn]; [reflexivity|].
    destruct x as [|p|p]; try reflexivity.
    do 4 (try (destruct p as [p|p|]; try reflexivity)). congruence. }
  assert (D' : forall (B : Type) (x : Z) (u v : B),
             match x with 10 => u | _ => v end = (if x =? 10 then u else v)).
  { intros B x u v. destruct (Z.eqb_spec x 10) as [->|Hn]; [reflexivity|].
    destruct x as [|p|p]; try reflexivity.
    do 4 (try (destruct p as [p|p|]; try reflexivity)). congruence. }
  rewrite D. destruct (c =? 13); [|exists t; auto].
  destruct t as [|c2 t]; [exists []; auto|].
  rewrite D'. destruct (Z.eqb_spec c2 10) as [->|Hn].
  - exists t. auto.
  - exists (c2 :: t). auto.
Qed.

Lemma splitlines_aux_clean t : forall n cur,
  (length t <= n)%nat ->
  Forall (fun c => is_linebreak c = false) cur ->
  Forall (Forall (fun c => is_linebreak c = false)) (splitlines_aux cur t).
Proof.
  intros n. revert t. induction n as [|n IH]; intros t cur Hn Hcur.
  - destruct t; [|cbn in Hn; lia]. cbn [splitlines_aux].
    destruct cur; [constructor|]. constructor; [|constructor].
    now apply Forall_rev.
  - destruct t as [|c t].
    + cbn [splitlines_aux].
      destruct cur; [constructor|]. constructor; [|constructor].
      now apply Forall_rev.
    + cbn [length] in Hn. destruct (is_linebreak c) eqn:Ec.
      * destruct (splitlines_aux_break cur c t Ec) as [t' [-> Ht']].
        constructor; [now apply Forall_rev|].
        apply IH; [|constructor].
        destruct Ht' as [->| ->]; cbn [length] in *; lia.
      * cbn [splitlines_aux]. rewrite Ec. apply IH; [lia|now constructor].
Qed.

Lemma strip_sub (P : Z -> Prop) t : Forall P t -> Forall P (strip t).
Proof. apply Forall_strip. Qed.

Lemma block_lines_clean block_text : Forall clean_line (block_lines block_text).
Proof.
  unfold block_lines. apply Forall_forall. intros l Hl.
  apply in_map_iff in Hl. destruct Hl as [l0 [<- Hl0]].
  apply filter_In in Hl0. destruct Hl0 as [Hin Hne].
  pose proof (splitlines_aux_clean block_text _ [] (Nat.le_refl _) (Forall_nil _)) as Hc.
  rewrite Forall_forall in Hc. specialize (Hc l0 Hin).
  split; [|split].
  - intros E. rewrite E in Hne. discriminate.
  - now apply Forall_strip.
  - apply strip_idem.
Qed.

Lemma block_lines_join (ls : list str) :
  Forall clean_line ls -> block_lines (join newline ls) = ls.
Proof.
  intros H. unfold block_lines. rewrite splitlines_join.
  - induction H as [|l ls [Hne [_ Hs]] Hls IH]; [reflexivity|].
    cbn [filter]. rewrite Hs.
    destruct l as [|c l]; [congruence|]. cbn [nonempty map].
    rewrite Hs. f_equal. exact IH.
  - eapply Forall_impl; [|exact H]. intros l [H1 [H2 _]]. auto.
Qed.

(** ** Subsections of a term block *)

Lemma skipn_section {A : Type} (pre : list A) x post :
  skipn (S (length pre)) (pre ++ x :: post) = post.
Proof.
  replace (S (length pre)) with (length (pre ++ [x]))
    by (rewrite length_app; cbn; lia).
  replace (pre ++ x :: post) with ((pre ++ [x]) ++ post)
    by (now rewrite <- app_assoc).
  rewrite skipn_app, skipn_all, Nat.sub_diag. reflexivity.
Qed.

Lemma extract_subsection_found block_text header pre post :
  block_lines block_text = pre ++ header :: post ->
  ~ In header pre ->
  extract_subsection block_text header
  = join newline (header :: take_until is_subsection_header post).
Proof.
  intros E Hpre. unfold extract_subsection.
  change (map strip (filter (fun l => nonempty (strip l)) (splitlines block_text)))
    with (block_lines block_text).
  cbv zeta. rewrite E.
  rewrite (find_index_first (str_eqb header) pre header post).
  - rewrite skipn_section.
    change (fun l : str => existsb (str_eqb l) subsection_headers)
      with is_subsection_header.
    now rewrite slice_section.
  - apply str_eqb_refl.
  - intros y Hy. destruct (str_eqb header y) eqn:Ey; [|reflexivity].
    apply str_eqb_eq in Ey. subst y. contradiction.
Qed.

Lemma clean_sublist (ls pre post mid : list str) :
  Forall clean_line ls -> ls = pre ++ mid ++ post -> Forall clean_line mid.
Proof.
  intros H ->. apply Forall_app in H. destruct H as [_ H].
  apply Forall_app in H. tauto.
Qed.

(** [extract_subsection] looks for the first line of the block that is,
    once stripped, equal to [header].  Without one the block comes back as
    it is.  With one, the result is that line and the lines after it up to
    the next subsection header, which may be the same header again; no
    line after the first is a subsection header.  Extracting the same
    subsection from the result changes nothing. *)
Theorem extract_subsection_section block_text header :
  let lines := block_lines block_text in
  ((forall l, In l lines -> l <> header) ->
   extract_subsection block_text header = block_text) /\
  (forall pre post,
      lines = pre ++ header :: post -> ~ In header pre ->
      let body := take_until is_subsection_header post in
      extract_subsection block_text header = join newline (header :: body) /\
      block_lines (extract_subsection block_text header) = header :: body /\
      (forall l, In l body -> is_subsection_header l = false) /\
      exists rest, post = body ++ rest) /\
  extract_subsection (extract_subsection block_text header) header
  = extract_subsection block_text header.
Proof.
  cbv zeta.
  assert (Hnone : forall b,
             (forall l, In l (block_lines b) -> l <> header) ->
             extract_subsection b header = b).
  { intros b H. unfold extract_subsection.
    change (map strip (filter (fun l => nonempty (strip l)) (splitlines b)))
      with (block_lines b).
    cbv zeta.
    replace (find_index (str_eqb header) (block_lines b)) with (@None nat);
      [reflexivity|].
    symmetry. apply find_index_none. intros x Hx.
    destruct (str_eqb header x) eqn:Ex; [|reflexivity].
    apply str_eqb_eq in Ex. subst x. now apply H in Hx. }
  assert (Hlines : forall pre post,
             block_lines block_text = pre ++ header :: post -> ~ In header pre ->
             block_lines (extract_subsection block_text header)
             = header :: take_until is_subsection_header post).
  { intros pre post E Hpre. rewrite (extract_subsection_found _ _ _ _ E Hpre).
    apply block_lines_join.
    destruct (take_until_prefix is_subsection_header post) as [rest Hrest].
    apply (clean_sublist (block_lines block_text) pre rest).
    - apply block_lines_clean.
    - rewrite E. cbn [app]. now rewrite <- Hrest. }
  split; [apply Hnone|]. split.
  - intros pre post E Hpre. split; [now apply (extract_subsection_found _ _ pre)|].
    split; [now apply (Hlines pre)|]. split; [apply take_until_none|].
    apply take_until_prefix.
  - destruct (find_index (str_eqb header) (block_lines block_text)) as [i|] eqn:Ei.
    + apply find_index_split in Ei.
      destruct Ei as [pre [x [post [E [_ [Hx Hpre]]]]]].
      apply str_eqb_eq in Hx. subst x.
      assert (Hn : ~ In header pre).
      { intros Hin. apply Hpre in Hin. rewrite str_eqb_refl in Hin. discriminate. }
      rewrite (extract_subsection_found
                 (extract_subsection block_text header) header []
                 (take_until is_subsection_header post)).
      * rewrite (extract_subsection_found _ _ _ _ E Hn). f_equal. f_equal.
        apply take_until_all. apply take_until_none.
      * now apply (Hlines pre).
      * intros [].
    + rewrite !Hnone; try reflexivity.
      * intros l Hl ->. rewrite find_index_none in Ei.
        apply Ei in Hl. rewrite str_eqb_refl in Hl. discriminate.
      * rewrite Hnone.
        -- intros l Hl ->. rewrite find_index_none in Ei.
           apply Ei in Hl. rewrite str_eqb_refl in Hl. discriminate.
        -- intros l Hl ->. rewrite find_index_none in Ei.
           apply Ei in Hl. rewrite str_eqb_refl in Hl. discriminate.
Qed.

(** ** The block of a term *)

Lemma normalize_clean db (t : str) :
  normalize_whitespace db t <> [] -> clean_line (normalize_whitespace db t).
Proof.
  intros Hne. destruct (normalize_shape db t)
    as [_ [_ [Hs [Ht _]]]].
  split; [exact Hne|]. split; [|exact Hs].
  eapply Forall_impl; [|exact Ht]. intros c Hc. now apply tidy_no_linebreak.
Qed.

Lemma text_lines_clean db html_get_text html :
  Forall clean_line (text_lines db html_get_text html).
Proof.
  unfold text_lines. apply Forall_forall. intros l Hl.
  apply filter_In in Hl. destruct Hl as [Hin Hne].
  apply in_map_iff in Hin. destruct Hin as [l0 [<- _]].
  apply normalize_clean. intros E. rewrite E in Hne. discriminate.
Qed.

Lemma clean_prefix (ls : list str) q :
  Forall clean_line ls -> Forall clean_line (take_until q ls).
Proof.
  intros H. destruct (take_until_prefix q ls) as [rest E].
  rewrite E in H. apply Forall_app in H. tauto.
Qed.

(** The block [extract_term_block_text] cuts out of the academic-year
    page.  For a spring term it runs from the first line that holds
    [Spring {year}] up to the next line that holds the heading of another
    term.  Any other semester is read as a fall term and the call does not
    raise: the block runs from the top of the page up to the first line
    that holds [Spring {year + 1}], or, when there is none, up to the first
    line with a heading [Spring] and four digits, or to the end of the
    page.  The lines of the block are lines of the page, and splitting the
    block again gives them back. *)
Theorem term_block db html_get_text (academic_html : str) year (semester : str) :
  let lines := text_lines db html_get_text academic_html in
  let block := extract_term_block_text db html_get_text academic_html year
                                       semester in
  (str_eqb (lower db semester) (s "spring") = true ->
   let key := s "Spring " ++ str_of_int year in
   forall pre x post,
     lines = pre ++ x :: post -> contains key x = true ->
     (forall y, In y pre -> contains key y = false) ->
     let body := take_until (other_term_heading db key) post in
     block = Ok (join newline (x :: body)) /\
     block_lines (join newline (x :: body)) = x :: body) /\
  (str_eqb (lower db semester) (s "spring") = false ->
   let key := s "Spring " ++ str_of_int (year + 1) in
   exists kept,
     block = Ok (join newline kept) /\
     block_lines (join newline kept) = kept /\
     ((exists l, In l lines /\ contains key l = true) ->
      kept = take_until (contains key) lines) /\
     ((forall l, In l lines -> contains key l = false) ->
      kept = take_until (searches db false pat_spring_heading) lines)).
Proof.
  cbv zeta. pose proof (text_lines_clean db html_get_text academic_html) as Hclean.
  unfold extract_term_block_text. cbv zeta.
  set (lines := text_lines db html_get_text academic_html) in *.
  split.
  - intros Hs pre x post E Hx Hpre. rewrite Hs. cbv iota.
    rewrite E at 1.
    rewrite (find_index_first _ pre x post Hx Hpre).
    rewrite E, skipn_section.
    change (fun l : str => searches db false pat_term_heading l &&
                           negb (contains (s "Spring " ++ str_of_int year) l))
      with (other_term_heading db (s "Spring " ++ str_of_int year)).
    rewrite slice_section. split; [reflexivity|].
    apply block_lines_join.
    destruct (take_until_prefix
                (other_term_heading db (s "Spring " ++ str_of_int year)) post)
      as [rest Hrest].
    apply (clean_sublist lines pre rest); [exact Hclean|].
    rewrite E. cbn [app]. now rewrite <- Hrest.
  - intros Hs. rewrite Hs. cbv iota.
    set (key := s "Spring " ++ str_of_int (year + 1)).
    assert (F : forall q b,
               b = match find_index q lines with
                   | Some j => j | None => length lines end ->
               slice 0 b lines = take_until q lines).
    { intros q b ->. unfold slice. rewrite Nat.sub_0_r. cbn [skipn].
      apply take_until_find. }
    destruct (find_index (contains key) lines) as [i|] eqn:E1.
    + exists (take_until (contains key) lines).
      split; [f_equal; f_equal; apply F; now rewrite E1|].
      split; [apply block_lines_join, clean_prefix, Hclean|].
      split; [reflexivity|].
      intros H. apply find_index_none in H. congruence.
    + exists (take_until (searches db false pat_spring_heading) lines).
      split.
      { f_equal. f_equal. apply F.
        destruct (find_index (searches db false pat_spring_heading) lines);
          reflexivity. }
      split; [apply block_lines_join, clean_prefix, Hclean|].
      split; [|reflexivity].
      intros [l [Hl Hc]]. rewrite find_index_none in E1.
      rewrite (E1 l Hl) in Hc. discriminate.
Qed.

(** ** Page addresses *)

Lemma fmt_02d_digits n :
  0 <= n < 100 ->
  exists a b, fmt_02d n = [a; b] /\ 48 <= a <= 57 /\ 48 <= b <= 57.
Proof.
  intros Hn.
  assert (H : forallb (fun n => match fmt_02d n with
                                | [a; b] => (48 <=? a) && (a <=? 57) &&
                                            (48 <=? b) && (b <=? 57)
                                | _ => false
                                end) (zrange 0 99) = true)
    by (vm_compute; reflexivity).
  rewrite forallb_forall in H. specialize (H n).
  assert (Hin : In n (zrange 0 99)) by (apply in_zrange; lia).
  apply H in Hin. destruct (fmt_02d n) as [|a [|b [|c l]]]; try discriminate.
  exists a, b. rewrite !andb_true_iff, !Z.leb_le in Hin.
  split; [reflexivity|lia].
Qed.

(** The fall term of a year and the spring term of the next year are on
    the same academic-year page.  The slug has ten characters, [ay], the
    last two digits of the fall year and of the year after it, and [.php];
    only the last two digits of the year count, so a year and the year one
    hundred later share a slug. *)
Theorem academic_year_slug db year (fall spring : str) :
  lower db fall = s "fall" -> lower db spring = s "spring" ->
  academic_year_slug_for_term db (year + 1) spring
  = academic_year_slug_for_term db year fall /\
  academic_year_slug_for_term db (year + 100) fall
  = academic_year_slug_for_term db year fall /\
  exists a b c d,
    academic_year_slug_for_term db year fall
    = Ok (s "ay" ++ [a; b; c; d] ++ s ".php") /\
    read_digits 0 [a; b] = year mod 100 /\
    read_digits 0 [c; d] = (year + 1) mod 100.
Proof.
  intros Hf Hs. unfold academic_year_slug_for_term. rewrite Hf, Hs.
  change (semester_known (s "fall")) with true.
  change (semester_known (s "spring")) with true.
  change (str_eqb (s "fall") (s "fall")) with true.
  change (str_eqb (s "spring") (s "fall")) with false.
  cbv iota beta zeta. cbn [negb].
  split; [|split].
  - replace (year + 1 - 1) with year by lia. reflexivity.
  - replace ((year + 100) mod 100) with (year mod 100)
      by (replace (year + 100) with (year + 1 * 100) by lia;
          now rewrite Z.mod_add by lia).
    replace ((year + 100 + 1) mod 100) with ((year + 1) mod 100)
      by (replace (year + 100 + 1) with (year + 1 + 1 * 100) by lia;
          now rewrite Z.mod_add by lia).
    reflexivity.
  - pose proof (Z.mod_pos_bound year 100 ltac:(lia)) as H1.
    pose proof (Z.mod_pos_bound (year + 1) 100 ltac:(lia)) as H2.
    assert (R : forall n, 0 <= n < 100 ->
                exists a b, fmt_02d n = [a; b] /\ read_digits 0 [a; b] = n).
    { intros n Hn.
      assert (H : forallb (fun n => match fmt_02d n with
                                    | [a; b] => read_digits 0 [a; b] =? n
                                    | _ => false
                                    end) (zrange 0 99) = true)
        by (vm_compute; reflexivity).
      rewrite forallb_forall in H. specialize (H n).
      assert (Hin : In n (zrange 0 99)) by (apply in_zrange; lia).
      apply H in Hin. destruct (fmt_02d n) as [|a [|b [|c l]]]; try discriminate.
      exists a, b. apply Z.eqb_eq in Hin. auto. }
    destruct (R _ H1) as [a [b [E1 R1]]]. destruct (R _ H2) as [c [d [E2 R2]]].
    exists a, b, c, d. rewrite E1, E2. auto.
Qed.

Lemma academic_year_slug_witness :
  academic_year_slug_for_term ascii_db 2026 (s "Spring")
  = academic_year_slug_for_term ascii_db 2025 (s "FALL").
Proof.
  apply (academic_year_slug ascii_db 2025 (s "FALL") (s "Spring"));
    vm_compute; reflexivity.
Defined.

(** [candidate_dates_deadlines_urls] checks nothing and always proposes
    two addresses under [DATES_BASE] that end in [-dates.php]: the
    lowercased semester followed by the two-digit year, and the two-digit
    year followed by [f] for a fall term and by [s] for anything else.
    The two are never the same address, and only the last two digits of
    the year count. *)
Theorem deadlines_url_candidates db year (semester : str) :
  exists yy,
    fmt_02d (year mod 100) = yy /\ length yy = 2%nat /\
    candidate_dates_deadlines_urls db year semester
    = [DATES_BASE ++ s "/" ++ lower db semester ++ yy ++ s "-dates.php";
       DATES_BASE ++ s "/" ++ yy ++
         (if str_eqb (lower db semester) (s "fall") then s "f" else s "s") ++
         s "-dates.php"] /\
    NoDup (candidate_dates_deadlines_urls db year semester) /\
    candidate_dates_deadlines_urls db (year + 100) semester
    = candidate_dates_deadlines_urls db year semester.
Proof.
  pose proof (Z.mod_pos_bound year 100 ltac:(lia)) as Hy.
  destruct (fmt_02d_digits _ Hy) as [a [b [E [Ha Hb]]]].
  exists [a; b]. split; [exact E|]. split; [reflexivity|].
  unfold candidate_dates_deadlines_urls. cbv zeta. rewrite E.
  split; [reflexivity|]. split.
  - constructor; [|constructor; [intros []|constructor]].
    intros [H|[]].
    apply app_inv_head in H. apply app_inv_head in H.
    set (code := if str_eqb (lower db semester) (s "fall") then s "f" else s "s") in H.
    assert (Hc : code = [102] \/ code = [115])
      by (unfold code; destruct (str_eqb (lower db semester) (s "fall")); auto).
    replace ([a; b] ++ code ++ s "-dates.php")
      with (([a; b] ++ code) ++ s "-dates.php") in H by now rewrite <- app_assoc.
    replace (lower db semester ++ [a; b] ++ s "-dates.php")
      with ((lower db semester ++ [a; b]) ++ s "-dates.php") in H
      by now rewrite <- app_assoc.
    apply app_inv_tail in H.
    destruct (lower db semester) as [|x [|y l]].
    + destruct Hc as [-> | ->]; discriminate.
    + destruct Hc as [-> | ->]; cbn [app] in H;
        assert (b = 102 \/ b = 115) by (injection H; intros; subst; auto); lia.
    + apply (f_equal (@length Z)) in H. rewrite !length_app in H.
      destruct Hc as [-> | ->]; cbn [length] in H; lia.
  - replace ((year + 100) mod 100) with (year mod 100)
      by (replace (year + 100) with (year + 1 * 100) by lia;
          now rewrite Z.mod_add by lia).
    now rewrite E.
Qed.

(** ** Labelled bullets *)

Section Labels.
Variable db : unicode_db.

Lemma lits_startswith (A : Type) (label : str) : forall pv t caps
    (k : option Z -> str -> list str -> option A),
  m db A false (lits label) pv t caps k <> None -> startswith label t = true.
Proof.
  unfold lits. induction label as [|x label IH]; intros pv t caps k H;
    [reflexivity|].
  destruct label as [|y label].
  - cbn [map cat m] in H. destruct t as [|c t']; [congruence|].
    destruct (Z.eqb_spec c x) as [->|Hne]; [|congruence].
    cbn [startswith]. now rewrite Z.eqb_refl.
  - change (cat (map Lit (x :: y :: label)))
      with (Seq (Lit x) (cat (map Lit (y :: label)))) in H.
    cbn [m] in H. destruct t as [|c t']; [congruence|].
    destruct (Z.eqb_spec c x) as [->|Hne]; [|congruence].
    apply IH in H.
    change (startswith (x :: y :: label) (x :: t'))
      with ((x =? x) && startswith (y :: label) t').
    now rewrite Z.eqb_refl, H.
Qed.

Lemma search_contains (r : re) (label : str) :
  (forall before pv t, match_at db false r before pv t <> None ->
                       startswith label t = true) ->
  forall t br pv, search_from db false r br pv t <> None ->
                  contains label t = true.
Proof.
  intros Hr. induction t as [|c t IH]; intros br pv H; cbn [search_from] in H.
  - destruct (match_at db false r (rev br) pv []) eqn:E; [|congruence].
    cbn [contains]. rewrite (Hr (rev br) pv []) by congruence. reflexivity.
  - destruct (match_at db false r (rev br) pv (c :: t)) eqn:E.
    + cbn [contains]. rewrite (Hr (rev br) pv (c :: t)) by congruence. reflexivity.
    + apply IH in H. cbn [contains]. rewrite H. apply orb_true_r.
Qed.

Lemma bullet_date_label label before pv t :
  match_at db false (pat_bullet_date label) before pv t <> None ->
  startswith label t = true.
Proof.
  unfold match_at, pat_bullet_date.
  match goal with
  | |- context [cat (?a :: ?rest)] =>
      change (cat (a :: rest)) with (Seq a (cat rest))
  end.
  cbn [m]. apply lits_startswith.
Qed.

Lemma bullet_range_label label before pv t :
  match_at db false (pat_bullet_range label) before pv t <> None ->
  startswith label t = true.
Proof.
  unfold match_at, pat_bullet_range.
  match goal with
  | |- context [cat (?a :: ?rest)] =>
      change (cat (a :: rest)) with (Seq a (cat rest))
  end.
  cbn [m]. apply lits_startswith.
Qed.
End Labels.

Lemma absent_label db dateutil_parse today (term_text label : str) :
  contains label term_text = false ->
  find_bullet_date db dateutil_parse today term_text label = Ok None /\
  find_bullet_range db dateutil_parse today term_text label = Ok None.
Proof.
  intros Hc. unfold find_bullet_date, find_bullet_range, re_search. split.
  - destruct (search_from db false (pat_bullet_date label) [] None term_text)
      eqn:E; [|reflexivity].
    rewrite (search_contains db _ label (bullet_date_label db label)
               term_text [] None) in Hc; [discriminate|congruence].
  - destruct (search_from db false (pat_bullet_range label) [] None term_text)
      eqn:E; [|reflexivity].
    rewrite (search_contains db _ label (bullet_range_label db label)
               term_text [] None) in Hc; [discriminate|congruence].
Qed.

(** A label that does not occur in the term text is not found: the two
    bullet readers return [None] and do not call the date converter, so
    they cannot raise, and [find_any_labeled_ranges] over labels that are
    all absent returns the empty list. *)
Theorem absent_label_not_found db dateutil_parse today (term_text : str) :
  (forall label, contains label term_text = false ->
     find_bullet_date db dateutil_parse today term_text label = Ok None /\
     find_bullet_range db dateutil_parse today term_text label = Ok None) /\
  (forall labels,
     (forall label, In label labels -> contains label term_text = false) ->
     find_any_labeled_ranges db dateutil_parse today term_text labels = Ok []).
Proof.
  assert (H : forall label, contains label term_text = false ->
     find_bullet_date db dateutil_parse today term_text label = Ok None /\
     find_bullet_range db dateutil_parse today term_text label = Ok None)
    by (intros label; apply absent_label).
  split; [exact H|].
  induction labels as [|lab labels IH]; intros Hl; [reflexivity|].
  cbn [find_any_labeled_ranges].
  destruct (H lab) as [_ ->]; [apply Hl; now left|]. cbn [bind].
  rewrite IH; [reflexivity|]. intros l Hin. apply Hl. now right.
Qed.

(** *** A bullet that is there *)

Section Bullets.
Variable db : unicode_db.
Hypothesis apart : digits_apart db.

Lemma lits_match (A : Type) (label : str) : forall pv t caps
    (k : option Z -> str -> list str -> option A),
  m db A false (lits label) pv (label ++ t) caps k
  = k (last_char label pv) t caps.
Proof.
  unfold lits. induction label as [|x label IH]; intros pv t caps k;
    [reflexivity|].
  destruct label as [|y label].
  - cbn [map cat m app]. now rewrite Z.eqb_refl.
  - change (cat (map Lit (x :: y :: label)))
      with (Seq (Lit x) (cat (map Lit (y :: label)))).
    cbn [m]. change ((x :: y :: label) ++ t) with (x :: (y :: label) ++ t).
    cbv iota. rewrite Z.eqb_refl, IH.
    now rewrite (last_char_cons x (y :: label) pv).
Qed.

Lemma rep_longest_hi (A : Type) p : forall run lo hi pv t
    (k : option Z -> str -> option A) r,
  all_in db p run -> (length run <= hi)%nat ->
  (length run = hi \/ stops db p t) -> (lo <= length run)%nat ->
  k (last_char run pv) t = Some r ->
  rep db A p lo (Some hi) pv (run ++ t) k = Some r.
Proof.
  induction run as [|c run IH]; intros lo hi pv t k r Hall Hhi Hend Hlo Hk.
  - cbn [length] in Hlo. assert (lo = O) by lia. subst lo.
    cbn [app]. destruct t as [|c t]; cbn [rep]; [exact Hk|].
    destruct Hend as [E|Hstop].
    + cbn [length] in E. subst hi. cbn [more]. rewrite andb_false_r. exact Hk.
    + cbn [stops] in Hstop. rewrite Hstop. exact Hk.
  - inversion Hall as [|? ? Hc Hrun]; subst. cbn [length] in Hhi, Hlo, Hend.
    destruct hi as [|hi]; [lia|].
    cbn [app rep]. rewrite Hc. cbn [more andb option_map pred].
    rewrite (IH (pred lo) hi (Some c) t k r); try assumption;
      [reflexivity|lia| |lia|].
    + destruct Hend as [E|Hs]; [left; lia|now right].
    + now rewrite (last_char_cons c run pv).
Qed.

Lemma bullet_date_match (label ws1 ws2 : str) x (rest : str) before pv :
  all_in db CSpace ws1 -> all_in db CSpace ws2 ->
  bd_wf db x -> bd_ws2 x <> [] ->
  exists mo,
    match_at db false (pat_bullet_date label) before pv
             (label ++ ws1 ++ [58] ++ ws2 ++ bd_text x ++ rest) = Some mo /\
    group mo 1 = bd_text x.
Proof.
  intros Hw1 Hw2 Hx Hws. destruct x as [mon w1 d w2 yyyy].
  unfold bd_wf, bd_text in *. cbn [bd_mon bd_ws1 bd_d bd_ws2 bd_yyyy] in *.
  destruct Hx as [Hm0 [Hm [Hw0 [Hw [Hd [Hdl [Hw' [Hy Hyl]]]]]]]].
  eexists. split.
  - unfold match_at, pat_bullet_date, star, plus, between. cbn [cat m].
    rewrite lits_match.
    apply rep_longest; [exact Hw1|reflexivity|cbn; lia|].
    cbn [app]. rewrite Z.eqb_refl.
    apply rep_longest; [exact Hw2| |cbn; lia|].
    { rewrite <- !app_assoc. apply stops_space_word; assumption. }
    rewrite <- !app_assoc.
    apply rep_longest; [exact Hm| |apply nonempty_length; exact Hm0|].
    { apply stops_first; [exact Hw0|]. intros c Hc.
      apply space_not_alpha. now apply (all_in_In db CSpace w1). }
    apply rep_longest; [exact Hw| |apply nonempty_length; exact Hw0|].
    { apply (stops_space_digits db apart); [exact Hd|lia]. }
    apply rep_longest_hi; [exact Hd|lia| |lia|].
    { right. cbn [app stops]. apply (mark_not_digit db apart). }
    cbn [app]. rewrite Z.eqb_refl, <- !app_assoc.
    apply rep_longest; [exact Hw'| |apply nonempty_length; exact Hws|].
    { apply (stops_space_digits db apart); [exact Hy|lia]. }
    apply rep_longest_hi; [exact Hy|lia|left; exact Hyl|lia|].
    reflexivity.
  - cbn [group m_groups nth app].
    replace (mon ++ w1 ++ d ++ 44 :: w2 ++ yyyy ++ rest)
      with ((mon ++ w1 ++ d ++ [44] ++ w2 ++ yyyy) ++ rest)
      by (now rewrite <- !app_assoc).
    apply firstn_consumed.
Qed.
Lemma bullet_range_match (label ws1 ws2 : str) dash x (rest : str) before pv :
  dash = 45 \/ dash = en_dash -> is_digit db dash = false ->
  all_in db CSpace ws1 -> all_in db CSpace ws2 -> md_wf db x ->
  exists mo,
    match_at db false (pat_bullet_range label) before pv
             (label ++ ws1 ++ [58] ++ ws2 ++ md_text_dash dash x ++ rest)
    = Some mo /\
    group mo 1 = md_text_dash dash x.
Proof.
  intros Hdash Hdd Hw1 Hw2 Hx.
  destruct x as [mon w1 d1 w2 w3 d2 w4 yyyy].
  unfold md_wf, md_text_dash in *.
  cbn [md_mon md_ws1 md_d1 md_ws2 md_ws3 md_d2 md_ws4 md_yyyy] in *.
  destruct Hx as [Hm0 [Hm [Hw0 [Hw [Hd1 [Hd1l [Hws2 [Hws3 [Hd2 [Hd2l
                   [Hws4 [Hy Hyl]]]]]]]]]]]].
  assert (Hds : in_cls db CSpace dash = false)
    by (destruct Hdash as [-> | ->]; reflexivity).
  eexists. split.
  - unfold match_at, pat_bullet_range, star, plus, between. cbn [cat m].
    rewrite lits_match.
    apply rep_longest; [exact Hw1|reflexivity|cbn; lia|].
    cbn [app]. rewrite Z.eqb_refl.
    apply rep_longest; [exact Hw2| |cbn; lia|].
    { rewrite <- !app_assoc. apply stops_space_word; assumption. }
    rewrite <- !app_assoc.
    apply rep_longest; [exact Hm| |apply nonempty_length; exact Hm0|].
    { apply stops_first; [exact Hw0|]. intros c Hc.
      apply space_not_alpha. now apply (all_in_In db CSpace w1). }
    apply rep_longest; [exact Hw| |apply nonempty_length; exact Hw0|].
    { apply (stops_space_digits db apart); [exact Hd1|lia]. }
    apply rep_longest_hi; [exact Hd1|lia| |lia|].
    { right. destruct w2 as [|c w2]; cbn [app stops]; [exact Hdd|].
      apply (space_not_digit db apart). now inversion Hws2. }
    apply rep_longest; [exact Hws2|exact Hds|lia|].
    cbn [app in_cls].
    replace ((dash =? ch "-") || (dash =? en_dash)) with true
      by (destruct Hdash as [-> | ->]; reflexivity).
    rewrite <- !app_assoc.
    apply rep_longest; [exact Hws3| |lia|].
    { apply (stops_space_digits db apart); [exact Hd2|lia]. }
    apply rep_longest_hi; [exact Hd2|lia| |lia|].
    { right. cbn [app stops]. apply (mark_not_digit db apart). }
    cbn [app]. rewrite Z.eqb_refl, <- !app_assoc.
    apply rep_longest; [exact Hws4| |lia|].
    { apply (stops_space_digits db apart); [exact Hy|lia]. }
    apply rep_longest_hi; [exact Hy|lia|left; exact Hyl|lia|].
    reflexivity.
  - cbn [group m_groups nth app].
    replace (mon ++ w1 ++ d1 ++ w2 ++ dash :: w3 ++ d2 ++ 44 :: w4 ++ yyyy ++ rest)
      with ((mon ++ w1 ++ d1 ++ w2 ++ [dash] ++ w3 ++ d2 ++ [44] ++ w4 ++ yyyy)
              ++ rest)
      by (now rewrite <- !app_assoc).
    apply firstn_consumed.
Qed.

Lemma search_from_hit (r : re) br pv (t : str) mo :
  match_at db false r (rev br) pv t = Some mo ->
  search_from db false r br pv t = Some mo.
Proof. intros H. destruct t; cbn [search_from]; now rewrite H. Qed.

Lemma search_first (r : re) (pre : str) : forall br pv (t : str),
  (forall i, (i < length pre)%nat -> forall before pv',
      match_at db false r before pv' (skipn i (pre ++ t)) = None) ->
  search_from db false r br pv (pre ++ t)
  = search_from db false r (rev pre ++ br) (last_char pre pv) t.
Proof.
  induction pre as [|c pre IH]; intros br pv t H; [reflexivity|].
  cbn [app search_from].
  rewrite (H O ltac:(cbn; lia) (rev br) pv : match_at _ _ _ _ _ (c :: pre ++ t) = None).
  rewrite IH.
  - cbn [rev]. rewrite <- app_assoc. cbn [app].
    now rewrite (last_char_cons c pre pv).
  - intros i Hi before pv'. apply (H (S i)). cbn [length]. lia.
Qed.
End Bullets.

(** When the first place where [label] occurs in the term text is the
    start of [label: Month D, YYYY], with or without whitespace around the
    colon, [find_bullet_date] hands that [Month D, YYYY] to the date
    converter and returns what it reads, whatever follows the year. *)
Theorem first_bullet_date db dateutil_parse today
        (term_text pre label ws1 ws2 : str) x (rest : str) :
  digits_apart db ->
  term_text = pre ++ label ++ ws1 ++ [58] ++ ws2 ++ bd_text x ++ rest ->
  (forall i, (i < length pre)%nat ->
             startswith label (skipn i term_text) = false) ->
  all_in db CSpace ws1 -> all_in db CSpace ws2 ->
  bd_wf db x -> bd_ws2 x <> [] ->
  find_bullet_date db dateutil_parse today term_text label
  = (d <- parse_month_day_year dateutil_parse today (bd_text x) ;; Ok (Some d)).
Proof.
  intros apart -> Hfirst Hw1 Hw2 Hx Hws. unfold find_bullet_date, re_search.
  rewrite search_first.
  - destruct (bullet_date_match db apart label ws1 ws2 x rest
                (rev (rev pre ++ [])) (last_char pre None) Hw1 Hw2 Hx Hws)
      as [mo [Hmo Hg]].
    rewrite (search_from_hit db _ _ _ _ _ Hmo). now rewrite Hg.
  - intros i Hi before pv'.
    destruct (match_at db false (pat_bullet_date label) before pv'
                (skipn i (pre ++ label ++ ws1 ++ [58] ++ ws2 ++ bd_text x ++ rest)))
      eqn:E; [|reflexivity].
    assert (Hs : match_at db false (pat_bullet_date label) before pv'
                   (skipn i (pre ++ label ++ ws1 ++ [58] ++ ws2 ++ bd_text x ++ rest))
                 <> None) by congruence.
    apply bullet_date_label in Hs. rewrite (Hfirst i Hi) in Hs. discriminate.
Qed.

(** The same for a range: when the first place where [label] occurs is
    the start of [label: Month D1-D2, YYYY], written with a hyphen or an en
    dash, [find_bullet_range] hands that text to [parse_range]. *)
Theorem first_bullet_range db dateutil_parse today
        (term_text pre label ws1 ws2 : str) dash x (rest : str) :
  digits_apart db ->
  dash = 45 \/ dash = en_dash -> is_digit db dash = false ->
  term_text = pre ++ label ++ ws1 ++ [58] ++ ws2 ++ md_text_dash dash x ++ rest ->
  (forall i, (i < length pre)%nat ->
             startswith label (skipn i term_text) = false) ->
  all_in db CSpace ws1 -> all_in db CSpace ws2 -> md_wf db x ->
  find_bullet_range db dateutil_parse today term_text label
  = (r <- parse_range db dateutil_parse today (md_text_dash dash x) ;;
     Ok (Some r)).
Proof.
  intros apart Hdash Hdd -> Hfirst Hw1 Hw2 Hx. unfold find_bullet_range, re_search.
  rewrite search_first.
  - destruct (bullet_range_match db apart label ws1 ws2 dash x rest
                (rev (rev pre ++ [])) (last_char pre None) Hdash Hdd Hw1 Hw2 Hx)
      as [mo [Hmo Hg]].
    rewrite (search_from_hit db _ _ _ _ _ Hmo). now rewrite Hg.
  - intros i Hi before pv'.
    destruct (match_at db false (pat_bullet_range label) before pv'
                (skipn i (pre ++ label ++ ws1 ++ [58] ++ ws2 ++
                          md_text_dash dash x ++ rest)))
      eqn:E; [|reflexivity].
    assert (Hs : match_at db false (pat_bullet_range label) before pv'
                   (skipn i (pre ++ label ++ ws1 ++ [58] ++ ws2 ++ md_text_dash dash x ++ rest))
                 <> None) by congruence.
    apply bullet_range_label in Hs. rewrite (Hfirst i Hi) in Hs. discriminate.
Qed.

(** A bullet of the academic-year page. *)
Lemma first_bullet_date_witness :
  find_bullet_date ascii_db month_day_year_converter day0
    (s "* First Day of Classes: August 25, 2025 / Monday")
    (s "First Day of Classes")
  = Ok (Some (ymd2ord 2025 8 25)).
Proof.
  rewrite (first_bullet_date ascii_db month_day_year_converter day0
             (s "* First Day of Classes: August 25, 2025 / Monday")
             (s "* ") (s "First Day of Classes") [] (s " ") august_25
             (s " / Monday")).
  - vm_compute. reflexivity.
  - exact ascii_db_apart.
  - vm_compute. reflexivity.
  - intros i Hi. destruct i as [|[|i]]; [reflexivity|reflexivity|].
    cbn in Hi. lia.
  - constructor.
  - repeat constructor.
  - unfold bd_wf, all_in. cbn.
    repeat split; try discriminate; try lia; repeat constructor.
  - discriminate.
Defined.

(** A range written with an en dash. *)
Lemma first_bullet_range_witness :
  find_bullet_range ascii_db month_day_year_converter day0
    (s "Thanksgiving Holidays: November 26" ++ [en_dash] ++ s "30, 2025 / Wednesday-Sunday")
    (s "Thanksgiving Holidays")
  = Ok (Some (mkDateRange (ymd2ord 2025 11 26) (ymd2ord 2025 11 30))).
Proof.
  rewrite (first_bullet_range ascii_db month_day_year_converter day0
             (s "Thanksgiving Holidays: November 26" ++ [en_dash] ++
              s "30, 2025 / Wednesday-Sunday")
             [] (s "Thanksgiving Holidays") [] (s " ") en_dash november_26_30
             (s " / Wednesday-Sunday")).
  - vm_compute. reflexivity.
  - exact ascii_db_apart.
  - now right.
  - reflexivity.
  - vm_compute. reflexivity.
  - intros i Hi. cbn in Hi. lia.
  - constructor.
  - repeat constructor.
  - unfold md_wf, all_in. cbn.
    repeat split; try discriminate; try lia; repeat constructor.
Defined.

(** ** What a run requests and returns *)

Lemma bind_lift_inv {A B : Type} (r : result A) (k : A -> io B) log p log' :
  io_bind (io_lift r) k log = (Ok p, log') ->
  exists a, r = Ok a /\ k a log = (Ok p, log').
Proof.
  unfold io_bind, io_lift. destruct r as [a|e]; [|discriminate]. eauto.
Qed.

Lemma bind_fetch_inv {B : Type} pages url (k : str -> io B) log p log' :
  io_bind (fetch_html pages url) k log = (Ok p, log') ->
  exists html, pages url = Some html /\ k html (log ++ [url]) = (Ok p, log').
Proof.
  unfold io_bind, fetch_html. destruct (pages url) as [html|]; [|discriminate].
  eauto.
Qed.

Lemma fetch_first_two pages u1 u2 log :
  fetch_first pages [u1; u2] log =
  match pages u1 with
  | Some html => (Ok (Some html, Some u1), log ++ [u1])
  | None =>
      match pages u2 with
      | Some html => (Ok (Some html, Some u2), log ++ [u1; u2])
      | None => (Ok (None, None), log ++ [u1; u2])
      end
  end.
Proof.
  cbn [fetch_first]. unfold io_bind, io_try, fetch_html, io_ret.
  destruct (pages u1); [reflexivity|].
  rewrite <- app_assoc. cbn [app]. destruct (pages u2); reflexivity.
Qed.

Section RunOutcome.
Variable db : unicode_db.
Variable dateutil_parse : date -> bool -> str -> result date.
Variable today : date.
Variable html_get_text : str -> str.
Variable pages : str -> option str.
Variable year : Z.
Variable semester : str.

Let run := build_term_events db dateutil_parse today html_get_text pages
                             year semester.
Let sem := lower db semester.
Let u1 := nth 0 (candidate_dates_deadlines_urls db year sem) [].
Let u2 := nth 1 (candidate_dates_deadlines_urls db year sem) [].

Lemma candidates_two : candidate_dates_deadlines_urls db year sem = [u1; u2].
Proof. reflexivity. Qed.

(** What stands behind a payload: every step of the run went through. *)
Lemma run_ok_inv log p log' :
  run log = (Ok p, log') ->
  exists ay_slug academic_html block single_holidays breaks dd_html deadlines,
    let term_text := extract_subsection block (s "Full Part of Term") in
    semester_known sem = true /\
    academic_year_slug_for_term db year sem = Ok ay_slug /\
    ay_url p = ACADEMIC_BASE ++ s "/" ++ ay_slug /\
    pages (ay_url p) = Some academic_html /\
    extract_term_block_text db html_get_text academic_html year sem = Ok block /\
    find_bullet_date db dateutil_parse today term_text
                     (s "First Day of Classes") = Ok (Some (first_day p)) /\
    find_bullet_date db dateutil_parse today term_text
                     (s "Last Day of Classes") = Ok (Some (last_day p)) /\
    find_bullet_date db dateutil_parse today term_text (s "Study Day")
    = Ok (study_day p) /\
    find_bullet_range db dateutil_parse today term_text (s "Exams")
    = Ok (exams_rng p) /\
    find_single_holidays db dateutil_parse today term_text
                         [s "Labor Day"; s "M. L. King, Jr. Holiday"]
    = Ok single_holidays /\
    find_any_labeled_ranges db dateutil_parse today term_text break_like_labels
    = Ok breaks /\
    fetch_first pages [u1; u2] (log ++ [ay_url p])
    = (Ok (Some dd_html, Some (dd_url p)), log') /\
    dd_html <> [] /\
    parse_deadlines_drop_withdraw db dateutil_parse today html_get_text dd_html
    = Ok deadlines /\
    last_drop_no_grade p = fst deadlines /\
    last_withdraw_w p = snd deadlines /\
    holidays_in_term p
    = holidays_of (mkDateRange (first_day p) (last_day p)) single_holidays /\
    breaks_in_term p
    = breaks_of (mkDateRange (first_day p) (last_day p)) breaks /\
    instructional_week_events
      (first_day p) (last_day p)
      (blackouts_of (first_day p) (last_day p) (breaks_in_term p)
                    (holidays_in_term p))
    = Ok (week_events p).
Proof.
  unfold run, build_term_events. cbv zeta. fold sem. intros H.
  destruct (semester_known sem) eqn:Hk; [|discriminate]. cbn [negb] in H.
  apply bind_lift_inv in H. destruct H as [ay_slug [Eslug H]].
  apply bind_fetch_inv in H. destruct H as [academic_html [Epage H]].
  apply bind_lift_inv in H. destruct H as [block [Eblock H]].
  apply bind_lift_inv in H. destruct H as [fd [Efd H]].
  apply bind_lift_inv in H. destruct H as [ld [Eld H]].
  apply bind_lift_inv in H. destruct H as [sd [Esd H]].
  apply bind_lift_inv in H. destruct H as [ex [Eex H]].
  destruct fd as [fd|]; [|discriminate]. destruct ld as [ld|]; [|discriminate].
  apply bind_lift_inv in H. destruct H as [ignored [_ H]].
  apply bind_lift_inv in H. destruct H as [single_holidays [Ehol H]].
  apply bind_lift_inv in H. destruct H as [breaks [Ebr H]].
  rewrite candidates_two in H. unfold io_bind at 1 in H.
  match type of H with
  | context [fetch_first ?a ?b ?c] =>
      destruct (fetch_first a b c)
        as [[[dd_html dd_url_used]|e] log1] eqn:Efetch; [|discriminate]
  end.
  destruct dd_html as [dd_html|];
    [|destruct dd_url_used; unfold io_lift in H; discriminate].
  destruct dd_url_used as [dd_url_used|]; [|unfold io_lift in H; discriminate].
  destruct (nonempty dd_html) eqn:Hne; [|unfold io_lift in H; discriminate].
  apply bind_lift_inv in H. destruct H as [deadlines [Edl H]].
  apply bind_lift_inv in H. destruct H as [weeks [Ew H]].
  unfold io_ret in H. injection H as <- <-.
  cbn [ay_url dd_url first_day last_day study_day exams_rng breaks_in_term
       holidays_in_term last_drop_no_grade last_withdraw_w week_events].
  exists ay_slug, academic_html, block, single_holidays, breaks, dd_html, deadlines.
  cbv zeta. repeat (split; [assumption || reflexivity|]).
  split; [intros ->; discriminate|].
  repeat (split; [assumption || reflexivity|]). exact Ew.
Qed.
End RunOutcome.

Lemma find_any_labeled_sub db dateutil_parse today term_text labels :
  forall found,
    find_any_labeled_ranges db dateutil_parse today term_text labels = Ok found ->
    (forall lr, In lr found -> In (fst lr) labels) /\
    (NoDup labels -> NoDup (map fst found)).
Proof.
  induction labels as [|lab labels IH]; intros found; cbn [find_any_labeled_ranges].
  - intros [= <-]. split; [intros lr []|constructor].
  - destruct (find_bullet_range db dateutil_parse today term_text lab)
      as [rng|]; [|discriminate]. cbn [bind].
    destruct (find_any_labeled_ranges db dateutil_parse today term_text labels)
      as [found'|]; [|discriminate]. cbn [bind].
    destruct (IH found' eq_refl) as [Hin Hnd]. intros [= <-].
    destruct rng as [r|].
    + split.
      * intros lr [<-|H]; [now left|right; now apply Hin].
      * intros Hl. inversion Hl as [|? ? Hn Hl']; subst. cbn [map fst].
        constructor; [|now apply Hnd].
        intros H. apply in_map_iff in H. destruct H as [lr [E H]].
        apply Hin in H. rewrite E in H. contradiction.
    + split.
      * intros lr H. right. now apply Hin.
      * intros Hl. inversion Hl; subst. now apply Hnd.
Qed.

Lemma find_single_holidays_sub db dateutil_parse today term_text labels :
  forall found,
    find_single_holidays db dateutil_parse today term_text labels = Ok found ->
    forall ld, In ld found -> In (fst ld) labels.
Proof.
  induction labels as [|lab labels IH]; intros found; cbn [find_single_holidays].
  - intros [= <-] ld [].
  - destruct (find_bullet_date db dateutil_parse today term_text lab)
      as [d|]; [|discriminate]. cbn [bind].
    destruct (find_single_holidays db dateutil_parse today term_text labels)
      as [found'|]; [|discriminate]. cbn [bind].
    intros [= <-]. destruct d as [d|].
    + intros ld [<-|H]; [now left|right; now apply (IH found')].
    + intros ld H. right. now apply (IH found').
Qed.

Lemma NoDup_filter_fst {A B : Type} (f : A * B -> bool) (l : list (A * B)) :
  NoDup (map fst l) -> NoDup (map fst (filter f l)).
Proof.
  induction l as [|x l IH]; cbn [map filter]; [constructor|].
  intros H. inversion H as [|? ? Hn Hl]; subst.
  destruct (f x); [|now apply IH]. cbn [map]. constructor; [|now apply IH].
  intros Hin. apply Hn. apply in_map_iff in Hin. destruct Hin as [y [E Hy]].
  apply filter_In in Hy. apply in_map_iff. exists y. tauto.
Qed.

Lemma not_blackout first_day last_day
      (breaks_in_term holidays_in_term : list (str * DateRange)) d :
  is_blackout (blackouts_of first_day last_day breaks_in_term holidays_in_term) d
  = false ->
  first_day <= d <= last_day ->
  forall lr, In lr breaks_in_term \/ In lr holidays_in_term ->
             contains_day (snd lr) d = false.
Proof.
  unfold is_blackout, blackouts_of. rewrite existsb_app, orb_false_iff.
  intros [Hb Hh] Hd lr Hlr.
  destruct (contains_day (snd lr) d) eqn:E; [|reflexivity]. exfalso.
  destruct Hlr as [Hlr|Hlr].
  - assert (Ht : existsb (fun r => contains_day r d)
                   (map (fun lr => clamp (snd lr) first_day last_day)
                        breaks_in_term) = true).
    { apply existsb_exists. exists (clamp (snd lr) first_day last_day).
      split; [now apply (in_map (fun lr => clamp (snd lr) first_day last_day))|].
      unfold contains_day, clamp in *. cbn [start end_].
      rewrite andb_true_iff, !Z.leb_le in *. lia. }
    congruence.
  - assert (Ht : existsb (fun r => contains_day r d)
                   (map snd holidays_in_term) = true).
    { apply existsb_exists. exists (snd lr). split; [now apply in_map|exact E]. }
    congruence.
Qed.

(** What a payload guarantees.  The run asked for the academic-year page
    and then for the deadlines candidates in order, stopping at the first
    one that could be fetched, and that page was not empty.  The first and
    the last day of classes were both found in the term text.  The breaks
    kept are among the three break labels, each at most once, and meet the
    term; the holidays kept are single days of the term.  Every week event
    lies within the term, and it starts and ends on a weekday that lies in
    no kept break and is no kept holiday. *)
Theorem run_payload db dateutil_parse today html_get_text pages year
        (semester : str) log p log' :
  build_term_events db dateutil_parse today html_get_text pages year semester log
  = (Ok p, log') ->
  let term := mkDateRange (first_day p) (last_day p) in
  let urls := candidate_dates_deadlines_urls db year (lower db semester) in
  ((log' = log ++ [ay_url p; dd_url p] /\ dd_url p = nth 0 urls []) \/
   (log' = log ++ [ay_url p; nth 0 urls []; dd_url p] /\
    dd_url p = nth 1 urls [] /\ pages (nth 0 urls []) = None)) /\
  (exists html, pages (dd_url p) = Some html /\ html <> []) /\
  (exists academic_html block,
      pages (ay_url p) = Some academic_html /\
      extract_term_block_text db html_get_text academic_html year
                              (lower db semester) = Ok block /\
      contains (s "First Day of Classes")
               (extract_subsection block (s "Full Part of Term")) = true /\
      contains (s "Last Day of Classes")
               (extract_subsection block (s "Full Part of Term")) = true) /\
  Forall (fun lr => In (fst lr) break_like_labels /\
                    intersects (snd lr) term = true) (breaks_in_term p) /\
  NoDup (map fst (breaks_in_term p)) /\
  Forall (fun lr => In (fst lr) [s "Labor Day"; s "M. L. King, Jr. Holiday"] /\
                    start (snd lr) = end_ (snd lr) /\
                    contains_day term (start (snd lr)) = true)
         (holidays_in_term p) /\
  Forall (fun e =>
            first_day p <= event_start e /\ event_start e <= event_end e /\
            event_end e <= last_day p /\
            forall d, d = event_start e \/ d = event_end e ->
                      weekday d < 5 /\
                      forall lr, In lr (breaks_in_term p) \/
                                 In lr (holidays_in_term p) ->
                                 contains_day (snd lr) d = false)
         (week_events p).
Proof.
  intros H. apply run_ok_inv in H.
  destruct H as [ay_slug [academic_html [block [single_holidays [breaks
                [dd_html [deadlines H]]]]]]].
  cbv zeta in H.
  destruct H as [Hk [Eslug [Eay [Epage [Eblock [Efd [Eld [Esd [Eex [Ehol [Ebr
                [Efetch [Hne [Edl [Edrop [Ewd [Eh [Eb Ew]]]]]]]]]]]]]]]]]].
  cbv zeta. split; [|split; [|split; [|split; [|split; [|split]]]]].
  - rewrite fetch_first_two in Efetch.
    destruct (pages (nth 0 (candidate_dates_deadlines_urls db year
                              (lower db semester)) [])) as [h1|] eqn:E1.
    + left. injection Efetch as _ <- <-. rewrite <- app_assoc. auto.
    + destruct (pages (nth 1 (candidate_dates_deadlines_urls db year
                                (lower db semester)) [])) as [h2|] eqn:E2;
        [|discriminate].
      right. injection Efetch as _ <- <-. rewrite <- app_assoc. auto.
  - rewrite fetch_first_two in Efetch.
    destruct (pages (nth 0 (candidate_dates_deadlines_urls db year
                              (lower db semester)) [])) as [h1|] eqn:E1.
    + injection Efetch as <- <- _. eauto.
    + destruct (pages (nth 1 (candidate_dates_deadlines_urls db year
                                (lower db semester)) [])) as [h2|] eqn:E2;
        [|discriminate].
      injection Efetch as <- <- _. eauto.
  - exists academic_html, block. split; [exact Epage|]. split; [exact Eblock|].
    split.
    + destruct (contains (s "First Day of Classes")
                  (extract_subsection block (s "Full Part of Term"))) eqn:E;
        [reflexivity|].
      apply (absent_label db dateutil_parse today) in E.
      destruct E as [E _]. congruence.
    + destruct (contains (s "Last Day of Classes")
                  (extract_subsection block (s "Full Part of Term"))) eqn:E;
        [reflexivity|].
      apply (absent_label db dateutil_parse today) in E.
      destruct E as [E _]. congruence.
  - rewrite Eb. unfold breaks_of. apply Forall_forall. intros lr Hlr.
    apply filter_In in Hlr. destruct Hlr as [Hin Hi].
    split; [|exact Hi].
    now apply (find_any_labeled_sub _ _ _ _ _ _ Ebr).
  - rewrite Eb. unfold breaks_of. apply NoDup_filter_fst.
    apply (find_any_labeled_sub _ _ _ _ _ _ Ebr).
    unfold break_like_labels.
    repeat constructor; cbn [In]; intros Hc;
      repeat (destruct Hc as [Hc|Hc]; [discriminate|]); exact Hc.
  - rewrite Eh. unfold holidays_of. apply Forall_forall. intros lr Hlr.
    apply in_map_iff in Hlr. destruct Hlr as [ld [<- Hld]].
    apply filter_In in Hld. destruct Hld as [Hin Hc]. cbn [fst snd start end_].
    split; [|split; [reflexivity|exact Hc]].
    now apply (find_single_holidays_sub _ _ _ _ _ _ Ehol).
  - apply segmenter_sound in Ew. apply Forall_forall. intros e He.
    rewrite Ew in He. apply events_inside in He.
    destruct He as [Hs [He [H1 [H2 [H3 _]]]]].
    split; [exact H1|]. split; [exact H2|]. split; [exact H3|].
    intros d Hd.
    assert (Hi : instructional
                   (blackouts_of (first_day p) (last_day p) (breaks_in_term p)
                                 (holidays_in_term p)) d = true)
      by (destruct Hd as [-> | ->]; assumption).
    unfold instructional in Hi. apply andb_true_iff in Hi.
    destruct Hi as [Hw Hb]. apply negb_true_iff in Hw, Hb.
    apply Z.leb_gt in Hw. split; [exact Hw|].
    apply (not_blackout _ _ _ _ _ Hb). destruct Hd as [-> | ->]; lia.
Qed.

(** The fall term of the sample site: the first deadlines candidate is
    not served, the second one is. *)
Lemma run_payload_witness :
  exists p log',
    build_term_events ascii_db month_day_year_converter day0 plain_text
                      sample_site 2025 (s "Fall") [] = (Ok p, log') /\
    (length log' = 2%nat \/ length log' = 3%nat) /\
    NoDup (map fst (breaks_in_term p)).
Proof.
  destruct (build_term_events ascii_db month_day_year_converter day0 plain_text
                              sample_site 2025 (s "Fall") [])
    as [[p|e] log'] eqn:E.
  - exists p, log'. split; [reflexivity|].
    destruct (run_payload _ _ _ _ _ _ _ _ _ _ E)
      as [Hlog [_ [_ [_ [Hnd _]]]]].
    split; [|exact Hnd].
    destruct Hlog as [[Hl _]|[Hl _]]; rewrite Hl; [now left|now right].
  - vm_compute in E. discriminate E.
Defined.

Lemma bind_lift_cases {A B : Type} (r : result A) (k : A -> io B) log :
  io_bind (io_lift r) k log
  = match r with Ok a => k a log | Raise e => (Raise e, log) end.
Proof. destruct r; reflexivity. Qed.

Lemma bind_fetch_cases {B : Type} pages url (k : str -> io B) log :
  io_bind (fetch_html pages url) k log
  = match pages url with
    | Some html => k html (log ++ [url])
    | None => (Raise FetchError, log ++ [url])
    end.
Proof. unfold io_bind, fetch_html. destruct (pages url); reflexivity. Qed.

Lemma bind_cases {A B : Type} (c : io A) (k : A -> io B) log :
  io_bind c k log
  = match c log with
    | (Ok a, log') => k a log'
    | (Raise e, log') => (Raise e, log')
    end.
Proof. reflexivity. Qed.

Ltac lift_step H :=
  rewrite bind_lift_cases in H;
  match type of H with
  | (match ?r with Ok _ => _ | Raise _ => _ end) = _ => destruct r
  end.

Section Requests.
Variable db : unicode_db.
Variable dateutil_parse : date -> bool -> str -> result date.
Variable today : date.
Variable html_get_text : str -> str.
Variable pages : str -> option str.
Variable year : Z.
Variable semester : str.

Let run := build_term_events db dateutil_parse today html_get_text pages
                             year semester.
Let sem := lower db semester.
Let u1 := nth 0 (candidate_dates_deadlines_urls db year sem) [].
Let u2 := nth 1 (candidate_dates_deadlines_urls db year sem) [].

(** The ways a run can go, by the pages it asked for. *)
Lemma run_walk log r log' :
  run log = (r, log') ->
  (log' = log /\ exists e, r = Raise e /\
     (academic_year_slug_for_term db year sem = Raise e \/
      semester_known sem = false)) \/
  exists ay_slug,
    academic_year_slug_for_term db year sem = Ok ay_slug /\
    let ay := ACADEMIC_BASE ++ s "/" ++ ay_slug in
    (pages ay = None /\ r = Raise FetchError /\ log' = log ++ [ay]) \/
    (pages ay <> None /\
     ((log' = log ++ [ay] /\ exists e, r = Raise e) \/
      (exists html,
          pages u1 = Some html /\ log' = log ++ [ay; u1] /\
          (html = [] -> r = Raise (no_deadlines_page db year semester))) \/
      (pages u1 = None /\ log' = log ++ [ay; u1; u2] /\
       (pages u2 = None \/ pages u2 = Some [] ->
        r = Raise (no_deadlines_page db year semester))))).
Proof.
  unfold run, build_term_events. cbv zeta. fold sem. intros H.
  destruct (semester_known sem) eqn:Hk; cbn [negb] in H.
  2:{ unfold io_lift in H. injection H as <- <-. left.
      split; [reflexivity|]. eexists. split; [reflexivity|now right]. }
  rewrite bind_lift_cases in H.
  destruct (academic_year_slug_for_term db year sem) as [ay_slug|e] eqn:Eslug.
  2:{ injection H as <- <-. left.
      split; [reflexivity|]. exists e. split; [reflexivity|now left]. }
  right. exists ay_slug. split; [reflexivity|]. cbv zeta.
  rewrite bind_fetch_cases in H.
  destruct (pages (ACADEMIC_BASE ++ s "/" ++ ay_slug)) as [academic_html|] eqn:Epage.
  2:{ injection H as <- <-. left. auto. }
  right. split; [discriminate|].
  assert (Early : forall e,
             (Raise e, log ++ [ACADEMIC_BASE ++ s "/" ++ ay_slug]) = (r, log') ->
             log' = log ++ [ACADEMIC_BASE ++ s "/" ++ ay_slug] /\
             exists e', r = Raise e').
  { intros e0 [= <- <-]. split; [reflexivity|]. now exists e0. }
  lift_step H; [|left; now apply (Early e)].
  lift_step H; [|left; now apply (Early e)].
  lift_step H; [|left; now apply (Early e)].
  lift_step H; [|left; now apply (Early e)].
  lift_step H; [|left; now apply (Early e)].
  match type of H with
  | context [match ?o with Some _ => _ | None => _ end] =>
      is_var o; destruct o;
      [|unfold io_lift in H; left; now apply (Early _ H)]
  end.
  match type of H with
  | context [match ?o with Some _ => _ | None => _ end] =>
      is_var o; destruct o;
      [|unfold io_lift in H; left; now apply (Early _ H)]
  end.
  lift_step H; [|left; now apply (Early e)].
  lift_step H; [|left; now apply (Early e)].
  lift_step H; [|left; now apply (Early e)].
  right. rewrite bind_cases in H. fold sem in H.
  change (candidate_dates_deadlines_urls db year sem) with [u1; u2] in H.
  rewrite fetch_first_two in H. rewrite <- !app_assoc in H. cbn [app] in H.
  unfold no_deadlines_page. fold sem.
  change (candidate_dates_deadlines_urls db year sem) with [u1; u2].
  destruct (pages u1) as [h1|] eqn:E1.
  - left. exists h1. split; [reflexivity|].
    destruct h1 as [|c h1]; cbn [nonempty] in H.
    + unfold io_lift in H. injection H as <- <-. auto.
    + lift_step H; [|injection H as <- <-; split; [reflexivity|discriminate]].
      lift_step H; [|injection H as <- <-; split; [reflexivity|discriminate]].
      unfold io_ret in H. injection H as <- <-.
      split; [reflexivity|discriminate].
  - right. split; [reflexivity|].
    destruct (pages u2) as [h2|] eqn:E2.
    + destruct h2 as [|c h2]; cbn [nonempty] in H.
      * unfold io_lift in H. injection H as <- <-. auto.
      * assert (G : pages u2 = None \/ pages u2 = Some [] -> False)
          by (rewrite E2; intros [G|G]; discriminate).
        rewrite E2 in G.
        lift_step H; [|injection H as <- <-; split; [reflexivity|tauto]].
        lift_step H; [|injection H as <- <-; split; [reflexivity|tauto]].
        unfold io_ret in H. injection H as <- <-.
        split; [reflexivity|tauto].
    + unfold io_lift in H. injection H as <- <-. auto.
Qed.
End Requests.

(** The pages a run asks for, whatever its outcome: a prefix of the
    academic-year page followed by the two deadlines candidates, in that
    order.  When the academic-year page cannot be fetched the run stops
    there with the fetch error.  The second candidate is asked for only
    when the first could not be fetched; a first candidate that serves an
    empty page ends the search, and the run, with the error of a missing
    deadlines page, as does a second candidate that cannot be fetched or
    is empty. *)
Theorem run_requests db dateutil_parse today html_get_text pages year
        (semester : str) log r log' :
  build_term_events db dateutil_parse today html_get_text pages year semester log
  = (r, log') ->
  let urls := candidate_dates_deadlines_urls db year (lower db semester) in
  exists more rest,
    log' = log ++ more /\ term_urls db year semester = more ++ rest /\
    (forall ay, nth_error more 0 = Some ay -> pages ay = None ->
                r = Raise FetchError /\ more = [ay]) /\
    (length more = 3%nat -> pages (nth 0 urls []) = None) /\
    (pages (nth 0 urls []) = Some [] ->
     (length more <= 2)%nat /\
     (length more = 2%nat -> r = Raise (no_deadlines_page db year semester))) /\
    (length more = 3%nat ->
     pages (nth 1 urls []) = None \/ pages (nth 1 urls []) = Some [] ->
     r = Raise (no_deadlines_page db year semester)).
Proof.
  intros H. cbv zeta. unfold term_urls.
  apply run_walk in H.
  destruct H as [[-> [e [-> Hc]]]|[ay_slug [Eslug Hc]]].
  - exists []. eexists. split; [now rewrite app_nil_r|]. split; [reflexivity|].
    cbn [length nth_error]. repeat split; try discriminate; try lia.
  - rewrite Eslug. cbv zeta in Hc.
    set (urls := candidate_dates_deadlines_urls db year (lower db semester)) in *.
    assert (Eu : [ACADEMIC_BASE ++ s "/" ++ ay_slug] ++ urls
                 = [ACADEMIC_BASE ++ s "/" ++ ay_slug;
                    nth 0 urls []; nth 1 urls []]) by reflexivity.
    destruct Hc as [[Hp [-> ->]]|[Hp [[-> [e ->]]|[[html [E1 [-> Hx]]]|[E1 [-> Hx]]]]]].
    + eexists [_], _. split; [reflexivity|]. split; [reflexivity|].
      cbn [length nth_error].
      split; [intros ay [= <-] _; auto|].
      repeat split; try discriminate; try lia.
    + eexists [_], _. split; [reflexivity|]. split; [reflexivity|].
      cbn [length nth_error].
      split; [intros ay [= <-] Hn; contradiction|].
      repeat split; try discriminate; try lia.
    + eexists [_; _], _. split; [reflexivity|]. split; [exact Eu|].
      cbn [length nth_error].
      split; [intros ay [= <-] Hn; contradiction|].
      split; [discriminate|]. split; [|discriminate].
      intros Hh. split; [lia|]. intros _. apply Hx. congruence.
    + eexists [_; _; _], []. split; [reflexivity|]. split; [exact Eu|].
      cbn [length nth_error].
      split; [intros ay [= <-] Hn; contradiction|].
      split; [intros _; exact E1|]. split; [intros Hh; congruence|].
      intros _ Hu. apply Hx. exact Hu.
Qed.

(** A site whose first deadlines candidate serves an empty page. *)
Lemma run_requests_witness :
  let site := fun url =>
    if str_eqb url (DATES_BASE ++ s "/fall25-dates.php") then Some []
    else sample_site url in
  exists more,
    snd (build_term_events ascii_db month_day_year_converter day0 plain_text
                           site 2025 (s "Fall") []) = more /\
    (length more <= 2)%nat.
Proof.
  cbv zeta.
  match goal with
  | |- context [snd ?x] => destruct x as [r log'] eqn:E
  end.
  destruct (run_requests _ _ _ _ _ _ _ _ _ _ E)
    as [more [rest [Hl [_ [_ [_ [He _]]]]]]].
  exists more. cbn [snd app] in Hl |- *. split; [exact Hl|].
  apply He. vm_compute. reflexivity.
Defined.
